(** * Adaptive selection and evaluation engine of the mock-interview server

    A shallow embedding of

      - [server/src/services/feedback.js]          (FeedbackService),
      - [server/src/services/ai/answerEvaluator.js] (AnswerEvaluator),
      - [server/src/services/ai/questionStore.js]  (QuestionStore),
      - [server/src/services/ai/questionSelector.js] (QuestionSelector),
      - [server/src/services/ai/config.js]         (isAIEnabled, shouldFallback),

    followed by the properties the specification states about them.

    Conventions of the embedding.

      - A JavaScript number is an IEEE-754 binary64 value.  It is
        represented by the rational it denotes, and every arithmetic
        operation rounds its exact result to the nearest binary64 value,
        ties to even ([JSNum.fl]).  The exponent range is left unbounded:
        all magnitudes met here (ratios of array lengths, scores, small
        sums) lie far inside the normal range, where this is exactly what
        the machine computes.  A division is only ever reached behind the
        source's own [length > 0] guards.
      - A JavaScript string is a [string] of 8-bit characters; case mapping
        and white space are those of ASCII.  Where a property rests on the
        case mapping of a text being made of the case mappings of its
        parts, its statement is about ASCII text ([UnicodeText.is_ascii]);
        [UnicodeText] has the case mapping of code points beyond ASCII, as
        far as the Greek letters, where a capital sigma is mapped by its
        context.
      - A plain object used as a map is an association list or a partial
        map of the properties it owns; the names it inherits
        ([JSObject.inheritedNames]) are kept apart where the source reads
        them.
      - [null]/[undefined] arguments are [option]s, thrown exceptions are
        the [Thrown] constructor of [outcome].
      - The language model, [Math.random], [Date.now] and the questions
        table are external: their results are explicit arguments. *)

From Stdlib Require Import ZArith QArith Qround Qpower Qabs Qreduction.
From Stdlib Require Import Lia Lqa List String Ascii Bool Sorted Permutation.
From Stdlib Require Import SpecFloat.
Import ListNotations.

Local Open Scope list_scope.
Local Open Scope string_scope.
Local Open Scope Z_scope.

(* ===================================================================== *)
(** * JavaScript numbers *)
(* ===================================================================== *)

Module JSNum.

(** [ilog2 x] is the binary exponent of a positive rational:
    [2^(ilog2 x) <= x < 2^(ilog2 x + 1)]. *)
Definition ilog2 (x : Q) : Z :=
  let d := Z.log2 (Qnum x) - Z.log2 (Zpos (Qden x)) in
  if Qle_bool (Qpower 2 d) x then d else d - 1.

(** Nearest integer, ties to even. *)
Definition rne (x : Q) : Z :=
  let f := Qfloor x in
  match Qcompare (x - inject_Z f) (1 # 2) with
  | Lt => f
  | Gt => f + 1
  | Eq => if Z.even f then f else f + 1
  end.

(** Rounding of a positive rational to 53 significant bits. *)
Definition fl_pos (x : Q) : Q :=
  let e := ilog2 x - 52 in
  (inject_Z (rne (x * Qpower 2 (- e))) * Qpower 2 e)%Q.

(** Rounding to the nearest binary64 value. *)
Definition fl (x : Q) : Q :=
  Qred (match Qcompare x 0 with
        | Eq => 0
        | Gt => fl_pos x
        | Lt => - fl_pos (- x)
        end)%Q.

Definition fadd (x y : Q) : Q := fl (x + y).
Definition fmul (x y : Q) : Q := fl (x * y).
Definition fdiv (x y : Q) : Q := fl (x / y).

(** A decimal literal of the source denotes the nearest binary64 value. *)
Definition lit (x : Q) : Q := fl x.

Definition of_Z (n : Z) : Q := fl (inject_Z n).
Definition of_nat (n : nat) : Q := of_Z (Z.of_nat n).

(** [Math.round]: the nearest integer, ties towards plus infinity.  The
    result is exact (no intermediate rounding). *)
Definition Math_round (x : Q) : Z := Qfloor (x + (1 # 2)).

(** [Math.floor]. *)
Definition Math_floor (x : Q) : Z := Qfloor x.

(** Comparisons of numbers. *)
Definition geb (x y : Q) : bool := Qle_bool y x.
Definition ltb (x y : Q) : bool := negb (Qle_bool y x).

(** The value of a finite [spec_float] of the Standard Library's
    IEEE-754 specification, used to cross-check [fl]. *)
Definition SF2Q (f : spec_float) : Q :=
  match f with
  | S754_finite s m e =>
      Qred ((if s then -1 else 1) * inject_Z (Zpos m) * Qpower 2 e)%Q
  | _ => 0%Q
  end.

(** The Standard Library's binary64 operations, and a positive integer as
    a binary64 value. *)
Definition b64 (n : positive) : spec_float := S754_finite false n 0.
Definition b64add : spec_float -> spec_float -> spec_float := SFadd 53 1024.
Definition b64mul : spec_float -> spec_float -> spec_float := SFmul 53 1024.
Definition b64div : spec_float -> spec_float -> spec_float := SFdiv 53 1024.

End JSNum.

(* ===================================================================== *)
(** * JavaScript strings *)
(* ===================================================================== *)

Module JSString.

(** White space of [\s] and [String.prototype.trim], ASCII part:
    tab, line feed, vertical tab, form feed, carriage return, space. *)
Definition is_space (c : ascii) : bool :=
  let n := nat_of_ascii c in
  ((9 <=? n) && (n <=? 13) || (n =? 32))%nat.

Definition is_digit (c : ascii) : bool :=
  let n := nat_of_ascii c in ((48 <=? n) && (n <=? 57))%nat.

(** The character class [[.!?]]. *)
Definition is_terminal (c : ascii) : bool :=
  let n := nat_of_ascii c in ((n =? 46) || (n =? 33) || (n =? 63))%nat.

Definition lower_char (c : ascii) : ascii :=
  let n := nat_of_ascii c in
  if ((65 <=? n) && (n <=? 90))%nat then ascii_of_nat (n + 32) else c.

Fixpoint toLowerCase (s : string) : string :=
  match s with
  | EmptyString => EmptyString
  | String c s' => String (lower_char c) (toLowerCase s')
  end.


Definition is_empty (s : string) : bool :=
  match s with EmptyString => true | _ => false end.

Fixpoint trimStart (s : string) : string :=
  match s with
  | EmptyString => EmptyString
  | String c s' => if is_space c then trimStart s' else s
  end.

Fixpoint trimEnd (s : string) : string :=
  match s with
  | EmptyString => EmptyString
  | String c s' =>
      let t := trimEnd s' in
      if is_space c && is_empty t then EmptyString else String c t
  end.

Definition trim (s : string) : string := trimEnd (trimStart s).

(** A string is trimmed when neither end is white space. *)
Definition trimmed (s : string) : Prop := trimStart s = s /\ trimEnd s = s.

(** [s.includes(k)]: [k] occurs in [s] as a contiguous substring. *)
Fixpoint includes (s k : string) : bool :=
  String.prefix k s ||
  match s with
  | EmptyString => false
  | String _ s' => includes s' k
  end.

(** [s.split(sep)] for a one-character separator; never the empty list. *)
Fixpoint split_char (sep : ascii) (s : string) : list string :=
  match s with
  | EmptyString => [EmptyString]
  | String c s' =>
      let r := split_char sep s' in
      if Ascii.eqb c sep then EmptyString :: r
      else match r with
           | h :: t => String c h :: t
           | [] => [String c EmptyString]
           end
  end.

(** [s.split(/\s+/)]: the pieces between maximal runs of white space.
    [cur] is the piece being read, [in_sep] tells that the previous
    character belonged to a separator. *)
Fixpoint split_ws_from (s cur : string) (in_sep : bool) : list string :=
  match s with
  | EmptyString => [cur]
  | String c s' =>
      if is_space c
      then if in_sep then split_ws_from s' cur true
           else cur :: split_ws_from s' EmptyString true
      else split_ws_from s' (cur ++ String c EmptyString) false
  end.

Definition split_ws (s : string) : list string :=
  split_ws_from s EmptyString false.

(** [(s.match(/[cls]+/g) || []).length]: the number of maximal runs of
    characters of the class. *)
Fixpoint count_runs_from (cls : ascii -> bool) (s : string) (in_run : bool)
  : nat :=
  match s with
  | EmptyString => 0
  | String c s' =>
      if cls c
      then (if in_run then 0 else 1) + count_runs_from cls s' true
      else count_runs_from cls s' false
  end%nat.

Definition count_runs (cls : ascii -> bool) (s : string) : nat :=
  count_runs_from cls s false.

(** [arr.join(sep)]. *)
Fixpoint join (sep : string) (l : list string) : string :=
  match l with
  | [] => EmptyString
  | [x] => x
  | x :: l' => x ++ sep ++ join sep l'
  end.

(** [s.match(/\d+/)]: the first maximal run of decimal digits. *)
Fixpoint take_digits (s : string) : string :=
  match s with
  | EmptyString => EmptyString
  | String c s' => if is_digit c then String c (take_digits s') else EmptyString
  end.

Fixpoint match_digits (s : string) : option string :=
  match s with
  | EmptyString => None
  | String c s' => if is_digit c then Some (take_digits s) else match_digits s'
  end.

(** [parseInt] of a string of decimal digits.  The value is exact; the
    callers clamp it to [0, 100] at once, where the rounding of a long
    digit string to a binary64 value cannot be seen. *)
Fixpoint parse_digits_from (acc : Z) (s : string) : Z :=
  match s with
  | EmptyString => acc
  | String c s' =>
      parse_digits_from (10 * acc + (Z.of_nat (nat_of_ascii c) - 48)) s'
  end.

Definition parseInt (s : string) : Z := parse_digits_from 0 s.

(** Truthiness of a possibly absent string: [null], [undefined] and the
    empty string are falsy. *)
Definition truthy (s : option string) : bool :=
  match s with
  | Some s => negb (is_empty s)
  | None => false
  end.

(** [s || ''] *)
Definition or_empty (s : option string) : string :=
  match s with Some s => s | None => EmptyString end.

End JSString.

(* ===================================================================== *)
(** * Plain objects used as maps *)
(* ===================================================================== *)

Module JSObject.

(** The property names every plain object inherits from
    [Object.prototype].  Read on an object that owns no such property,
    each gives a function (or, for [__proto__], the prototype itself):
    a truthy value that is none of the object's own. *)
Definition inheritedNames : list string :=
  [ "constructor"; "hasOwnProperty"; "isPrototypeOf"; "propertyIsEnumerable";
    "toLocaleString"; "toString"; "valueOf"; "__proto__";
    "__defineGetter__"; "__defineSetter__"; "__lookupGetter__";
    "__lookupSetter__" ].

End JSObject.

(* ===================================================================== *)
(** * FeedbackService: rule-based evaluation (services/feedback.js) *)
(* ===================================================================== *)

Module FeedbackService.
Import JSNum JSString.

(** The part of a question the evaluator reads. *)
Record Question := {
  expected_keywords : option string;
  ideal_answer : option string
}.

(** The object returned by [evaluateAnswer]. *)
Record Evaluation := {
  score : Z;
  keywordScore : Z;
  matchedKeywords : list string;
  missedKeywords : list string;
  wordCount : nat;
  strengths : list string;
  weaknesses : list string;
  suggestions : list string;
  feedback : string
}.

(** [(answer || '').toLowerCase().trim()] *)
Definition answerText (answer : option string) : string :=
  trim (toLowerCase (or_empty answer)).

(** [(question.expected_keywords || '').toLowerCase().split(',')
      .map(k => k.trim())] *)
Definition expectedKeywords (question : Question) : list string :=
  map trim
    (split_char "," (toLowerCase (or_empty (expected_keywords question)))).

Definition matched (text : string) (kws : list string) : list string :=
  filter (fun keyword => includes text keyword) kws.

Definition missed (text : string) (kws : list string) : list string :=
  filter (fun k => negb (includes text k)) kws.

(** The unrounded [keywordScore] of the source. *)
Definition keywordScoreOf (nmatched nexpected : nat) : Q :=
  if (0 <? nexpected)%nat
  then fmul (fdiv (of_nat nmatched) (of_nat nexpected)) 100
  else 0%Q.

Definition wordCountOf (text : string) : nat :=
  List.length
    (filter (fun w => (0 <? String.length w)%nat) (split_ws text)).

Definition lengthScoreOf (wc : nat) : Z :=
  if ((30 <=? wc) && (wc <=? 500))%nat then 100
  else if ((15 <=? wc) && (wc <? 30))%nat then 60
  else if (500 <? wc)%nat then 70
  else if (5 <=? wc)%nat then 40
  else 0.

Definition sentenceCountOf (text : string) : nat :=
  count_runs is_terminal text.

Definition hasStructureOf (text : string) : bool :=
  (2 <=? sentenceCountOf text)%nat.

Definition structureScoreOf (text : string) : Z :=
  if hasStructureOf text then 100 else 50.

(** [Math.round(keywordScore * 0.5 + lengthScore * 0.3
                + structureScore * 0.2)] *)
Definition overallScoreOf (kw : Q) (len str : Z) : Z :=
  Math_round
    (fadd (fadd (fmul kw (lit (5 # 10)))
                (fmul (of_Z len) (lit (3 # 10))))
          (fmul (of_Z str) (lit (2 # 10)))).

Definition generateFeedbackText (score : Z) (strengths weaknesses : list string)
  : string :=
  let feedback :=
    if 80 <=? score then "Excellent answer! "
    else if 60 <=? score then "Good answer with room for improvement. "
    else if 40 <=? score then "Decent attempt, but needs more depth. "
    else "This answer needs significant improvement. " in
  let feedback :=
    if (0 <? List.length strengths)%nat
    then feedback ++ "Strengths: " ++ join ", " strengths ++ ". "
    else feedback in
  if (0 <? List.length weaknesses)%nat
  then feedback ++ "Areas to improve: " ++ join ", " weaknesses ++ "."
  else feedback.

Definition evaluateAnswer (answer : option string) (question : Question)
  : Evaluation :=
  let answerText := answerText answer in
  let expectedKeywords := expectedKeywords question in
  let matchedKeywords := matched answerText expectedKeywords in
  let keywordScore :=
    keywordScoreOf (List.length matchedKeywords) (List.length expectedKeywords) in
  let wordCount := wordCountOf answerText in
  let lengthScore := lengthScoreOf wordCount in
  let hasStructure := hasStructureOf answerText in
  let structureScore := structureScoreOf answerText in
  let overallScore := overallScoreOf keywordScore lengthScore structureScore in
  let strengths :=
    ((if geb keywordScore 70 then ["Good coverage of key concepts"] else [])
     ++ (if 80 <=? lengthScore then ["Answer has good depth and detail"] else [])
     ++ (if hasStructure then ["Well-structured response"] else []))%list in
  let weaknesses :=
    ((if geb keywordScore 70 then []
      else if geb keywordScore 40
           then ["Some important concepts were missing"]
           else ["Many key concepts were not addressed"])
     ++ (if 80 <=? lengthScore then []
         else if (wordCount <? 30)%nat then ["Answer could be more detailed"]
         else if (500 <? wordCount)%nat then ["Answer could be more concise"]
         else [])
     ++ (if hasStructure then []
         else ["Consider structuring your answer with multiple points"]))%list in
  let missedKeywords := missed answerText expectedKeywords in
  let suggestions :=
    ((if (0 <? List.length missedKeywords)%nat
      then [("Consider discussing: "
             ++ join ", " (firstn 3 missedKeywords))%string]
      else [])
     ++ (if (wordCount <? 30)%nat
         then ["Provide more examples and explanations"] else [])
     ++ (if hasStructure then []
         else ["Break your answer into clear points or steps"]))%list in
  {| score := overallScore;
     keywordScore := Math_round keywordScore;
     matchedKeywords := matchedKeywords;
     missedKeywords := missedKeywords;
     wordCount := wordCount;
     strengths := strengths;
     weaknesses := weaknesses;
     suggestions := suggestions;
     feedback := generateFeedbackText overallScore strengths weaknesses |}.

(** ** Session feedback *)

(** A row of a session's answers: [score] may be [null], [topic] may be
    absent. *)
Record Answer := {
  a_score : option Z;
  a_topic : option string
}.

Module Session.
Record SessionFeedback := {
  overallScore : Z;
  topicScores : list (string * Z);
  strengths : list string;
  weaknesses : list string;
  recommendations : list string;
  readinessScore : Z
}.
End Session.

(** The accumulator object [{ total, count }] kept per topic.  The
    JavaScript object [topicScores] is an association list in insertion
    order, the order of [Object.keys] and [Object.entries] for keys that
    are neither array indices nor inherited property names. *)
Definition Tally : Type := (Q * nat)%type.

Fixpoint tally_add (topic : string) (s : Q) (m : list (string * Tally))
  : list (string * Tally) :=
  match m with
  | [] => [(topic, (fadd 0 s, 1%nat))]
  | (k, (total, count)) :: m' =>
      if String.eqb k topic
      then (k, (fadd total s, S count)) :: m'
      else (k, (total, count)) :: tally_add topic s m'
  end.

(** [a.score || 0] *)
Definition score_or_0 (a : Answer) : Q :=
  match a_score a with Some s => of_Z s | None => 0%Q end.

Definition tally_answer (m : list (string * Tally)) (a : Answer)
  : list (string * Tally) :=
  if truthy (a_topic a)
  then tally_add (or_empty (a_topic a)) (score_or_0 a) m
  else m.

Definition is_valid (a : Answer) : bool :=
  match a_score a with Some _ => true | None => false end.

(** [validScores.reduce((sum, a) => sum + a.score, 0)] *)
Definition sum_scores (l : list Answer) : Q :=
  fold_left (fun sum a => fadd sum (score_or_0 a)) l 0%Q.

Definition overallScoreOfSession (answers : list Answer) : Z :=
  let validScores := filter is_valid answers in
  if (0 <? List.length validScores)%nat
  then Math_round (fdiv (sum_scores validScores)
                        (of_nat (List.length validScores)))
  else 0.

Definition topicScoresOf (answers : list Answer) : list (string * Z) :=
  map (fun '(topic, (total, count)) =>
         (topic, Math_round (fdiv total (of_nat count))))
      (fold_left tally_answer answers []).

(** [Math.min(100, Math.round(overallScore * 0.6
                              + Math.min(answers.length, 10) * 4))] *)
Definition readinessScoreOf (overallScore : Z) (nanswers : nat) : Z :=
  Z.min 100
    (Math_round
       (fadd (fmul (of_Z overallScore) (lit (6 # 10)))
             (fmul (of_nat (Nat.min nanswers 10)) 4))).

Definition calculateSessionFeedback (answers : list Answer)
  : Session.SessionFeedback :=
  if (List.length answers =? 0)%nat
  then {| Session.overallScore := 0;
          Session.topicScores := [];
          Session.strengths := [];
          Session.weaknesses := [];
          Session.recommendations := [];
          Session.readinessScore := 0 |}
  else
    let overallScore := overallScoreOfSession answers in
    let topicScores := topicScoresOf answers in
    let strengths :=
      map fst (filter (fun e => 70 <=? snd e) topicScores) in
    let weaknesses :=
      map fst (filter (fun e => snd e <? 50) topicScores) in
    let recommendations :=
      ((if (0 <? List.length weaknesses)%nat
        then [("Focus on improving: " ++ join ", " weaknesses)%string]
        else [])
       ++ [if overallScore <? 50
           then "Review fundamental concepts and practice more"
           else if overallScore <? 70
                then "Good foundation, now work on depth and examples"
                else "Strong performance! Try harder difficulty questions"])%list in
    {| Session.overallScore := overallScore;
       Session.topicScores := topicScores;
       Session.strengths := strengths;
       Session.weaknesses := weaknesses;
       Session.recommendations := recommendations;
       Session.readinessScore :=
         readinessScoreOf overallScore (List.length answers) |}.

Definition getReadinessLevel (score : Z) : string :=
  if 80 <=? score then "Interview Ready"
  else if 60 <=? score then "Almost Ready"
  else if 40 <=? score then "Needs Practice"
  else "Keep Learning".

End FeedbackService.

(* ===================================================================== *)
(** * Results of calls that may throw, and the configuration *)
(* ===================================================================== *)

(** A call either returns a value or throws an [Error] with a message. *)
Inductive outcome (A : Type) : Type :=
| Returned (a : A)
| Thrown (message : string).
Arguments Returned {A} a.
Arguments Thrown {A} message.

Module Config.

(** The two variables of [process.env] the engine reads. *)
Record Env := {
  AI_ENABLED : option string;
  AI_FALLBACK_TO_RULES : option string
}.

(** [process.env.AI_ENABLED === 'true'] *)
Definition isAIEnabled (env : Env) : bool :=
  match AI_ENABLED env with
  | Some v => String.eqb v "true"
  | None => false
  end.

(** [process.env.AI_FALLBACK_TO_RULES !== 'false'] *)
Definition shouldFallback (env : Env) : bool :=
  match AI_FALLBACK_TO_RULES env with
  | Some v => negb (String.eqb v "false")
  | None => true
  end.

(** The options a [ChatOllama] client was created with. *)
Record Model := {
  temperature : Q;
  numPredict : Z
}.

Definition createModel (env : Env) (temperature : Q) (numPredict : Z)
  : option Model :=
  if negb (isAIEnabled env) then None
  else Some {| temperature := temperature; numPredict := numPredict |}.

End Config.

(* ===================================================================== *)
(** * QuestionStore (services/ai/questionStore.js) *)
(* ===================================================================== *)

Module QuestionStore.
Import JSString.

(** A row of the [questions] table. *)
Record Row := {
  r_id : string;
  r_category : string;
  r_role : string;
  r_topic : string;
  r_difficulty : string;
  r_question_text : string;
  r_expected_keywords : option string;
  r_ideal_answer : option string;
  r_time_limit : option Z
}.

Record Metadata := {
  category : string;
  role : string;
  topic : string;
  difficulty : string;
  expectedKeywords : list string;
  idealAnswer : option string;
  timeLimit : option Z
}.

Record QuestionDocument := {
  id : string;
  content : string;
  metadata : Metadata
}.

(** The fields of the store object. *)
Record Store := {
  questionsCache : option (list QuestionDocument);
  lastCacheTime : option Z
}.

Definition cacheTimeout : Z := 5 * 60 * 1000.

(** What a call of [getAllQuestions] sees of the outside: [Date.now()]
    and the contents of the [questions] table. *)
Record World := {
  now : Z;
  questions : list Row
}.

Definition toDocument (q : Row) : QuestionDocument :=
  {| id := r_id q;
     content := r_question_text q;
     metadata :=
       {| category := r_category q;
          role := r_role q;
          topic := r_topic q;
          difficulty := r_difficulty q;
          expectedKeywords :=
            match r_expected_keywords q with
            | Some s => map trim (split_char "," s)
            | None => []
            end;
          idealAnswer := r_ideal_answer q;
          timeLimit := r_time_limit q |} |}.

(** The full reload from the table. *)
Definition reload (w : World) : list QuestionDocument * Store :=
  let docs := map toDocument (questions w) in
  (docs, {| questionsCache := Some docs; lastCacheTime := Some (now w) |}).

(** The cache is used when both fields are truthy (a zero time stamp is
    falsy) and the cache is younger than [cacheTimeout]. *)
Definition getAllQuestions (w : World) (st : Store)
  : list QuestionDocument * Store :=
  match questionsCache st, lastCacheTime st with
  | Some cache, Some t =>
      if negb (t =? 0) && (now w - t <? cacheTimeout)
      then (cache, st) else reload w
  | _, _ => reload w
  end.

(** [arr.includes(x)] on strings. *)
Definition mem (x : string) (l : list string) : bool :=
  existsb (String.eqb x) l.

(** The argument object of [getFilteredQuestions]. *)
Record Filter := {
  f_role : option string;
  f_difficulty : option string;
  f_category : option string;
  f_excludeIds : list string
}.

Definition keep (f : Filter) (q : QuestionDocument) : bool :=
  if mem (id q) (f_excludeIds f) then false
  else if truthy (f_role f)
          && negb (String.eqb (role (metadata q)) (or_empty (f_role f)))
          && negb (String.eqb (role (metadata q)) "any") then false
  else if truthy (f_difficulty f)
          && negb (String.eqb (difficulty (metadata q))
                              (or_empty (f_difficulty f))) then false
  else if truthy (f_category f)
          && negb (String.eqb (category (metadata q))
                              (or_empty (f_category f))) then false
  else true.

Definition getFilteredQuestions (w : World) (st : Store) (f : Filter)
  : list QuestionDocument * Store :=
  let (allQuestions, st') := getAllQuestions w st in
  (filter (keep f) allQuestions, st').

Definition getQuestionById (w : World) (st : Store) (i : string)
  : option QuestionDocument * Store :=
  let (allQuestions, st') := getAllQuestions w st in
  (find (fun q => String.eqb (id q) i) allQuestions, st').

(** [topics.add(t)] on a [Set] kept in insertion order. *)
Definition set_add (t : string) (topics : list string) : list string :=
  if mem t topics then topics else (topics ++ [t])%list.

Definition getSessionTopicsCovered (w : World) (st : Store)
    (answeredQuestionIds : list string) : list string * Store :=
  let (allQuestions, st') := getAllQuestions w st in
  (fold_left
     (fun topics i =>
        match find (fun q => String.eqb (id q) i) allQuestions with
        | Some q => set_add (topic (metadata q)) topics
        | None => topics
        end)
     answeredQuestionIds [],
   st').

Definition clearCache (st : Store) : Store :=
  {| questionsCache := None; lastCacheTime := None |}.

(** The plain object [grouped] as a partial map from property names to
    the arrays it owns.  Nothing enumerates the object, so the order of
    its keys is not modelled. *)
Definition Grouped : Type := string -> option (list QuestionDocument).

(** [{}] *)
Definition emptyObject : Grouped := fun _ => None.

(** [grouped[topic] = l] *)
Definition setProperty (topic : string) (l : list QuestionDocument)
    (grouped : Grouped) : Grouped :=
  fun k => if String.eqb k topic then Some l else grouped k.

(** The body of the [forEach]: [if (!grouped[topic]) grouped[topic] = [];
    grouped[topic].push(q)].  An array the object owns is truthy.  A topic
    that is an inherited property name reads as truthy too, so that no
    array is made for it, and what is read has no [push]: the call throws
    a [TypeError]. *)
Definition group_add (q : QuestionDocument) (grouped : Grouped)
  : outcome Grouped :=
  let topic := topic (metadata q) in
  match grouped topic with
  | Some l => Returned (setProperty topic (l ++ [q])%list grouped)
  | None =>
      if mem topic JSObject.inheritedNames
      then Thrown "grouped[topic].push is not a function"
      else Returned (setProperty topic [q] grouped)
  end.

(** [questions.forEach(q => ...)]: the first throw ends the loop. *)
Fixpoint group_all (questions : list QuestionDocument) (grouped : Grouped)
  : outcome Grouped :=
  match questions with
  | [] => Returned grouped
  | q :: questions' =>
      match group_add q grouped with
      | Returned grouped' => group_all questions' grouped'
      | Thrown e => Thrown e
      end
  end.

(** [getQuestionsByTopic(role)] *)
Definition getQuestionsByTopic (w : World) (st : Store) (role : option string)
  : outcome Grouped * Store :=
  let (questions, st') :=
    getFilteredQuestions w st
      {| f_role := role; f_difficulty := None; f_category := None;
         f_excludeIds := [] |} in
  (group_all questions emptyObject, st').
End QuestionStore.

(* ===================================================================== *)
(** * AnswerEvaluator (services/ai/answerEvaluator.js) *)
(* ===================================================================== *)

Module AnswerEvaluator.
Import JSNum JSString Config.

(** The question argument is read through optional fields: it is either
    a store document (with [metadata]) or a table row. *)
Record Question := {
  metadata : option QuestionStore.Metadata;
  expected_keywords : option string;
  ideal_answer : option string;
  content : option string;
  question_text : option string
}.

(** The object built by [blendEvaluations] and by the spreads
    [{...ruleEvaluation, evaluationMethod}]. *)
Record Evaluation := {
  score : Z;
  feedback : string;
  strengths : list string;
  weaknesses : list string;
  suggestions : list string;
  matchedKeywords : list string;
  missedKeywords : list string;
  keywordScore : Z;
  wordCount : nat;
  evaluationMethod : string
}.

(** The object returned by [aiEvaluate]. *)
Record AiEvaluation := {
  ai_score : Z;
  ai_feedback : string;
  ai_strengths : list string;
  ai_weaknesses : list string;
  ai_keyConceptsCovered : list string;
  ai_keyConceptsMissed : list string;
  ai_suggestions : list string;
  ai_evaluationMethod : string
}.

(** The field [this.model]. *)
Definition State : Type := option Model.

Definition initModel (env : Env) (st : State) : State :=
  match st with
  | None => if isAIEnabled env then createModel env (1 # 10) 60 else None
  | Some _ => st
  end.

(** [{...ruleEvaluation, evaluationMethod: m}] *)
Definition withMethod (r : FeedbackService.Evaluation) (m : string)
  : Evaluation :=
  {| score := FeedbackService.score r;
     feedback := FeedbackService.feedback r;
     strengths := FeedbackService.strengths r;
     weaknesses := FeedbackService.weaknesses r;
     suggestions := FeedbackService.suggestions r;
     matchedKeywords := FeedbackService.matchedKeywords r;
     missedKeywords := FeedbackService.missedKeywords r;
     keywordScore := FeedbackService.keywordScore r;
     wordCount := FeedbackService.wordCount r;
     evaluationMethod := m |}.

(** [response.match(/\d+/)] then
    [Math.min(100, Math.max(0, parseInt(numberMatch[0])))]. *)
Definition parseScore (response : string) : option Z :=
  match match_digits response with
  | Some digits => Some (Z.min 100 (Z.max 0 (parseInt digits)))
  | None => None
  end.

(** [invoke] is the result of [chain.invoke]: the text of the model's
    reply, or the error it threw. *)
Definition aiEvaluate (invoke : outcome string) : outcome AiEvaluation :=
  match invoke with
  | Thrown e => Thrown e
  | Returned response =>
      match parseScore response with
      | None => Thrown "Could not extract score from AI response"
      | Some aiScore =>
          Returned {| ai_score := aiScore;
                      ai_feedback := "Evaluated by AI";
                      ai_strengths := [];
                      ai_weaknesses := [];
                      ai_keyConceptsCovered := [];
                      ai_keyConceptsMissed := [];
                      ai_suggestions := [];
                      ai_evaluationMethod := "ai" |}
      end
  end.

Definition blendEvaluations (aiEval : AiEvaluation)
    (ruleEval : FeedbackService.Evaluation) : Evaluation :=
  let blendedScore :=
    Math_round (fadd (fmul (of_Z (ai_score aiEval)) (lit (5 # 10)))
                     (fmul (of_Z (FeedbackService.score ruleEval))
                           (lit (5 # 10)))) in
  {| score := blendedScore;
     feedback :=
       if is_empty (FeedbackService.feedback ruleEval)
       then "Answer evaluated" else FeedbackService.feedback ruleEval;
     strengths := FeedbackService.strengths ruleEval;
     weaknesses := FeedbackService.weaknesses ruleEval;
     suggestions := FeedbackService.suggestions ruleEval;
     matchedKeywords := FeedbackService.matchedKeywords ruleEval;
     missedKeywords := FeedbackService.missedKeywords ruleEval;
     keywordScore := FeedbackService.keywordScore ruleEval;
     wordCount := FeedbackService.wordCount ruleEval;
     evaluationMethod := "ai-blended" |}.

(** [a || b] on possibly absent strings. *)
Definition or_else (a b : option string) : option string :=
  if truthy a then a else b.

(** The question handed to the rule-based evaluator:
    [question.metadata?.expectedKeywords?.join(',')
       || question.expected_keywords || ''] and likewise the ideal
    answer. *)
Definition ruleQuestion (question : Question) : FeedbackService.Question :=
  {| FeedbackService.expected_keywords :=
       Some (or_empty
               (or_else
                  (option_map
                     (fun md => join "," (QuestionStore.expectedKeywords md))
                     (metadata question))
                  (expected_keywords question)));
     FeedbackService.ideal_answer :=
       Some (or_empty
               (or_else
                  (match metadata question with
                   | Some md => QuestionStore.idealAnswer md
                   | None => None
                   end)
                  (ideal_answer question))) |}.

Definition evaluateAnswer (env : Env) (st : State)
    (answer : option string) (question : Question) (invoke : outcome string)
  : outcome Evaluation * State :=
  let ruleEvaluation :=
    FeedbackService.evaluateAnswer answer (ruleQuestion question) in
  let st' := initModel env st in
  match st' with
  | Some _ =>
      match aiEvaluate invoke with
      | Returned aiEvaluation =>
          (Returned (blendEvaluations aiEvaluation ruleEvaluation), st')
      | Thrown error =>
          if shouldFallback env
          then (Returned (withMethod ruleEvaluation "fallback"), st')
          else (Thrown error, st')
      end
  | None => (Returned (withMethod ruleEvaluation "rules"), st')
  end.

End AnswerEvaluator.

(* ===================================================================== *)
(** * QuestionSelector (services/ai/questionSelector.js) *)
(* ===================================================================== *)

Module QuestionSelector.
Import JSNum JSString Config QuestionStore.

Record SessionContext := {
  role : option string;
  difficulty : option string;
  answeredQuestionIds : list string;
  totalQuestions : Z;
  recentScores : list Z
}.

Record Selection := {
  question : QuestionDocument;
  reasoning : string;
  suggestedDifficulty : option string;
  selectionMethod : string
}.

(** What one call of the selector receives from outside: the world seen
    by its k-th access to the store, the result of [chain.invoke], and
    the value of the k-th call of [Math.random()]. *)
Record Externals := {
  worldAt : nat -> World;
  invoke : outcome string;
  random : nat -> Q
}.

(** The mutable state a call runs on: the shared store with the number of
    accesses made to it, the number of random draws made, and the
    selector's field [this.model]. *)
Record Heap := {
  store : Store;
  reads : nat;
  draws : nat;
  model : option Model
}.

(** State passing. *)
Definition M (A : Type) : Type := Heap -> A * Heap.
Definition ret {A} (a : A) : M A := fun h => (a, h).
Definition bind {A B} (m : M A) (k : A -> M B) : M B :=
  fun h => let (a, h') := m h in k a h'.

Notation "x <- m ;; k" := (bind m (fun x => k))
  (at level 61, m at next level, right associativity).

(** A call into the store: it sees the world of its turn. *)
Definition onStore {A} (ext : Externals)
    (f : World -> Store -> A * Store) : M A :=
  fun h =>
    let (a, st') := f (worldAt ext (reads h)) (store h) in
    (a, {| store := st'; reads := S (reads h); draws := draws h;
           model := model h |}).

(** [Math.random()] *)
Definition Math_random (ext : Externals) : M Q :=
  fun h =>
    (random ext (draws h),
     {| store := store h; reads := reads h; draws := S (draws h);
        model := model h |}).

Definition initModel (env : Env) : M (option Model) :=
  fun h =>
    match model h with
    | None =>
        let m := if isAIEnabled env then createModel env (2 # 10) 40
                 else None in
        (m, {| store := store h; reads := reads h; draws := draws h;
               model := m |})
    | Some m => (Some m, h)
    end.

(** [arr.indexOf(x)], [-1] when absent. *)
Fixpoint indexOf (l : list string) (x : string) : Z :=
  match l with
  | [] => -1
  | y :: l' =>
      if String.eqb y x then 0
      else let i := indexOf l' x in if i <? 0 then -1 else i + 1
  end.

(** [Array.prototype.sort] with the comparator
    [(a, b) => key(a) - key(b)]: the sort is stable, so its result is
    that of a stable insertion sort on the keys. *)
Section Sort.
Context {A : Type} (key : A -> Z).

Fixpoint insert (x : A) (l : list A) : list A :=
  match l with
  | [] => [x]
  | y :: l' => if key x <=? key y then x :: l else y :: insert x l'
  end.

Fixpoint sortBy (l : list A) : list A :=
  match l with
  | [] => []
  | x :: l' => insert x (sortBy l')
  end.
End Sort.

(** [recentScores.reduce((a, b) => a + b, 0)] *)
Definition sumScores (scores : list Z) : Q :=
  fold_left (fun a b => fadd a (of_Z b)) scores 0%Q.

Definition avgScore (scores : list Z) : Q :=
  if (0 <? List.length scores)%nat
  then fdiv (sumScores scores) (of_nat (List.length scores))
  else 50%Q.

Definition difficultyOrder (avg : Q) : list string :=
  if geb avg 70 then ["hard"; "medium"; "easy"]
  else if geb avg 50 then ["medium"; "easy"; "hard"]
  else ["easy"; "medium"; "hard"].

Definition difficultyKey (order : list string) (q : QuestionDocument) : Z :=
  indexOf order (QuestionStore.difficulty (metadata q)).

(** [arr[Math.floor(Math.random() * arr.length)]]; [None] is
    [undefined]. *)
Definition pick {A} (r : Q) (l : list A) : option A :=
  let i := Math_floor (fmul r (of_nat (List.length l))) in
  if i <? 0 then None else nth_error l (Z.to_nat i).

(** The candidates after the topic preference. *)
Definition uncovered (topicsCovered : list string)
    (availableQuestions : list QuestionDocument) : list QuestionDocument :=
  let candidates :=
    filter (fun q => negb (mem (topic (metadata q)) topicsCovered))
           availableQuestions in
  if (List.length candidates =? 0)%nat then availableQuestions
  else candidates.

(** The candidates in the order [candidates.sort] leaves them. *)
Definition sortedCandidates (scores : list Z)
    (candidates : list QuestionDocument) : list QuestionDocument :=
  sortBy (difficultyKey (difficultyOrder (avgScore scores))) candidates.

Definition topCandidates (sorted : list QuestionDocument)
  : list QuestionDocument :=
  firstn (Nat.min 3 (List.length sorted)) sorted.

(** [candidates.sort] sorts in place, and [candidates] is the array
    [availableQuestions] itself when the topic filter left nothing: this is
    what the caller's array holds once the candidates are sorted. *)
Definition availableAfterSort (topicsCovered : list string) (scores : list Z)
    (availableQuestions : list QuestionDocument) : list QuestionDocument :=
  let candidates :=
    filter (fun q => negb (mem (topic (metadata q)) topicsCovered))
           availableQuestions in
  if (List.length candidates =? 0)%nat
  then sortedCandidates scores availableQuestions
  else availableQuestions.

(** The second component of the result is the array [availableQuestions]
    as the call leaves it. *)
Definition smartFallbackSelect (ext : Externals) (ctx : SessionContext)
    (availableQuestions : list QuestionDocument)
  : M (outcome Selection * list QuestionDocument) :=
  topicsCovered <-
    onStore ext (fun w st =>
                   getSessionTopicsCovered w st (answeredQuestionIds ctx)) ;;
  let candidates := uncovered topicsCovered availableQuestions in
  let candidates := sortedCandidates (recentScores ctx) candidates in
  let availableQuestions :=
    availableAfterSort topicsCovered (recentScores ctx) availableQuestions in
  let topCandidates := topCandidates candidates in
  r <- Math_random ext ;;
  match pick r topCandidates with
  | Some selected =>
      ret (Returned
             {| question := selected;
                reasoning :=
                  "Selected based on topic diversity and difficulty appropriateness";
                suggestedDifficulty :=
                  Some (QuestionStore.difficulty (metadata selected));
                selectionMethod := "fallback" |},
           availableQuestions)
  | None =>
      ret (Thrown "Cannot read properties of undefined (reading 'metadata')",
           availableQuestions)
  end.

Definition randomSelect (ext : Externals) (questions : list QuestionDocument)
  : M (outcome Selection) :=
  r <- Math_random ext ;;
  match pick r questions with
  | Some selected =>
      ret (Returned
             {| question := selected;
                reasoning := "Randomly selected from available questions";
                suggestedDifficulty :=
                  Some (QuestionStore.difficulty (metadata selected));
                selectionMethod := "random" |})
  | None =>
      ret (Thrown "Cannot read properties of undefined (reading 'metadata')")
  end.

(** The first available question whose id occurs in the reply. *)
Definition findSelected (response : string)
    (availableQuestions : list QuestionDocument) : option QuestionDocument :=
  let responseText := trim response in
  find (fun q => includes responseText (id q)) availableQuestions.

(** The prompt lists the available questions and the session's role and
    difficulty; what the model makes of it is the external [invoke].  The
    topics and the average computed before the call are not used after it.
    The second component of the result is the array [availableQuestions]
    as the call leaves it. *)
Definition aiSelect (ext : Externals) (ctx : SessionContext)
    (availableQuestions : list QuestionDocument)
  : M (outcome Selection * list QuestionDocument) :=
  _topicsCovered <-
    onStore ext (fun w st =>
                   getSessionTopicsCovered w st (answeredQuestionIds ctx)) ;;
  match invoke ext with
  | Thrown e => ret (Thrown e, availableQuestions)
  | Returned response =>
      match findSelected response availableQuestions with
      | None => smartFallbackSelect ext ctx availableQuestions
      | Some selectedQuestion =>
          ret (Returned {| question := selectedQuestion;
                           reasoning := "AI selected";
                           suggestedDifficulty := None;
                           selectionMethod := "ai" |},
               availableQuestions)
      end
  end.

(** The result of a helper seen as a result of [selectNextQuestion], whose
    [null] is [Returned None]. *)
Definition asResult (r : outcome Selection) : outcome (option Selection) :=
  match r with
  | Returned s => Returned (Some s)
  | Thrown e => Thrown e
  end.

(** The two calls of the store made by [selectNextQuestion]. *)
Definition availableFilter (ctx : SessionContext) : Filter :=
  {| f_role := role ctx;
     f_difficulty := difficulty ctx;
     f_category := None;
     f_excludeIds := answeredQuestionIds ctx |}.

Definition relaxedFilter (ctx : SessionContext) : Filter :=
  {| f_role := role ctx;
     f_difficulty := None;
     f_category := None;
     f_excludeIds := answeredQuestionIds ctx |}.

Definition selectNextQuestion (env : Env) (ext : Externals)
    (sessionContext : SessionContext) : M (outcome (option Selection)) :=
  availableQuestions <-
    onStore ext (fun w st =>
      getFilteredQuestions w st (availableFilter sessionContext)) ;;
  if (List.length availableQuestions =? 0)%nat then
    fallbackQuestions <-
      onStore ext (fun w st =>
        getFilteredQuestions w st (relaxedFilter sessionContext)) ;;
    if (List.length fallbackQuestions =? 0)%nat then ret (Returned None)
    else r <- randomSelect ext fallbackQuestions ;; ret (asResult r)
  else
    m <- initModel env ;;
    match m with
    | Some _ =>
        r <- aiSelect ext sessionContext availableQuestions ;;
        let availableQuestions := snd r in
        match fst r with
        | Returned s => ret (Returned (Some s))
        | Thrown error =>
            if shouldFallback env
            then r' <- smartFallbackSelect ext sessionContext
                         availableQuestions ;;
                 ret (asResult (fst r'))
            else ret (Thrown error)
        end
    | None =>
        r <- smartFallbackSelect ext sessionContext availableQuestions ;;
        ret (asResult (fst r))
    end.

(** ** Selecting the questions of a session *)

(** What the calls of a batch receive from outside: the accesses to the
    store and the random draws are counted on across the calls, and the
    i-th call has the model's reply of its own. *)
Definition callExternals (ext : Externals) (invokes : nat -> outcome string)
    (i : nat) : Externals :=
  {| worldAt := worldAt ext; invoke := invokes i; random := random ext |}.

(** [{...sessionContext, answeredQuestionIds: usedIds, recentScores: scores}];
    [scores] is a copy of the session's scores that the loop never
    changes. *)
Definition withAnswered (ctx : SessionContext) (usedIds : list string)
  : SessionContext :=
  {| role := role ctx;
     difficulty := difficulty ctx;
     answeredQuestionIds := usedIds;
     totalQuestions := totalQuestions ctx;
     recentScores := recentScores ctx |}.

(** The loop of [selectQuestionsForSession]: [remaining] iterations from
    the index [i] on, with the arrays [questions] and [usedIds] as the
    iterations before left them. *)
Fixpoint selectLoop (env : Env) (ext : Externals)
    (invokes : nat -> outcome string) (ctx : SessionContext)
    (remaining i : nat) (questions : list QuestionDocument)
    (usedIds : list string) : M (outcome (list QuestionDocument)) :=
  match remaining with
  | O => ret (Returned questions)
  | S remaining' =>
      result <- selectNextQuestion env (callExternals ext invokes i)
                  (withAnswered ctx usedIds) ;;
      match result with
      | Thrown e => ret (Thrown e)
      | Returned None => ret (Returned questions)
      | Returned (Some result) =>
          selectLoop env ext invokes ctx remaining' (S i)
            (questions ++ [question result])%list
            (usedIds ++ [id (question result)])%list
      end
  end.

Definition selectQuestionsForSession (env : Env) (ext : Externals)
    (invokes : nat -> outcome string) (sessionContext : SessionContext)
    (count : nat) : M (outcome (list QuestionDocument)) :=
  selectLoop env ext invokes sessionContext count 0 []
    (answeredQuestionIds sessionContext).

End QuestionSelector.

(* ===================================================================== *)
(** * Inputs of the worked examples *)
(* ===================================================================== *)

Module Examples.
Import FeedbackService.

(** The end-to-end example of the specification. *)
Definition hoistedAnswer : option string :=
  Some "It's a function scoped variable that gets hoisted".

Definition hoistedQuestion : Question :=
  {| expected_keywords := Some "scope,hoisting,block"; ideal_answer := None |}.

(** A question without expected keywords: the keyword string is absent or
    empty. *)
Definition noKeywords (absent : bool) : Question :=
  {| expected_keywords := if absent then None else Some ""; ideal_answer := None |}.

Definition abQuestion : Question :=
  {| expected_keywords := Some "a,b"; ideal_answer := None |}.
End Examples.

Module SessionExamples.
Import FeedbackService.

(** The answers [A:80, A:60, B:30] of the aggregation example. *)
Definition abAnswers : list Answer :=
  [ {| a_score := Some 80; a_topic := Some "A" |};
    {| a_score := Some 60; a_topic := Some "A" |};
    {| a_score := Some 30; a_topic := Some "B" |} ].
End SessionExamples.

Module SessionSpec.
(** The readiness formula as the specification words it, in exact
    arithmetic: [min(100, round(0.6 * overallScore
    + 4 * min(answerCount, 10)))], rounding half up. *)
Definition readinessSpec (overallScore : Z) (answerCount : nat) : Z :=
  Z.min 100
    (Qfloor ((6 # 10) * inject_Z overallScore
             + 4 * inject_Z (Z.of_nat (Nat.min answerCount 10))
             + (1 # 2))%Q).

(** Every score that is present lies in [0, 100]. *)
Definition scoresInRange (answers : list FeedbackService.Answer) : Prop :=
  forall a s, In a answers -> FeedbackService.a_score a = Some s -> 0 <= s <= 100.

(** All pairs of an overall score in [0, 100] and a count in [0, 10] on
    which the computed readiness differs from the formula. *)
Definition readinessMismatches : list (Z * nat) :=
  filter (fun p => negb (FeedbackService.readinessScoreOf (fst p) (snd p)
                         =? readinessSpec (fst p) (snd p)))
         (list_prod (map Z.of_nat (seq 0 101)) (seq 0 11)).
End SessionSpec.

Module EvaluatorExamples.
Import Config AnswerEvaluator.

(** The model switched on, with the fallback left at its default and with
    the fallback switched off. *)
Definition aiOn : Env :=
  {| AI_ENABLED := Some "true"; AI_FALLBACK_TO_RULES := None |}.
Definition aiOnNoFallback : Env :=
  {| AI_ENABLED := Some "true"; AI_FALLBACK_TO_RULES := Some "false" |}.

(** A table row as the route hands it to the evaluator. *)
Definition varQuestion : Question :=
  {| metadata := None;
     expected_keywords := Some "scope,hoisting,block";
     ideal_answer := None;
     content := None;
     question_text := Some "Explain the difference between var, let, and const in JavaScript." |}.
End EvaluatorExamples.

Module EvaluatorSpec.
(** The blend as the specification words it, in exact arithmetic:
    [round(0.5 * modelScore + 0.5 * ruleScore)], rounding half up. *)
Definition blendSpec (modelScore ruleScore : Z) : Z :=
  Qfloor ((1 # 2) * inject_Z modelScore + (1 # 2) * inject_Z ruleScore
          + (1 # 2))%Q.
End EvaluatorSpec.

Module SelectorSpec.
Import QuestionStore.

(** The sum of the scores, in exact arithmetic. *)
Definition total (scores : list Z) : Z := fold_right Z.add 0 scores.

(** The mean of the recent scores in exact arithmetic, 50 for no score. *)
Definition meanSpec (scores : list Z) : Q :=
  match scores with
  | [] => 50%Q
  | _ => (inject_Z (total scores) / inject_Z (Z.of_nat (List.length scores)))%Q
  end.

(** The preference order the specification gives for a mean. *)
Definition preferenceSpec (mean : Q) : list string :=
  if Qle_bool 70 mean then ["hard"; "medium"; "easy"]
  else if Qle_bool 50 mean then ["medium"; "easy"; "hard"]
  else ["easy"; "medium"; "hard"].

(** Every recent score lies in [0, 100]. *)
Definition scoresInRange (scores : list Z) : Prop :=
  Forall (fun s => 0 <= s <= 100) scores.

(** The largest value [Math.random()] can return: the binary64 number just
    below 1. *)
Definition maxRandom : Q := (1 - (1 # 2) ^ 53)%Q.

Definition isRandom (r : Q) : Prop := (0 <= r <= maxRandom)%Q.

(** Ordered by a key. *)
Definition byKey {A} (key : A -> Z) (a b : A) : Prop := key a <= key b.

(** The elements of a list that carry the key [k], in their order. *)
Definition withKey {A} (key : A -> Z) (k : Z) (l : list A) : list A :=
  filter (fun x => key x =? k) l.

Definition hasDifficulty (d : string) (q : QuestionDocument) : Prop :=
  difficulty (metadata q) = d.

(** The candidates the heuristic selection sorts, for a given heap: the
    available questions of topics not yet covered, or all of them. *)
Definition candidatesOf (ext : QuestionSelector.Externals)
    (ctx : QuestionSelector.SessionContext)
    (avail : list QuestionDocument) (h : QuestionSelector.Heap)
  : list QuestionDocument :=
  QuestionSelector.uncovered
    (fst (QuestionSelector.onStore ext
            (fun w st =>
               getSessionTopicsCovered w st
                 (QuestionSelector.answeredQuestionIds ctx))
            h))
    avail.

(** The heap and the available questions at the point where
    [selectNextQuestion] has read the store and initialised the model. *)
Definition afterLookup (env : Config.Env) (ext : QuestionSelector.Externals)
    (ctx : QuestionSelector.SessionContext) (h : QuestionSelector.Heap)
  : list QuestionDocument * option Config.Model * QuestionSelector.Heap :=
  let (avail, h1) :=
    QuestionSelector.onStore ext
      (fun w st =>
         getFilteredQuestions w st (QuestionSelector.availableFilter ctx)) h in
  let (m, h2) := QuestionSelector.initModel env h1 in
  (avail, m, h2).

(** The heap after the store access [aiSelect] makes before it calls the
    model. *)
Definition afterTopics (ext : QuestionSelector.Externals)
    (ctx : QuestionSelector.SessionContext) (h : QuestionSelector.Heap)
  : QuestionSelector.Heap :=
  snd (QuestionSelector.onStore ext
         (fun w st =>
            getSessionTopicsCovered w st
              (QuestionSelector.answeredQuestionIds ctx))
         h).
End SelectorSpec.

Module SelectorExamples.
Import Config QuestionStore QuestionSelector.

Definition row (i topic difficulty : string) : Row :=
  {| r_id := i;
     r_category := "technical";
     r_role := "frontend";
     r_topic := topic;
     r_difficulty := difficulty;
     r_question_text := "What is the virtual DOM and why does React use it?";
     r_expected_keywords := Some "representation,memory,diff";
     r_ideal_answer := None;
     r_time_limit := Some 180 |}.

Definition table : list Row :=
  [ row "q-easy" "React" "easy";
    row "q-hard" "JavaScript Fundamentals" "hard";
    row "q-medium" "React" "medium" ].

Definition world : World := {| now := 1700000000000; questions := table |}.

Definition emptyHeap : Heap :=
  {| store := {| questionsCache := None; lastCacheTime := None |};
     reads := 0;
     draws := 0;
     model := None |}.

Definition context (difficulty : option string) (answered : list string)
    (scores : list Z) : SessionContext :=
  {| role := Some "frontend";
     QuestionSelector.difficulty := difficulty;
     answeredQuestionIds := answered;
     totalQuestions := 5;
     recentScores := scores |}.

(** The outside of a call: the table above at every access, the model's
    reply (or its failure), and the same draw [r] at every call of
    [Math.random()]. *)
Definition externals (reply : outcome string) (r : Q) : Externals :=
  {| worldAt := fun _ => world; invoke := reply; random := fun _ => r |}.

Definition aiOff : Env :=
  {| AI_ENABLED := None; AI_FALLBACK_TO_RULES := None |}.
End SelectorExamples.

Module Binary64Check.
Import JSNum FeedbackService.

(** A natural number as a binary64 value of the Standard Library. *)
Definition b64_of_nat (n : nat) : spec_float :=
  match n with
  | O => S754_zero false
  | S _ => S754_finite false (Pos.of_nat n) 0
  end.

(** The evaluator's arithmetic carried out with the Standard Library's
    binary64 operations. *)
Definition b64KeywordScore (m n : nat) : spec_float :=
  b64mul (b64div (b64_of_nat m) (b64_of_nat n)) (b64 100).

Definition b64Overall (kw : spec_float) (len str : nat) : spec_float :=
  b64add (b64add (b64mul kw (b64div (b64 5) (b64 10)))
                 (b64mul (b64_of_nat len) (b64div (b64 3) (b64 10))))
         (b64mul (b64_of_nat str) (b64div (b64 2) (b64 10))).

(** The ratios of the grid: [n] expected keywords up to [bound], [m <= n]
    of them matched. *)
Definition ratios (bound : nat) : list (nat * nat) :=
  flat_map (fun n => map (fun m => (m, n)) (seq 0 (S n))) (seq 1 bound).

(** The sub-scores of the grid: every length score with every structure
    score. *)
Definition subScores : list (nat * nat) :=
  list_prod [0; 40; 60; 70; 100]%nat [50; 100]%nat.

Definition agreesKeyword (p : nat * nat) : bool :=
  Qeq_bool (SF2Q (b64KeywordScore (fst p) (snd p)))
           (keywordScoreOf (fst p) (snd p)).

Definition agreesOverall (p : nat * nat * (nat * nat)) : bool :=
  let '(m, n, (len, str)) := p in
  Math_round (SF2Q (b64Overall (b64KeywordScore m n) len str))
  =? overallScoreOf (keywordScoreOf m n) (Z.of_nat len) (Z.of_nat str).
End Binary64Check.

Module QuestionStoreSpec.
Import JSString QuestionStore.

(** What a filter asks of a question, read off [getFilteredQuestions]: a
    filter value that is absent or the empty string asks nothing. *)
Definition passes (f : Filter) (q : QuestionDocument) : Prop :=
  ~ In (id q) (f_excludeIds f) /\
  (forall r, f_role f = Some r -> r <> "" ->
             role (metadata q) = r \/ role (metadata q) = "any") /\
  (forall d, f_difficulty f = Some d -> d <> "" ->
             difficulty (metadata q) = d) /\
  (forall c, f_category f = Some c -> c <> "" ->
             category (metadata q) = c).

(** The questions of a topic, in their order. *)
Definition ofTopic (t : string) (l : list QuestionDocument)
  : list QuestionDocument :=
  filter (fun q => String.eqb (topic (metadata q)) t) l.

(** The array an object grouping [l] by topic owns under the name [t]:
    the questions of the topic, and no property when there is none. *)
Definition ownArray (t : string) (l : list QuestionDocument)
  : option (list QuestionDocument) :=
  match ofTopic t l with
  | [] => None
  | questions => Some questions
  end.

(** One step of the loop of [getSessionTopicsCovered]. *)
Definition coveredStep (all : list QuestionDocument) (topics : list string)
    (i : string) : list string :=
  match find (fun q => String.eqb (id q) i) all with
  | Some q => set_add (topic (metadata q)) topics
  | None => topics
  end.

(** The first cached question with the given id. *)
Definition firstWithId (i : string) (l : list QuestionDocument)
  : option QuestionDocument :=
  find (fun q => String.eqb (id q) i) l.
End QuestionStoreSpec.

Module StoreExamples.
Import QuestionStore.
(** The table of the selector examples, loaded at its own time stamp. *)
Definition loaded : Store := snd (reload SelectorExamples.world).

(** Five minutes later the table holds one question only. *)
Definition later (elapsed : Z) : World :=
  {| now := now SelectorExamples.world + elapsed;
     questions := [SelectorExamples.row "q-new" "APIs" "easy"] |}.
End StoreExamples.

Module QuestionShapes.
Import JSString QuestionStore.

(** Every character of the string satisfies the test. *)
Fixpoint every (p : ascii -> bool) (s : string) : bool :=
  match s with
  | EmptyString => true
  | String c s' => p c && every p s'
  end.

Definition no_comma (s : string) : bool :=
  every (fun c => negb (Ascii.eqb c ",")) s.

Definition no_digit (s : string) : bool :=
  every (fun c => negb (is_digit c)) s.

Definition all_digits (s : string) : bool := every is_digit s.

Definition starts_with_digit (s : string) : bool :=
  match s with
  | EmptyString => false
  | String c _ => is_digit c
  end.

(** The two shapes of the [question] argument of
    [AnswerEvaluator.evaluateAnswer]: a document of the store, and a row
    of the [questions] table. *)
Definition docQuestion (d : QuestionDocument) : AnswerEvaluator.Question :=
  {| AnswerEvaluator.metadata := Some (metadata d);
     AnswerEvaluator.expected_keywords := None;
     AnswerEvaluator.ideal_answer := None;
     AnswerEvaluator.content := Some (content d);
     AnswerEvaluator.question_text := None |}.

Definition rowQuestion (r : Row) : AnswerEvaluator.Question :=
  {| AnswerEvaluator.metadata := None;
     AnswerEvaluator.expected_keywords := r_expected_keywords r;
     AnswerEvaluator.ideal_answer := r_ideal_answer r;
     AnswerEvaluator.content := None;
     AnswerEvaluator.question_text := Some (r_question_text r) |}.

(** The same row as [FeedbackService.evaluateAnswer] reads it. *)
Definition tableQuestion (r : Row) : FeedbackService.Question :=
  {| FeedbackService.expected_keywords := r_expected_keywords r;
     FeedbackService.ideal_answer := r_ideal_answer r |}.
End QuestionShapes.


Module FeedbackSpec.
Import JSNum JSString FeedbackService.

(** A character that is not white space. *)
Definition is_word_char (c : ascii) : bool := negb (is_space c).

(** The answers filed under a topic: those whose topic is truthy and
    equal to it. *)
Definition answersOfTopic (t : string) (answers : list Answer) : list Answer :=
  filter (fun a => truthy (a_topic a) && String.eqb (or_empty (a_topic a)) t)
         answers.

(** The mean over a list of answers as the code computes it for one
    topic, a [null] score counting as 0. *)
Definition meanOf (l : list Answer) : Z :=
  Math_round (fdiv (sum_scores l) (of_nat (List.length l))).


(** The answer with a [null] score replaced by 0. *)
Definition zeroed (a : Answer) : Answer :=
  {| a_score := Some (match a_score a with Some s => s | None => 0 end);
     a_topic := a_topic a |}.
End FeedbackSpec.

Module FeedbackExamples.
Import FeedbackService.
(** Thirty words in two sentences that name both keywords. *)
Definition fullAnswer : option string :=
  Some "A closure is a function that keeps access to the scope it was created in. It lets a function remember variables after the outer function has returned to its caller.".
Definition closureQuestion : Question :=
  {| expected_keywords := Some "closure, scope"; ideal_answer := None |}.
(** One answered topic and one skipped answer of the same topic. *)
Definition skipped : Answer := {| a_score := None; a_topic := Some "A" |}.
Definition answered : Answer := {| a_score := Some 80; a_topic := Some "A" |}.
End FeedbackExamples.

Module SelectionSpec.
Import JSString QuestionStore QuestionSelector.

(** The two lists [selectNextQuestion] gets from the store: the questions
    of the session's role and difficulty, and those of its role alone,
    asked for only when the first list is empty. *)
Definition firstLookup (ext : Externals) (ctx : SessionContext) (h : Heap)
  : list QuestionDocument * Store :=
  getFilteredQuestions (worldAt ext (reads h)) (store h) (availableFilter ctx).

Definition secondLookup (ext : Externals) (ctx : SessionContext) (h : Heap)
  : list QuestionDocument * Store :=
  getFilteredQuestions (worldAt ext (S (reads h))) (snd (firstLookup ext ctx h))
    (relaxedFilter ctx).

(** The topics the heuristic selection finds covered. *)
Definition coveredTopics (ext : Externals) (ctx : SessionContext) (h : Heap)
  : list string :=
  fst (getSessionTopicsCovered (worldAt ext (reads h)) (store h)
         (answeredQuestionIds ctx)).

(** The question is of the session's role, or of the role [any]. *)
Definition meetsRole (ctx : SessionContext) (q : QuestionDocument) : Prop :=
  forall r, QuestionSelector.role ctx = Some r -> r <> "" ->
            QuestionStore.role (metadata q) = r
            \/ QuestionStore.role (metadata q) = "any".
End SelectionSpec.

Module BatchExamples.
Import Config QuestionStore QuestionSelector.
(** Every call of the batch gets a reply that names no question. *)
Definition noReply (i : nat) : outcome string := Returned "I cannot decide".
End BatchExamples.

Module InterviewRoutes.
Import JSNum JSString Config QuestionStore QuestionSelector QuestionShapes.

(** ** POST /:sessionId/answer: the evaluation step *)

(** The fields [evaluationMethod] and [evaluation] of the response. *)
Record AnswerResponse := {
  evaluationMethod : string;
  score : Z;
  feedback : string;
  strengths : list string;
  weaknesses : list string;
  suggestions : list string;
  keywordScore : Z;
  matchedKeywords : list string;
  missedKeywords : list string
}.

(** The response for an evaluation of the rule-based service. *)
Definition ruleResponse (method : string) (e : FeedbackService.Evaluation)
  : AnswerResponse :=
  {| evaluationMethod := method;
     score := FeedbackService.score e;
     feedback := FeedbackService.feedback e;
     strengths := FeedbackService.strengths e;
     weaknesses := FeedbackService.weaknesses e;
     suggestions := FeedbackService.suggestions e;
     keywordScore := FeedbackService.keywordScore e;
     matchedKeywords := FeedbackService.matchedKeywords e;
     missedKeywords := firstn 5 (FeedbackService.missedKeywords e) |}.

(** The response for an evaluation of the evaluator, with
    [evaluation.evaluationMethod || 'ai']. *)
Definition evaluatorResponse (e : AnswerEvaluator.Evaluation)
  : AnswerResponse :=
  {| evaluationMethod :=
       if is_empty (AnswerEvaluator.evaluationMethod e) then "ai"
       else AnswerEvaluator.evaluationMethod e;
     score := AnswerEvaluator.score e;
     feedback := AnswerEvaluator.feedback e;
     strengths := AnswerEvaluator.strengths e;
     weaknesses := AnswerEvaluator.weaknesses e;
     suggestions := AnswerEvaluator.suggestions e;
     keywordScore := AnswerEvaluator.keywordScore e;
     matchedKeywords := AnswerEvaluator.matchedKeywords e;
     missedKeywords := firstn 5 (AnswerEvaluator.missedKeywords e) |}.

(** [question] is the row of the table the route has read; [st] is the
    evaluator's field [this.model] before the request, and the second
    component is the field after it. *)
Definition evaluateSubmitted (env : Env) (st : AnswerEvaluator.State)
    (answerText : string) (question : Row) (invoke : outcome string)
  : AnswerResponse * AnswerEvaluator.State :=
  if isAIEnabled env then
    let (r, st') :=
      AnswerEvaluator.evaluateAnswer env st (Some answerText)
        (rowQuestion question) invoke in
    match r with
    | Returned evaluation => (evaluatorResponse evaluation, st')
    | Thrown _ =>
        (ruleResponse "fallback"
           (FeedbackService.evaluateAnswer (Some answerText)
              (tableQuestion question)),
         st')
    end
  else
    (ruleResponse "rules"
       (FeedbackService.evaluateAnswer (Some answerText)
          (tableQuestion question)),
     st).

(** ** GET /:sessionId/next-question: the selection step *)

(** The columns of the session the step reads. *)
Record Session := {
  s_role : string;
  s_difficulty : string;
  s_total_questions : Z
}.

(** The selected question is a row of the table, or the store's document
    when the selector's question is not among the rows the route
    queried. *)
Inductive Selected :=
| FromTable (q : Row)
| FromStore (q : QuestionDocument).

(** The [question] object of the response; [None] is [undefined], and a
    time limit [Some None] is [null]. *)
Record QuestionView := {
  v_id : string;
  v_category : option string;
  v_topic : option string;
  v_difficulty : option string;
  v_text : option string;
  v_timeLimit : option (option Z)
}.

Definition view (selectedQuestion : Selected) : QuestionView :=
  match selectedQuestion with
  | FromTable q =>
      {| v_id := r_id q;
         v_category := Some (r_category q);
         v_topic := Some (r_topic q);
         v_difficulty := Some (r_difficulty q);
         v_text := Some (r_question_text q);
         v_timeLimit := Some (r_time_limit q) |}
  | FromStore q =>
      {| v_id := id q;
         v_category := None;
         v_topic := None;
         v_difficulty := None;
         v_text := None;
         v_timeLimit := None |}
  end.

Definition targetDifficulty (difficulty : string) (avgScore : Q) : string :=
  if geb avgScore 80
  then (if String.eqb difficulty "easy" then "medium" else "hard")
  else if ltb avgScore 50
       then (if String.eqb difficulty "hard" then "medium" else "easy")
       else difficulty.

(** The pool of the weighted selection; the mean of the session's scores
    is computed by the expression the selector uses. *)
Definition weightedPool (difficulty : string) (scores : list Z)
    (availableQuestions : list Row) : list Row :=
  let targetDifficulty := targetDifficulty difficulty (avgScore scores) in
  let targetQuestions :=
    filter (fun q => String.eqb (r_difficulty q) targetDifficulty)
           availableQuestions in
  if (0 <? List.length targetQuestions)%nat then targetQuestions
  else availableQuestions.

Definition sessionContext (session : Session)
    (answeredQuestions : list string) (scores : list Z) : SessionContext :=
  {| role := Some (s_role session);
     difficulty := Some (s_difficulty session);
     answeredQuestionIds := answeredQuestions;
     totalQuestions := s_total_questions session;
     recentScores := scores |}.

(** [availableQuestions.find(q => q.id === result.question.id)
      || result.question] *)
Definition matching (availableQuestions : list Row) (q : QuestionDocument)
  : Selected :=
  match find (fun r => String.eqb (r_id r) (id q)) availableQuestions with
  | Some r => FromTable r
  | None => FromStore q
  end.

(** The step for a non-empty list [availableQuestions] of rows, the
    result of the route's query; an error of the selector is caught and
    logged.  The result is the selected question and the
    [selectionMethod] of the response. *)
Definition nextQuestion (env : Env) (ext : Externals) (session : Session)
    (answeredQuestions : list string) (scores : list Z)
    (availableQuestions : list Row) : M (outcome (Selected * string)) :=
  selectedQuestion <-
    (if isAIEnabled env then
       result <- selectNextQuestion env ext
                   (sessionContext session answeredQuestions scores) ;;
       match result with
       | Returned (Some result) =>
           ret (Some (matching availableQuestions (question result)))
       | Returned None => ret None
       | Thrown _ => ret None
       end
     else ret None) ;;
  match selectedQuestion with
  | Some selectedQuestion => ret (Returned (selectedQuestion, "ai"))
  | None =>
      r <- Math_random ext ;;
      match pick r (weightedPool (s_difficulty session) scores
                      availableQuestions) with
      | Some q => ret (Returned (FromTable q, "random"))
      | None =>
          ret (Thrown "Cannot read properties of undefined (reading 'id')")
      end
  end.
End InterviewRoutes.

Module RouteSpec.
Import JSNum JSString Config QuestionStore.

(** The score read from the model's reply, if the call returned and a
    score could be read. *)
Definition replyScore (invoke : outcome string) : option Z :=
  match invoke with
  | Returned response => AnswerEvaluator.parseScore response
  | Thrown _ => None
  end.

(** The target difficulty for the exact mean of the scores. *)
Definition targetSpec (difficulty : string) (mean : Q) : string :=
  if Qle_bool 80 mean
  then (if String.eqb difficulty "easy" then "medium" else "hard")
  else if Qle_bool 50 mean then difficulty
       else (if String.eqb difficulty "hard" then "medium" else "easy").
End RouteSpec.

Module RouteExamples.
Import Config QuestionStore QuestionSelector InterviewRoutes.

(** The store holds a question of the role [any]; the route's query, which
    asks for the session's role alone, does not return it. *)
Definition anyRow : Row :=
  {| r_id := "q-any";
     r_category := "behavioral";
     r_role := "any";
     r_topic := "Teamwork";
     r_difficulty := "medium";
     r_question_text := "Tell me about a conflict in your team.";
     r_expected_keywords := Some "conflict,team";
     r_ideal_answer := None;
     r_time_limit := Some 180 |}.

Definition anyWorld : World :=
  {| now := 1700000000000;
     questions := anyRow :: SelectorExamples.table |}.

Definition anyExternals : Externals :=
  {| worldAt := fun _ => anyWorld;
     invoke := Returned "q-any";
     random := fun _ => 1 # 2 |}.

Definition mediumSession : Session :=
  {| s_role := "frontend"; s_difficulty := "medium"; s_total_questions := 5 |}.

(** The rows the route's query returns for a new frontend session of
    difficulty medium. *)
Definition queried : list Row :=
  [SelectorExamples.row "q-medium" "React" "medium"].
End RouteExamples.

Module EdgeSpec.
Import QuestionStore.
(** The difficulties the selector's preference orders name. *)
Definition knownDifficulties : list string := ["easy"; "medium"; "hard"].
End EdgeSpec.

Module EdgeExamples.
Import QuestionStore.
(** A question whose difficulty is spelt with a capital. *)
Definition capitalRow : Row := SelectorExamples.row "q-cap" "CSS" "Medium".
End EdgeExamples.

Module UnicodeText.
Import JSNum JSString.

(** [String.prototype.toLowerCase] maps code points by the Unicode
    Character Database, and a capital sigma by what stands around it (the
    condition Final_Sigma of SpecialCasing.txt), so that beyond ASCII the
    lower case of a text is not made of the lower cases of its parts.
    Here a text is a list of code points.  The mapping is given for the
    code points of ASCII and for the Greek letters U+0391 to U+03C9;
    [toLowerCase] is [None] for a text with any other code point. *)

(** Every character of the string is an ASCII character: on such a
    string the operations of [JSString] are those of JavaScript. *)
Fixpoint is_ascii (s : string) : bool :=
  match s with
  | EmptyString => true
  | String c s' => (N_of_ascii c <? 128)%N && is_ascii s'
  end.

(** The code points of an ASCII string. *)
Fixpoint codePoints (s : string) : list N :=
  match s with
  | EmptyString => []
  | String c s' => N_of_ascii c :: codePoints s'
  end.

Definition asciiCapital (c : N) : bool := ((0x41 <=? c) && (c <=? 0x5A))%N.
Definition asciiSmall (c : N) : bool := ((0x61 <=? c) && (c <=? 0x7A))%N.

(** U+03A2 is not assigned. *)
Definition greekCapital (c : N) : bool :=
  ((0x391 <=? c) && (c <=? 0x3A9) && negb (c =? 0x3A2))%N.
Definition greekSmall (c : N) : bool := ((0x3B1 <=? c) && (c <=? 0x3C9))%N.

Definition covered (c : N) : bool :=
  (c <? 0x80)%N || greekCapital c || greekSmall c.

(** The properties Cased and Case_Ignorable on the code points covered:
    the letters are cased, and the case-ignorable characters are the
    apostrophe, the full stop, the colon, the circumflex and the grave
    accent. *)
Definition cased (c : N) : bool :=
  asciiCapital c || asciiSmall c || greekCapital c || greekSmall c.

Definition caseIgnorable (c : N) : bool :=
  ((c =? 0x27) || (c =? 0x2E) || (c =? 0x3A) || (c =? 0x5E) || (c =? 0x60))%N.

(** The text starts with case-ignorable characters, if any, and then a
    cased letter. *)
Fixpoint casedNext (l : list N) : bool :=
  match l with
  | [] => false
  | c :: l' => if caseIgnorable c then casedNext l' else cased c
  end.

(** Final_Sigma: the sigma is preceded by a cased letter and then
    case-ignorable characters, and not followed by case-ignorable
    characters and then a cased letter.  [before] holds the code points
    that precede the sigma, the nearest first. *)
Definition finalSigma (before after : list N) : bool :=
  casedNext before && negb (casedNext after).

(** The mapping of a code point that does not depend on its context. *)
Definition lowerSimple (c : N) : N :=
  if asciiCapital c || greekCapital c then (c + 0x20)%N else c.

Fixpoint lowerFrom (before l : list N) : list N :=
  match l with
  | [] => []
  | c :: after =>
      (if (c =? 0x3A3)%N
       then (if finalSigma before after then 0x3C2%N else 0x3C3%N)
       else lowerSimple c)
      :: lowerFrom (c :: before) after
  end.

Definition toLowerCase (l : list N) : option (list N) :=
  if forallb covered l then Some (lowerFrom [] l) else None.

(** The text in UTF-8.  A comma and a white-space character of ASCII are
    bytes that occur in no other character's encoding, and an encoded text
    occurs in another at character boundaries only: [split(',')], [trim]
    and [includes] may be computed on the bytes. *)
Definition utf8_of (c : N) : string :=
  if (c <? 0x80)%N then String (ascii_of_N c) ""
  else if (c <? 0x800)%N
  then String (ascii_of_N (0xC0 + c / 0x40))
         (String (ascii_of_N (0x80 + c mod 0x40)) "")
  else if (c <? 0x10000)%N
  then String (ascii_of_N (0xE0 + c / 0x1000))
         (String (ascii_of_N (0x80 + (c / 0x40) mod 0x40))
            (String (ascii_of_N (0x80 + c mod 0x40)) ""))
  else String (ascii_of_N (0xF0 + c / 0x40000))
         (String (ascii_of_N (0x80 + (c / 0x1000) mod 0x40))
            (String (ascii_of_N (0x80 + (c / 0x40) mod 0x40))
               (String (ascii_of_N (0x80 + c mod 0x40)) ""))).

Fixpoint utf8 (l : list N) : string :=
  match l with
  | [] => EmptyString
  | c :: l' => utf8_of c ++ utf8 l'
  end.

(** The [keywordScore] of [FeedbackService.evaluateAnswer] (lines 11 to
    20 and 89 of the source) for an answer and a keyword string given as
    code points. *)
Definition keywordScoreOfText (answer keywords : list N) : option Z :=
  match toLowerCase answer, toLowerCase keywords with
  | Some answer', Some keywords' =>
      let answerText := trim (utf8 answer') in
      let expectedKeywords := map trim (split_char "," (utf8 keywords')) in
      let matchedKeywords :=
        FeedbackService.matched answerText expectedKeywords in
      Some (Math_round
              (FeedbackService.keywordScoreOf
                 (List.length matchedKeywords)
                 (List.length expectedKeywords)))
  | _, _ => None
  end.
End UnicodeText.

Module KeywordExamples.
Import FeedbackService.

End KeywordExamples.

(* ===================================================================== *)
(** * Facts about binary64 rounding *)
(* ===================================================================== *)

Module JSNumFacts.
Import JSNum.
Local Open Scope Q_scope.


Lemma pow2_pos (e : Z) : 0 < Qpower 2 e.
Proof. apply Qpower_0_lt. reflexivity. Qed.

Lemma pow2_plus (a b : Z) : Qpower 2 (a + b) == Qpower 2 a * Qpower 2 b.
Proof. apply Qpower_plus. discriminate. Qed.

Lemma pow2_succ (a : Z) : Qpower 2 (a + 1) == 2 * Qpower 2 a.
Proof. rewrite pow2_plus. simpl. ring. Qed.

Lemma pow2_le (a b : Z) : (a <= b)%Z -> Qpower 2 a <= Qpower 2 b.
Proof. intros H. apply Qpower_le_compat_l; [exact H | discriminate]. Qed.

Lemma pow2_lt (a b : Z) : (a < b)%Z -> Qpower 2 a < Qpower 2 b.
Proof. intros H. apply Qpower_lt_compat_l; [exact H | reflexivity]. Qed.

Lemma pow2_inv (a : Z) : Qpower 2 a * Qpower 2 (- a) == 1.
Proof. rewrite <- pow2_plus. replace (a + - a)%Z with 0%Z by ring. reflexivity. Qed.

Lemma pow2_Z (n : Z) : (0 <= n)%Z -> inject_Z (2 ^ n) == Qpower 2 n.
Proof. intros H. apply (Zpower_Qpower 2 n H). Qed.

Lemma inject_Z_pos (n : Z) : (0 < n)%Z -> 0 < inject_Z n.
Proof. intros H. unfold Qlt. simpl. lia. Qed.

Lemma inject_Z_neg (n : Z) : (n < 0)%Z -> inject_Z n < 0.
Proof. intros H. unfold Qlt. simpl. lia. Qed.

Lemma inject_Z_nonneg (n : Z) : (0 <= n)%Z -> 0 <= inject_Z n.
Proof. intros H. unfold Qle. simpl. lia. Qed.

Lemma Q_as_fraction (x : Q) : x * inject_Z (Zpos (Qden x)) == inject_Z (Qnum x).
Proof.
  destruct x as [p q]. unfold Qeq, Qmult, inject_Z. simpl.
  rewrite Pos.mul_1_r. ring.
Qed.

Lemma ilog2_spec (x : Q) :
  0 < x -> Qpower 2 (ilog2 x) <= x /\ x < Qpower 2 (ilog2 x + 1).
Proof.
  intros Hx.
  assert (Hp : (0 < Qnum x)%Z).
  { destruct x as [p q]. unfold Qlt in Hx. simpl in *. lia. }
  pose proof (Z.log2_spec (Qnum x) Hp) as [Ha1 Ha2].
  pose proof (Z.log2_spec (Zpos (Qden x)) (Pos2Z.is_pos _)) as [Hb1 Hb2].
  pose proof (Z.log2_nonneg (Qnum x)) as Ha0.
  pose proof (Z.log2_nonneg (Zpos (Qden x))) as Hb0.
  set (a := Z.log2 (Qnum x)) in *. set (b := Z.log2 (Zpos (Qden x))) in *.
  pose proof (Q_as_fraction x) as Hfrac.
  assert (HA1 : Qpower 2 a <= inject_Z (Qnum x)).
  { rewrite <- pow2_Z by lia. rewrite <- Zle_Qle. exact Ha1. }
  assert (HA2 : inject_Z (Qnum x) < Qpower 2 (a + 1)).
  { rewrite <- pow2_Z by lia. rewrite <- Zlt_Qlt. unfold Z.succ in Ha2. exact Ha2. }
  assert (HB1 : Qpower 2 b <= inject_Z (Zpos (Qden x))).
  { rewrite <- pow2_Z by lia. rewrite <- Zle_Qle. exact Hb1. }
  assert (HB2 : inject_Z (Zpos (Qden x)) < Qpower 2 (b + 1)).
  { rewrite <- pow2_Z by lia. rewrite <- Zlt_Qlt. unfold Z.succ in Hb2. exact Hb2. }
  unfold ilog2. fold a b.
  destruct (Qle_bool (Qpower 2 (a - b)) x) eqn:E.
  - apply Qle_bool_iff in E. split; [exact E|].
    assert (Hd : Qpower 2 (a + 1) == Qpower 2 (a - b + 1) * Qpower 2 b).
    { rewrite <- pow2_plus. replace (a - b + 1 + b)%Z with (a + 1)%Z by ring. reflexivity. }
    pose proof (pow2_pos b) as Pb.
    set (A := Qpower 2 (a + 1)) in *. set (B := Qpower 2 b) in *.
    set (D := Qpower 2 (a - b + 1)) in *.
    set (qq := inject_Z (Zpos (Qden x))) in *. set (pp := inject_Z (Qnum x)) in *.
    nra.
  - assert (E' : x < Qpower 2 (a - b)).
    { apply Qnot_le_lt. intros H. apply Qle_bool_iff in H. congruence. }
    replace (a - b - 1 + 1)%Z with (a - b)%Z by ring.
    split; [|exact E'].
    assert (Hd : Qpower 2 a == Qpower 2 (a - b - 1) * Qpower 2 (b + 1)).
    { rewrite <- pow2_plus. replace (a - b - 1 + (b + 1))%Z with a by ring. reflexivity. }
    pose proof (pow2_pos (b + 1)) as Pb.
    set (A := Qpower 2 a) in *. set (B := Qpower 2 (b + 1)) in *.
    set (D := Qpower 2 (a - b - 1)) in *.
    set (qq := inject_Z (Zpos (Qden x))) in *. set (pp := inject_Z (Qnum x)) in *.
    nra.
Qed.

Lemma ilog2_unique (x : Q) (e : Z) :
  Qpower 2 e <= x -> x < Qpower 2 (e + 1) -> ilog2 x = e.
Proof.
  intros H1 H2.
  assert (Hx : 0 < x) by (pose proof (pow2_pos e); lra).
  destruct (ilog2_spec x Hx) as [G1 G2].
  destruct (Z.lt_trichotomy (ilog2 x) e) as [L | [L | L]]; [exfalso | exact L | exfalso].
  - pose proof (pow2_le (ilog2 x + 1) e ltac:(lia)). lra.
  - pose proof (pow2_le (e + 1) (ilog2 x) ltac:(lia)). lra.
Qed.

Lemma ilog2_le (x y : Q) : 0 < x -> x <= y -> (ilog2 x <= ilog2 y)%Z.
Proof.
  intros Hx Hxy.
  destruct (ilog2_spec x Hx) as [G1 _].
  destruct (ilog2_spec y ltac:(lra)) as [_ G2].
  destruct (Z_le_gt_dec (ilog2 x) (ilog2 y)) as [L | L]; [exact L | exfalso].
  pose proof (pow2_le (ilog2 y + 1) (ilog2 x) ltac:(lia)). lra.
Qed.

(** ** Nearest-even rounding to an integer *)

Lemma rne_cases (x : Q) :
  let f := Qfloor x in
  (rne x = f /\ x - inject_Z f <= 1 # 2) \/
  (rne x = (f + 1)%Z /\ 1 # 2 <= x - inject_Z f).
Proof.
  unfold rne. simpl.
  destruct (Qcompare_spec (x - inject_Z (Qfloor x)) (1 # 2)) as [E | E | E].
  - destruct (Z.even (Qfloor x)); [left | right]; split; auto; lra.
  - left. split; auto. lra.
  - right. split; auto. lra.
Qed.

Lemma floor_bounds (x : Q) :
  inject_Z (Qfloor x) <= x /\ x < inject_Z (Qfloor x) + 1.
Proof.
  split; [apply Qfloor_le |].
  pose proof (Qlt_floor x) as H. rewrite inject_Z_plus in H. exact H.
Qed.

Lemma rne_mono (x y : Q) : x <= y -> (rne x <= rne y)%Z.
Proof.
  intros Hxy.
  pose proof (Qfloor_resp_le x y Hxy) as Hf.
  pose proof (floor_bounds x) as [Hx1 Hx2].
  pose proof (floor_bounds y) as [Hy1 Hy2].
  destruct (Z.eq_dec (Qfloor x) (Qfloor y)) as [E | NE].
  - unfold rne. rewrite <- E.
    destruct (Qcompare_spec (x - inject_Z (Qfloor x)) (1 # 2));
      destruct (Qcompare_spec (y - inject_Z (Qfloor x)) (1 # 2));
      destruct (Z.even (Qfloor x)); try lia; exfalso; lra.
  - destruct (rne_cases x) as [[-> _] | [-> _]];
      destruct (rne_cases y) as [[-> _] | [-> _]]; lia.
Qed.

Lemma rne_Z (n : Z) : rne (inject_Z n) = n.
Proof.
  unfold rne. rewrite Qfloor_Z.
  destruct (Qcompare_spec (inject_Z n - inject_Z n) (1 # 2)) as [E | E | E];
    [exfalso; lra | reflexivity | exfalso; lra].
Qed.

Lemma rne_eq (x : Q) (n : Z) : x == inject_Z n -> rne x = n.
Proof.
  intros H. apply Z.le_antisymm.
  - rewrite <- (rne_Z n). apply rne_mono. lra.
  - rewrite <- (rne_Z n) at 1. apply rne_mono. lra.
Qed.

(** ** Rounding of a positive number *)

Lemma fl_pos_eq (x : Q) :
  fl_pos x ==
  inject_Z (rne (x * Qpower 2 (52 - ilog2 x))) * Qpower 2 (ilog2 x - 52).
Proof.
  unfold fl_pos. replace (- (ilog2 x - 52))%Z with (52 - ilog2 x)%Z by ring.
  reflexivity.
Qed.

Lemma scaled_bounds (x : Q) (e : Z) :
  Qpower 2 e <= x -> x < Qpower 2 (e + 1) ->
  inject_Z (2 ^ 52) <= x * Qpower 2 (52 - e) /\
  x * Qpower 2 (52 - e) < inject_Z (2 ^ 53).
Proof.
  intros H1 H2.
  rewrite !pow2_Z by lia.
  pose proof (pow2_pos (52 - e)) as P.
  assert (E1 : Qpower 2 52 == Qpower 2 e * Qpower 2 (52 - e)).
  { rewrite <- pow2_plus. replace (e + (52 - e))%Z with 52%Z by ring. reflexivity. }
  assert (E2 : Qpower 2 53 == Qpower 2 (e + 1) * Qpower 2 (52 - e)).
  { rewrite <- pow2_plus. replace (e + 1 + (52 - e))%Z with 53%Z by ring. reflexivity. }
  rewrite E1, E2.
  set (A := Qpower 2 e) in *. set (B := Qpower 2 (e + 1)) in *.
  set (C := Qpower 2 (52 - e)) in *.
  split; nra.
Qed.

Lemma fl_pos_binade (x : Q) :
  0 < x ->
  Qpower 2 (ilog2 x) <= fl_pos x /\ fl_pos x <= Qpower 2 (ilog2 x + 1).
Proof.
  intros Hx. destruct (ilog2_spec x Hx) as [H1 H2].
  destruct (scaled_bounds x _ H1 H2) as [S1 S2].
  pose proof (rne_mono _ _ S1) as R1. rewrite rne_Z in R1.
  pose proof (rne_mono _ _ (Qlt_le_weak _ _ S2)) as R2. rewrite rne_Z in R2.
  rewrite fl_pos_eq.
  set (e := ilog2 x) in *.
  set (m := rne (x * Qpower 2 (52 - e))) in *.
  rewrite Zle_Qle in R1, R2. rewrite pow2_Z in R1, R2 by lia.
  pose proof (pow2_pos (e - 52)) as P.
  assert (E1 : Qpower 2 e == Qpower 2 52 * Qpower 2 (e - 52)).
  { rewrite <- pow2_plus. replace (52 + (e - 52))%Z with e by ring. reflexivity. }
  assert (E2 : Qpower 2 (e + 1) == Qpower 2 53 * Qpower 2 (e - 52)).
  { rewrite <- pow2_plus. replace (53 + (e - 52))%Z with (e + 1)%Z by ring. reflexivity. }
  rewrite E1, E2.
  set (A := Qpower 2 52) in *. set (B := Qpower 2 53) in *.
  set (C := Qpower 2 (e - 52)) in *. set (M := inject_Z m) in *.
  split; nra.
Qed.

Lemma fl_pos_positive (x : Q) : 0 < x -> 0 < fl_pos x.
Proof.
  intros Hx. destruct (fl_pos_binade x Hx) as [H _].
  pose proof (pow2_pos (ilog2 x)). lra.
Qed.

Lemma fl_pos_mono (x y : Q) : 0 < x -> x <= y -> fl_pos x <= fl_pos y.
Proof.
  intros Hx Hxy.
  assert (Hy : 0 < y) by lra.
  pose proof (ilog2_le x y Hx Hxy) as Hle.
  destruct (Z.eq_dec (ilog2 x) (ilog2 y)) as [E | NE].
  - rewrite !fl_pos_eq, <- E.
    pose proof (pow2_pos (52 - ilog2 x)) as P.
    pose proof (pow2_pos (ilog2 x - 52)) as P'.
    assert (S : x * Qpower 2 (52 - ilog2 x) <= y * Qpower 2 (52 - ilog2 x)) by nra.
    apply rne_mono in S. rewrite Zle_Qle in S.
    set (a := inject_Z (rne (x * Qpower 2 (52 - ilog2 x)))) in *.
    set (b := inject_Z (rne (y * Qpower 2 (52 - ilog2 x)))) in *.
    nra.
  - destruct (fl_pos_binade x Hx) as [_ Bx].
    destruct (fl_pos_binade y Hy) as [By _].
    pose proof (pow2_le (ilog2 x + 1) (ilog2 y) ltac:(lia)). lra.
Qed.

(** ** Rounding to binary64 *)

Lemma fl_eq (x : Q) :
  fl x == match Qcompare x 0 with
          | Eq => 0
          | Gt => fl_pos x
          | Lt => - fl_pos (- x)
          end.
Proof. unfold fl. apply Qred_correct. Qed.

Lemma fl_of_pos (x : Q) : 0 < x -> fl x == fl_pos x.
Proof.
  intros H. rewrite fl_eq.
  destruct (Qcompare_spec x 0); [exfalso; lra | exfalso; lra | reflexivity].
Qed.

Lemma fl_of_neg (x : Q) : x < 0 -> fl x == - fl_pos (- x).
Proof.
  intros H. rewrite fl_eq.
  destruct (Qcompare_spec x 0); [exfalso; lra | reflexivity | exfalso; lra].
Qed.

Lemma fl_of_zero (x : Q) : x == 0 -> fl x == 0.
Proof.
  intros H. rewrite fl_eq.
  destruct (Qcompare_spec x 0); [reflexivity | exfalso; lra | exfalso; lra].
Qed.

Lemma fl_sign (x : Q) :
  (0 < x -> 0 < fl x) /\ (x < 0 -> fl x < 0) /\ (x == 0 -> fl x == 0).
Proof.
  repeat split; intros H.
  - rewrite fl_of_pos by exact H. apply fl_pos_positive, H.
  - rewrite fl_of_neg by exact H.
    pose proof (fl_pos_positive (- x) ltac:(lra)). lra.
  - apply fl_of_zero, H.
Qed.

(** Rounding is monotone. *)
Lemma fl_mono (x y : Q) : x <= y -> fl x <= fl y.
Proof.
  intros Hxy.
  destruct (fl_sign x) as (Px & Nx & Zx). destruct (fl_sign y) as (Py & Ny & Zy).
  destruct (Q_dec x 0) as [[Lx | Gx] | Ex]; destruct (Q_dec y 0) as [[Ly | Gy] | Ey];
    try (exfalso; lra);
    try (specialize (Px ltac:(assumption))); try (specialize (Nx ltac:(assumption)));
    try (specialize (Zx ltac:(assumption))); try (specialize (Py ltac:(assumption)));
    try (specialize (Ny ltac:(assumption))); try (specialize (Zy ltac:(assumption)));
    try lra.
  - rewrite (fl_of_neg x Lx), (fl_of_neg y Ly).
    pose proof (fl_pos_mono (- y) (- x) ltac:(lra) ltac:(lra)). lra.
  - rewrite (fl_of_pos x Gx), (fl_of_pos y Gy). apply fl_pos_mono; lra.
Qed.

Lemma fl_compat (x y : Q) : x == y -> fl x == fl y.
Proof.
  intros H. apply Qle_antisym; apply fl_mono; lra.
Qed.

#[export] Instance fl_Proper : Proper (Qeq ==> Qeq) fl.
Proof. exact fl_compat. Qed.

Lemma fl_nonneg (x : Q) : 0 <= x -> 0 <= fl x.
Proof.
  intros H. pose proof (fl_mono 0 x H) as M.
  assert (Z0 : fl 0 == 0) by reflexivity. lra.
Qed.

(** A number with at most 53 significant bits is its own rounding. *)
Lemma fl_exact_pos (n k : Z) :
  (0 < n < 2 ^ 53)%Z ->
  fl_pos (inject_Z n * Qpower 2 k) == inject_Z n * Qpower 2 k.
Proof.
  intros Hn.
  set (x := inject_Z n * Qpower 2 k).
  assert (Hx : 0 < x).
  { unfold x. pose proof (pow2_pos k). pose proof (inject_Z_pos n ltac:(lia)). nra. }
  destruct (ilog2_spec x Hx) as [H1 H2].
  set (e := ilog2 x) in *.
  assert (He : (e <= 52 + k)%Z).
  { destruct (Z_le_gt_dec e (52 + k)) as [L | L]; [exact L | exfalso].
    pose proof (pow2_le (53 + k) e ltac:(lia)) as HH.
    rewrite pow2_plus in HH.
    assert (inject_Z n < Qpower 2 53).
    { rewrite <- pow2_Z by lia. rewrite <- Zlt_Qlt. lia. }
    pose proof (pow2_pos k). unfold x in H1.
    set (A := Qpower 2 53) in *. set (B := Qpower 2 k) in *. set (N := inject_Z n) in *.
    nra. }
  rewrite fl_pos_eq. fold e.
  assert (S : x * Qpower 2 (52 - e) == inject_Z (n * 2 ^ (52 + k - e))).
  { unfold x. rewrite inject_Z_mult, pow2_Z by lia.
    rewrite <- Qmult_assoc, <- pow2_plus.
    replace (k + (52 - e))%Z with (52 + k - e)%Z by ring. reflexivity. }
  rewrite (rne_eq _ _ S).
  rewrite inject_Z_mult, pow2_Z by lia.
  rewrite <- Qmult_assoc, <- pow2_plus.
  replace (52 + k - e + (e - 52))%Z with k by ring. reflexivity.
Qed.

Lemma fl_exact (n k : Z) :
  (Z.abs n < 2 ^ 53)%Z ->
  fl (inject_Z n * Qpower 2 k) == inject_Z n * Qpower 2 k.
Proof.
  intros Hn. pose proof (pow2_pos k) as P.
  destruct (Z.lt_trichotomy n 0) as [L | [E | G]].
  - pose proof (inject_Z_neg n L).
    rewrite fl_of_neg by nra.
    assert (E : - (inject_Z n * Qpower 2 k) == inject_Z (- n) * Qpower 2 k).
    { rewrite inject_Z_opp. ring. }
    assert (F : fl_pos (- (inject_Z n * Qpower 2 k)) == fl_pos (inject_Z (- n) * Qpower 2 k)).
    { apply Qle_antisym; apply fl_pos_mono; nra. }
    rewrite F, fl_exact_pos by lia. rewrite inject_Z_opp. ring.
  - subst n. rewrite fl_of_zero; ring.
  - pose proof (inject_Z_pos n G).
    rewrite fl_of_pos by nra. apply fl_exact_pos. lia.
Qed.

Lemma fl_Z (n : Z) : (Z.abs n < 2 ^ 53)%Z -> fl (inject_Z n) == inject_Z n.
Proof.
  intros H. pose proof (fl_exact n 0 H) as E. simpl in E.
  rewrite Qmult_1_r in E. exact E.
Qed.

Lemma fl_half (n : Z) :
  (Z.abs n < 2 ^ 53)%Z -> fl (inject_Z n * (1 # 2)) == inject_Z n * (1 # 2).
Proof. intros H. exact (fl_exact n (-1) H). Qed.

(** ** [Math.round] *)

Lemma Math_round_mono (x y : Q) : x <= y -> (Math_round x <= Math_round y)%Z.
Proof. intros H. apply Qfloor_resp_le. lra. Qed.

Lemma Math_round_Z (n : Z) : Math_round (inject_Z n) = n.
Proof.
  unfold Math_round.
  pose proof (floor_bounds (inject_Z n + (1 # 2))) as [H1 H2].
  assert (A : (Qfloor (inject_Z n + (1 # 2)) <= n)%Z).
  { apply Z.lt_succ_r. rewrite Zlt_Qlt. unfold Z.succ. rewrite inject_Z_plus.
    change (inject_Z 1) with 1. lra. }
  assert (B : (n <= Qfloor (inject_Z n + (1 # 2)))%Z).
  { rewrite <- (Qfloor_Z n) at 1. apply Qfloor_resp_le. lra. }
  lia.
Qed.

Lemma Math_round_compat (x y : Q) : x == y -> Math_round x = Math_round y.
Proof. intros H. apply Z.le_antisymm; apply Math_round_mono; lra. Qed.

End JSNumFacts.


(* ===================================================================== *)
(** * Facts about strings *)
(* ===================================================================== *)

Module JSStringFacts.
Import JSString.



Lemma length_append (a b : string) :
  String.length (a ++ b) = (String.length a + String.length b)%nat.
Proof. induction a; simpl; congruence. Qed.

Lemma toLowerCase_append (a b : string) :
  toLowerCase (a ++ b) = toLowerCase a ++ toLowerCase b.
Proof. induction a; simpl; congruence. Qed.

(** ** Occurrence of a substring *)

Lemma prefix_iff (k s : string) :
  String.prefix k s = true <-> exists post, s = k ++ post.
Proof.
  revert s. induction k as [| c k IH]; intros s.
  - split; [intros _; exists s; reflexivity | intros _; destruct s; reflexivity].
  - destruct s as [| d s]; simpl.
    + split; [discriminate | intros [post H]; discriminate].
    + destruct (ascii_dec c d) as [-> | NE].
      * rewrite IH. split; intros [post H]; exists post; simpl in *; congruence.
      * split; [discriminate | intros [post H]; simpl in H; congruence].
Qed.

Lemma includes_iff (s k : string) :
  includes s k = true <-> exists pre post, s = pre ++ k ++ post.
Proof.
  induction s as [| c s IH].
  - cbn [includes]. rewrite orb_false_r, prefix_iff. split.
    + intros [post H]. exists "", post. exact H.
    + intros [pre [post H]]. destruct pre; [exists post; exact H | discriminate].
  - cbn [includes]. rewrite orb_true_iff, prefix_iff, IH. split.
    + intros [[post H] | [pre [post H]]].
      * exists "", post. exact H.
      * exists (String c pre), post. simpl. congruence.
    + intros [pre [post H]]. destruct pre as [| d pre].
      * left. exists post. exact H.
      * right. exists pre, post. simpl in H. congruence.
Qed.

Lemma includes_empty (s : string) : includes s "" = true.
Proof. apply includes_iff. exists "", s. reflexivity. Qed.

(** ** Trimming *)

Lemma is_empty_true (s : string) : is_empty s = true -> s = "".
Proof. destruct s; [reflexivity | discriminate]. Qed.

Lemma trimStart_suffix (s : string) : exists w, s = w ++ trimStart s.
Proof.
  induction s as [| c s [w IH]]; simpl.
  - exists "". reflexivity.
  - destruct (is_space c).
    + exists (String c w). simpl. congruence.
    + exists "". reflexivity.
Qed.



Lemma trimEnd_idem (s : string) : trimEnd (trimEnd s) = trimEnd s.
Proof.
  induction s as [| c s IH]; simpl; [reflexivity |].
  destruct (is_space c && is_empty (trimEnd s)) eqn:E; [reflexivity |].
  simpl. rewrite IH, E. reflexivity.
Qed.

Lemma trimStart_trimEnd (s : string) :
  trimStart s = s -> trimStart (trimEnd s) = trimEnd s.
Proof.
  destruct s as [| c s]; simpl; [reflexivity |].
  destruct (is_space c) eqn:E.
  - intros H. exfalso.
    destruct (trimStart_suffix s) as [w Hw].
    apply (f_equal String.length) in H, Hw.
    rewrite length_append in Hw. simpl in H. lia.
  - intros _. simpl. rewrite E. reflexivity.
Qed.

Lemma trimStart_idem (s : string) : trimStart (trimStart s) = trimStart s.
Proof.
  induction s as [| c s IH]; simpl; [reflexivity |].
  destruct (is_space c) eqn:E; [exact IH | simpl; rewrite E; reflexivity].
Qed.

Lemma trim_trimmed (s : string) : trimmed (trim s).
Proof.
  unfold trimmed, trim. split.
  - apply trimStart_trimEnd, trimStart_idem.
  - apply trimEnd_idem.
Qed.







(** ** Splitting *)

Lemma lower_char_comma (c : ascii) :
  Ascii.eqb (lower_char c) "," = Ascii.eqb c ",".
Proof. destruct c as [[] [] [] [] [] [] [] []]; reflexivity. Qed.

Lemma split_char_toLowerCase (s : string) :
  split_char "," (toLowerCase s) = map toLowerCase (split_char "," s).
Proof.
  induction s as [| c s IH]; [reflexivity |].
  cbn [toLowerCase split_char]. rewrite lower_char_comma, IH.
  destruct (Ascii.eqb c ","); [reflexivity |].
  destruct (split_char "," s); reflexivity.
Qed.


Lemma split_char_nonempty (sep : ascii) (s : string) : split_char sep s <> [].
Proof.
  induction s as [| c s IH]; simpl; [discriminate |].
  destruct (Ascii.eqb c sep); [discriminate |].
  destruct (split_char sep s); [contradiction | discriminate].
Qed.

End JSStringFacts.

(* ===================================================================== *)
(** * The rule-based evaluator *)
(* ===================================================================== *)

Module FeedbackFacts.
Import JSNum JSString FeedbackService JSNumFacts JSStringFacts.

Lemma of_nat_nonneg (n : nat) : (0 <= of_nat n)%Q.
Proof. apply fl_nonneg, inject_Z_nonneg. lia. Qed.

Lemma of_nat_mono (m n : nat) : (m <= n)%nat -> (of_nat m <= of_nat n)%Q.
Proof. intros H. apply fl_mono. rewrite <- Zle_Qle. lia. Qed.

Lemma of_nat_pos (n : nat) : (0 < n)%nat -> (1 <= of_nat n)%Q.
Proof.
  intros H. assert (E : (fl 1 == 1)%Q) by reflexivity.
  rewrite <- E. apply fl_mono. change 1%Q with (inject_Z 1).
  rewrite <- Zle_Qle. lia.
Qed.

Lemma fl_between (lo hi x : Q) :
  (fl lo == lo)%Q -> (fl hi == hi)%Q -> (lo <= x <= hi)%Q -> (lo <= fl x <= hi)%Q.
Proof.
  intros El Eh [H1 H2]. apply fl_mono in H1, H2. lra.
Qed.

Lemma ratio_bounds (m n : nat) :
  (m <= n)%nat -> (0 < n)%nat -> (0 <= of_nat m / of_nat n <= 1)%Q.
Proof.
  intros Hmn Hn.
  pose proof (of_nat_nonneg m). pose proof (of_nat_mono m n Hmn).
  pose proof (of_nat_pos n Hn). split.
  - apply Qle_shift_div_l; lra.
  - apply Qle_shift_div_r; lra.
Qed.

Lemma keywordScoreOf_bounds (m n : nat) :
  (m <= n)%nat -> (0 <= keywordScoreOf m n <= 100)%Q.
Proof.
  intros Hmn. unfold keywordScoreOf.
  destruct (Nat.ltb_spec 0 n) as [Hn | Hn]; [| lra].
  pose proof (ratio_bounds m n Hmn Hn) as R.
  assert (D : (0 <= fdiv (of_nat m) (of_nat n) <= 1)%Q).
  { apply fl_between; [reflexivity | reflexivity | exact R]. }
  apply fl_between; [reflexivity | reflexivity | lra].
Qed.


Lemma lengthScoreOf_values (wc : nat) : In (lengthScoreOf wc) [0; 40; 60; 70; 100].
Proof.
  unfold lengthScoreOf.
  repeat match goal with |- context [if ?b then _ else _] => destruct b end;
    simpl; tauto.
Qed.

Lemma structureScoreOf_values (text : string) : In (structureScoreOf text) [50; 100].
Proof. unfold structureScoreOf. destruct (hasStructureOf text); simpl; tauto. Qed.

Lemma overallScoreOf_bounds (kw : Q) (len str : Z) :
  (0 <= kw <= 100)%Q -> In len [0; 40; 60; 70; 100] -> In str [50; 100] ->
  10 <= overallScoreOf kw len str <= 100.
Proof.
  intros Hkw Hlen Hstr. unfold overallScoreOf.
  assert (Ehalf : (lit (5 # 10) == 1 # 2)%Q) by reflexivity.
  assert (T1 : (0 <= fmul kw (lit (5 # 10)) <= 50)%Q).
  { apply fl_between; [reflexivity | reflexivity |]. rewrite Ehalf. lra. }
  assert (T2 : (0 <= fmul (of_Z len) (lit (3 # 10)) <= 30)%Q).
  { simpl in Hlen. destruct Hlen as [<- | [<- | [<- | [<- | [<- | []]]]]];
      vm_compute; split; discriminate. }
  assert (T3 : (10 <= fmul (of_Z str) (lit (2 # 10)) <= 20)%Q).
  { simpl in Hstr. destruct Hstr as [<- | [<- | []]];
      vm_compute; split; discriminate. }
  set (t1 := fmul kw (lit (5 # 10))) in *.
  set (t2 := fmul (of_Z len) (lit (3 # 10))) in *.
  set (t3 := fmul (of_Z str) (lit (2 # 10))) in *.
  assert (S1 : (0 <= fadd t1 t2 <= 80)%Q).
  { apply fl_between; [reflexivity | reflexivity | lra]. }
  assert (S2 : (10 <= fadd (fadd t1 t2) t3 <= 100)%Q).
  { apply fl_between; [reflexivity | reflexivity | lra]. }
  destruct S2 as [L U].
  apply Math_round_mono in L, U.
  change 10%Q with (inject_Z 10) in L. change 100%Q with (inject_Z 100) in U.
  rewrite Math_round_Z in L, U. lia.
Qed.

Lemma filter_length_le {A} (f : A -> bool) (l : list A) :
  (List.length (filter f l) <= List.length l)%nat.
Proof. induction l as [| x l IH]; simpl; [lia | destruct (f x); simpl; lia]. Qed.


Lemma filter_partition {A} (f : A -> bool) (l : list A) :
  Permutation (filter f l ++ filter (fun x => negb (f x)) l) l.
Proof.
  induction l as [| x l IH]; simpl; [constructor |].
  destruct (f x); simpl.
  - constructor. exact IH.
  - apply Permutation_sym, Permutation_cons_app, Permutation_sym, IH.
Qed.

Lemma score_bounds (answer : option string) (question : Question) :
  10 <= score (evaluateAnswer answer question) <= 100.
Proof.
  unfold evaluateAnswer. cbn [score].
  apply overallScoreOf_bounds.
  - apply keywordScoreOf_bounds, filter_length_le.
  - apply lengthScoreOf_values.
  - apply structureScoreOf_values.
Qed.


(** The expected keywords are the comma-separated pieces of the keyword
    string, each lower-cased and trimmed. *)
Lemma expectedKeywords_pieces (question : Question) :
  expectedKeywords question
  = map (fun k => trim (toLowerCase k))
        (split_char "," (or_empty (expected_keywords question))).
Proof.
  unfold expectedKeywords. rewrite split_char_toLowerCase, map_map. reflexivity.
Qed.

(** C1, amended: the example answer evaluated against
    "scope,hoisting,block" matches only [scope] ("hoisted" does not contain
    "hoisting"), misses [hoisting] and [block], and yields keywordScore 33,
    wordCount 8, lengthScore 40, structureScore 50 and the overall score
    39. *)
Theorem hoisted_example :
  let r := evaluateAnswer Examples.hoistedAnswer Examples.hoistedQuestion in
  matchedKeywords r = ["scope"] /\
  missedKeywords r = ["hoisting"; "block"] /\
  keywordScore r = 33 /\
  wordCount r = 8%nat /\
  lengthScoreOf (wordCount r) = 40 /\
  structureScoreOf (answerText Examples.hoistedAnswer) = 50 /\
  score r = 39.
Proof. vm_compute. repeat split; reflexivity. Qed.

(** C1 as stated fails: the values the specification lists for the example
    are not the ones computed. *)
Lemma hoisted_example_not_as_specified :
  ~ (let r := evaluateAnswer Examples.hoistedAnswer Examples.hoistedQuestion in
     matchedKeywords r = ["scope"; "hoisting"] /\
     missedKeywords r = ["block"] /\
     keywordScore r = 67 /\
     wordCount r = 9%nat /\
     lengthScoreOf (wordCount r) = 40 /\
     structureScoreOf (answerText Examples.hoistedAnswer) = 50 /\
     score r = 56).
Proof. vm_compute. intros (H & _). discriminate H. Qed.

(** C2: with an empty or absent keyword string the keyword list is not
    empty but holds the empty keyword, which every answer contains: the
    keywordScore is 100, not 0. *)
Theorem no_keywords_keywordScore_100 (answer : option string) (absent : bool) :
  let q := Examples.noKeywords absent in
  let r := evaluateAnswer answer q in
  expectedKeywords q = [""] /\
  matchedKeywords r = [""] /\
  keywordScoreOf (List.length (matchedKeywords r))
                 (List.length (expectedKeywords q)) == 100 /\
  keywordScore r = 100.
Proof.
  assert (E : expectedKeywords (Examples.noKeywords absent) = [""]).
  { destruct absent; reflexivity. }
  cbv zeta. unfold evaluateAnswer. cbn [matchedKeywords keywordScore].
  rewrite E. unfold matched. cbn [filter]. rewrite includes_empty.
  repeat split; reflexivity.
Qed.

(** C3: the score lies in [0, 100], no keyword is both matched and missed,
    and the matched and missed keywords together are exactly the expected
    keywords, which are the pieces of the keyword string lower-cased and
    trimmed. *)
Theorem evaluation_invariants (answer : option string) (question : Question) :
  let r := evaluateAnswer answer question in
  0 <= score r <= 100 /\
  (forall k, In k (matchedKeywords r) -> ~ In k (missedKeywords r)) /\
  (forall k, In k (expectedKeywords question) <->
             In k (matchedKeywords r) \/ In k (missedKeywords r)) /\
  Permutation (matchedKeywords r ++ missedKeywords r)
              (expectedKeywords question) /\
  expectedKeywords question
  = map (fun k => trim (toLowerCase k))
        (split_char "," (or_empty (expected_keywords question))).
Proof.
  cbv zeta. pose proof (score_bounds answer question) as B.
  split; [lia |].
  unfold evaluateAnswer. cbn [matchedKeywords missedKeywords].
  unfold matched, missed.
  split; [| split; [| split; [| apply expectedKeywords_pieces]]]; [| split |].
  - intros k H1 H2. apply filter_In in H1, H2.
    destruct H1 as [_ H1], H2 as [_ H2]. rewrite H1 in H2. discriminate.
  - intros H. rewrite !filter_In.
    destruct (includes (answerText answer) k); [left | right]; auto.
  - intros [H | H]; apply filter_In in H; tauto.
  - apply filter_partition.
Qed.

(** C10: the overall score is at least 10 for every input: the structure
    score is always 50 or 100 and the keyword score is never negative; 10
    is reached by the empty answer. *)
Theorem score_floor :
  (forall answer question, 10 <= score (evaluateAnswer answer question)) /\
  (forall text, structureScoreOf text = 50 \/ structureScoreOf text = 100) /\
  (forall nmatched nexpected, (0 <= keywordScoreOf nmatched nexpected)%Q) /\
  score (evaluateAnswer None Examples.abQuestion) = 10 /\
  score (evaluateAnswer (Some "") Examples.abQuestion) = 10.
Proof.
  split; [| split; [| split; [| split; reflexivity]]].
  - intros answer question. apply score_bounds.
  - intros text. unfold structureScoreOf. destruct (hasStructureOf text); auto.
  - intros m n. unfold keywordScoreOf.
    destruct (Nat.ltb_spec 0 n) as [Hn | Hn]; [| apply Qle_refl].
    apply fl_nonneg. apply Qmult_le_0_compat; [| discriminate].
    apply fl_nonneg. apply Qle_shift_div_l.
    + pose proof (of_nat_pos n Hn). lra.
    + pose proof (of_nat_nonneg m). lra.
Qed.

End FeedbackFacts.

(* ===================================================================== *)
(** * Session feedback *)
(* ===================================================================== *)

Module SessionFacts.
Import JSNum JSString FeedbackService JSNumFacts JSStringFacts FeedbackFacts SessionSpec.

Lemma of_Z_exact (n : Z) : Z.abs n < 2 ^ 53 -> (of_Z n == inject_Z n)%Q.
Proof. apply fl_Z. Qed.

Lemma of_nat_exact (n : nat) :
  Z.of_nat n < 2 ^ 53 -> (of_nat n == inject_Z (Z.of_nat n))%Q.
Proof. intros H. apply fl_Z. lia. Qed.

Lemma score_or_0_bounds (a : Answer) :
  (forall s, a_score a = Some s -> 0 <= s <= 100) ->
  exists s, 0 <= s <= 100 /\ (score_or_0 a == inject_Z s)%Q.
Proof.
  intros H. unfold score_or_0. destruct (a_score a) as [s |].
  - exists s. split; [apply H; reflexivity |].
    apply of_Z_exact. specialize (H s eq_refl). lia.
  - exists 0. split; [lia | reflexivity].
Qed.

(** Folding the rounded addition over scores in range stays exact as long
    as the running total is below 2^53. *)
Lemma fold_scores_bounds (l : list Answer) (acc : Q) (k : Z) :
  (forall a s, In a l -> a_score a = Some s -> 0 <= s <= 100) ->
  0 <= k -> k + Z.of_nat (List.length l) < 2 ^ 32 ->
  (0 <= acc <= inject_Z (100 * k))%Q ->
  (0 <= fold_left (fun sum a => fadd sum (score_or_0 a)) l acc
     <= inject_Z (100 * (k + Z.of_nat (List.length l))))%Q.
Proof.
  revert acc k. induction l as [| a l IH]; intros acc k Hl Hk Hlen Hacc.
  - simpl. replace (k + 0) with k by ring. exact Hacc.
  - cbn [fold_left List.length] in *.
    replace (k + Z.of_nat (S (List.length l)))
      with ((k + 1) + Z.of_nat (List.length l)) by lia.
    apply IH.
    + intros b s Hb. apply Hl. right. exact Hb.
    + lia.
    + lia.
    + destruct (score_or_0_bounds a (fun s => Hl a s (or_introl eq_refl)))
        as (s & Hs & Es).
      unfold fadd.
      assert (Hs' : (0 <= inject_Z s <= 100)%Q).
      { split; [apply inject_Z_nonneg; lia |].
        change 100%Q with (inject_Z 100). rewrite <- Zle_Qle. lia. }
      assert (E100 : (inject_Z (100 * (k + 1)) == inject_Z (100 * k) + 100)%Q).
      { replace (100 * (k + 1)) with (100 * k + 100) by ring.
        rewrite inject_Z_plus. reflexivity. }
      apply fl_between.
      * reflexivity.
      * apply fl_Z. lia.
      * rewrite Es, E100. lra.
Qed.

Lemma overallScoreOfSession_bounds (answers : list Answer) :
  scoresInRange answers -> Z.of_nat (List.length answers) < 2 ^ 32 ->
  0 <= overallScoreOfSession answers <= 100.
Proof.
  intros Hr Hlen. unfold overallScoreOfSession.
  set (valid := filter is_valid answers).
  destruct (Nat.ltb_spec 0 (List.length valid)) as [Hn | Hn]; [| lia].
  assert (Hvl : (List.length valid <= List.length answers)%nat)
    by apply filter_length_le.
  assert (B : (0 <= sum_scores valid
                <= inject_Z (100 * (0 + Z.of_nat (List.length valid))))%Q).
  { apply fold_scores_bounds.
    - intros a s Ha. apply Hr. apply filter_In in Ha. tauto.
    - lia.
    - lia.
    - split; [lra | apply inject_Z_nonneg; lia]. }
  rewrite Z.add_0_l in B. rewrite inject_Z_mult in B.
  change (inject_Z 100) with 100%Q in B.
  assert (En : (of_nat (List.length valid)
                == inject_Z (Z.of_nat (List.length valid)))%Q)
    by (apply of_nat_exact; lia).
  pose proof (inject_Z_pos (Z.of_nat (List.length valid)) ltac:(lia)) as Pn.
  assert (D : (0 <= fdiv (sum_scores valid) (of_nat (List.length valid)) <= 100)%Q).
  { apply fl_between; [reflexivity | reflexivity |]. rewrite En. split.
    - apply Qle_shift_div_l; lra.
    - apply Qle_shift_div_r; lra. }
  destruct D as [L U]. apply Math_round_mono in L, U.
  change 0%Q with (inject_Z 0) in L. change 100%Q with (inject_Z 100) in U.
  rewrite Math_round_Z in L, U. lia.
Qed.

Lemma readinessMismatches_none : readinessMismatches = [].
Proof. vm_compute. reflexivity. Qed.

Lemma readinessScoreOf_min (o : Z) (n : nat) :
  readinessScoreOf o n = readinessScoreOf o (Nat.min n 10).
Proof.
  unfold readinessScoreOf. rewrite <- Nat.min_assoc. reflexivity.
Qed.

Lemma readinessSpec_min (o : Z) (n : nat) :
  readinessSpec o n = readinessSpec o (Nat.min n 10).
Proof.
  unfold readinessSpec. rewrite <- Nat.min_assoc. reflexivity.
Qed.

Lemma readinessScoreOf_spec (o : Z) (n : nat) :
  0 <= o <= 100 -> readinessScoreOf o n = readinessSpec o n.
Proof.
  intros Ho. rewrite readinessScoreOf_min, readinessSpec_min.
  set (m := Nat.min n 10).
  destruct (Z.eqb_spec (readinessScoreOf o m) (readinessSpec o m)) as [E | NE];
    [exact E | exfalso].
  assert (Hin : In (o, m) readinessMismatches).
  { unfold readinessMismatches. apply (proj2 (filter_In _ _ _)). split.
    - apply in_prod.
      + apply (proj2 (in_map_iff _ _ _)). exists (Z.to_nat o). split; [lia |].
        apply (proj2 (in_seq _ _ _)). lia.
      + apply (proj2 (in_seq _ _ _)). unfold m. lia.
    - cbn [fst snd]. apply negb_true_iff, Z.eqb_neq, NE. }
  rewrite readinessMismatches_none in Hin. exact Hin.
Qed.

(** C8: the worked aggregation example, and the readiness formula for every
    session whose scores lie in [0, 100]. *)
Theorem session_aggregation :
  (let fb := calculateSessionFeedback SessionExamples.abAnswers in
   Session.topicScores fb = [("A", 70); ("B", 30)] /\
   Session.strengths fb = ["A"] /\
   Session.weaknesses fb = ["B"] /\
   Session.overallScore fb = 57 /\
   Session.readinessScore fb = 46) /\
  (forall answers,
     scoresInRange answers -> Z.of_nat (List.length answers) < 2 ^ 32 ->
     let fb := calculateSessionFeedback answers in
     Session.readinessScore fb
     = readinessSpec (Session.overallScore fb) (List.length answers)).
Proof.
  split.
  - vm_compute. repeat split; reflexivity.
  - intros answers Hr Hlen. cbv zeta. unfold calculateSessionFeedback.
    destruct (Nat.eqb_spec (List.length answers) 0) as [E | NE].
    + cbn [Session.readinessScore Session.overallScore]. rewrite E. reflexivity.
    + cbn [Session.readinessScore Session.overallScore].
      apply readinessScoreOf_spec, overallScoreOfSession_bounds; assumption.
Qed.

Lemma session_aggregation_witness :
  scoresInRange SessionExamples.abAnswers /\
  Z.of_nat (List.length SessionExamples.abAnswers) < 2 ^ 32 /\
  Session.readinessScore (calculateSessionFeedback SessionExamples.abAnswers)
  = readinessSpec (Session.overallScore (calculateSessionFeedback SessionExamples.abAnswers))
                  (List.length SessionExamples.abAnswers).
Proof.
  assert (R : scoresInRange SessionExamples.abAnswers).
  { intros a s [<- | [<- | [<- | []]]] E; injection E as <-; lia. }
  split; [exact R | split; [reflexivity |]].
  apply (proj2 session_aggregation); [exact R | reflexivity].
Defined.

End SessionFacts.

(* ===================================================================== *)
(** * The model-assisted evaluator *)
(* ===================================================================== *)

Module EvaluatorFacts.
Import JSNum JSString Config AnswerEvaluator JSNumFacts JSStringFacts FeedbackFacts EvaluatorSpec.

Lemma is_empty_append (a b : string) :
  is_empty a = false -> is_empty (a ++ b) = false.
Proof. destruct a; [discriminate | reflexivity]. Qed.

Lemma generateFeedbackText_nonempty (score : Z) (strengths weaknesses : list string) :
  is_empty (FeedbackService.generateFeedbackText score strengths weaknesses) = false.
Proof.
  unfold FeedbackService.generateFeedbackText.
  repeat match goal with
         | |- context [if ?b then _ else _] => destruct b
         end; reflexivity.
Qed.

Lemma parseScore_range (response : string) (M : Z) :
  parseScore response = Some M -> 0 <= M <= 100.
Proof.
  unfold parseScore. destruct (match_digits response); [| discriminate].
  intros H. injection H as <-. lia.
Qed.

Lemma blend_exact (M H : Z) :
  Z.abs M < 2 ^ 52 -> Z.abs H < 2 ^ 52 ->
  Math_round (fadd (fmul (of_Z M) (lit (5 # 10))) (fmul (of_Z H) (lit (5 # 10))))
  = blendSpec M H.
Proof.
  intros HM HH. unfold blendSpec, Math_round. apply Math_round_compat.
  assert (Ehalf : (lit (5 # 10) == 1 # 2)%Q) by reflexivity.
  assert (half : forall n, Z.abs n < 2 ^ 52 ->
                           (fmul (of_Z n) (lit (5 # 10)) == inject_Z n * (1 # 2))%Q).
  { intros n Hn. unfold fmul, of_Z.
    rewrite (fl_Z n) by lia. rewrite Ehalf. apply fl_half. lia. }
  unfold fadd. rewrite (half M HM), (half H HH).
  assert (E : (inject_Z M * (1 # 2) + inject_Z H * (1 # 2)
               == inject_Z (M + H) * (1 # 2))%Q).
  { rewrite inject_Z_plus. ring. }
  rewrite E, fl_half by lia. rewrite inject_Z_plus. ring.
Qed.

(** C4: when the model is on and a score [M] is read from its reply, the
    result carries the exact blend of [M] and the rule score, the rule
    evaluation's qualitative fields unchanged, and the method ai-blended. *)
Theorem blended_evaluation
    (env : Env) (st : State) (answer : option string) (question : Question)
    (response : string) (M : Z) :
  initModel env st <> None ->
  parseScore response = Some M ->
  let rule := FeedbackService.evaluateAnswer answer (ruleQuestion question) in
  exists r,
    fst (evaluateAnswer env st answer question (Returned response)) = Returned r /\
    score r = blendSpec M (FeedbackService.score rule) /\
    feedback r = FeedbackService.feedback rule /\
    strengths r = FeedbackService.strengths rule /\
    weaknesses r = FeedbackService.weaknesses rule /\
    suggestions r = FeedbackService.suggestions rule /\
    matchedKeywords r = FeedbackService.matchedKeywords rule /\
    missedKeywords r = FeedbackService.missedKeywords rule /\
    keywordScore r = FeedbackService.keywordScore rule /\
    wordCount r = FeedbackService.wordCount rule /\
    evaluationMethod r = "ai-blended".
Proof.
  intros Hmodel Hparse rule.
  unfold evaluateAnswer. fold rule.
  destruct (initModel env st) as [m |]; [| contradiction].
  unfold aiEvaluate. rewrite Hparse. cbn [fst].
  eexists. split; [reflexivity |].
  unfold blendEvaluations.
  cbn [score feedback strengths weaknesses suggestions matchedKeywords
       missedKeywords keywordScore wordCount evaluationMethod ai_score].
  repeat split.
  - apply blend_exact.
    + pose proof (parseScore_range _ _ Hparse). lia.
    + pose proof (score_bounds answer (ruleQuestion question)). fold rule in H. lia.
  - unfold rule, FeedbackService.evaluateAnswer. cbn [FeedbackService.feedback].
    rewrite generateFeedbackText_nonempty. reflexivity.
Qed.

Lemma blended_evaluation_witness :
  exists r,
    fst (evaluateAnswer EvaluatorExamples.aiOn None Examples.hoistedAnswer
           EvaluatorExamples.varQuestion (Returned "Score: 80/100"))
    = Returned r /\
    score r = 60 /\ evaluationMethod r = "ai-blended".
Proof.
  destruct (blended_evaluation EvaluatorExamples.aiOn None Examples.hoistedAnswer
              EvaluatorExamples.varQuestion "Score: 80/100" 80)
    as (r & Hr & Hs & Hrest).
  - discriminate.
  - reflexivity.
  - exists r. split; [exact Hr |]. split.
    + rewrite Hs. reflexivity.
    + apply Hrest.
Defined.

End EvaluatorFacts.

(* ===================================================================== *)
(** * The adaptive selector *)
(* ===================================================================== *)

Module SortFacts.
Import QuestionSelector SelectorSpec.

Section Sorting.
Context {A : Type} (key : A -> Z).

Lemma insert_perm (x : A) (l : list A) : Permutation (insert key x l) (x :: l).
Proof.
  induction l as [| y l IH]; simpl; [reflexivity |].
  destruct (key x <=? key y); [reflexivity |].
  rewrite IH. apply perm_swap.
Qed.

Lemma sortBy_perm (l : list A) : Permutation (sortBy key l) l.
Proof.
  induction l as [| x l IH]; simpl; [constructor |].
  rewrite insert_perm. constructor. exact IH.
Qed.

Lemma insert_sorted (x : A) (l : list A) :
  StronglySorted (byKey key) l -> StronglySorted (byKey key) (insert key x l).
Proof.
  induction 1 as [| y l Hs IH Hy]; simpl.
  - constructor; constructor.
  - destruct (Z.leb_spec (key x) (key y)) as [Hle | Hgt].
    + constructor; [constructor; assumption |].
      constructor; [exact Hle |].
      eapply Forall_impl; [| exact Hy].
      intros z Hz. unfold byKey in *. lia.
    + constructor; [exact IH |].
      apply (Permutation_Forall (Permutation_sym (insert_perm x l))).
      constructor; [unfold byKey; lia | exact Hy].
Qed.

Lemma sortBy_sorted (l : list A) : StronglySorted (byKey key) (sortBy key l).
Proof.
  induction l as [| x l IH]; simpl; [constructor | apply insert_sorted, IH].
Qed.

(** Stability: elements with equal keys keep their order. *)
Lemma insert_withKey (k : Z) (x : A) (l : list A) :
  withKey key k (insert key x l) = withKey key k (x :: l).
Proof.
  unfold withKey. induction l as [| y l IH]; [reflexivity |].
  cbn [insert]. destruct (Z.leb_spec (key x) (key y)) as [Hle | Hgt]; [reflexivity |].
  cbn [filter] in *. rewrite IH.
  destruct (Z.eqb_spec (key x) k) as [Ex | Nx];
    destruct (Z.eqb_spec (key y) k) as [Ey | Ny]; try reflexivity.
  lia.
Qed.

Lemma sortBy_stable (k : Z) (l : list A) :
  withKey key k (sortBy key l) = withKey key k l.
Proof.
  induction l as [| x l IH]; [reflexivity |].
  cbn [sortBy]. rewrite insert_withKey. unfold withKey in *. cbn [filter].
  rewrite IH. reflexivity.
Qed.

Lemma sorted_nth (l : list A) (i j : nat) (a b : A) :
  StronglySorted (byKey key) l -> (i < j)%nat ->
  nth_error l i = Some a -> nth_error l j = Some b -> key a <= key b.
Proof.
  intros Hs. revert i j. induction Hs as [| y l Hs IH Hy]; intros i j Hij Ha Hb.
  - destruct i; discriminate.
  - destruct j as [| j]; [lia |]. destruct i as [| i]; simpl in *.
    + injection Ha as <-. apply nth_error_In in Hb.
      rewrite Forall_forall in Hy. apply (Hy b Hb).
    + apply (IH i j); [lia | assumption | assumption].
Qed.

End Sorting.
End SortFacts.

Module AverageFacts.
Import JSNum JSNumFacts QuestionSelector SelectorSpec FeedbackFacts.

Lemma sumScores_from (l : list Z) (acc : Q) (k : Z) :
  scoresInRange l ->
  0 <= k -> k + 100 * Z.of_nat (List.length l) < 2 ^ 53 ->
  (acc == inject_Z k)%Q ->
  (fold_left (fun a b => fadd a (of_Z b)) l acc == inject_Z (k + total l))%Q.
Proof.
  revert acc k. induction l as [| s l IH]; intros acc k Hr Hk Hlen Hacc.
  - simpl. rewrite Z.add_0_r. exact Hacc.
  - inversion Hr as [| ? ? Hs Hr']; subst.
    cbn [fold_left total fold_right List.length] in *.
    replace (k + (s + fold_right Z.add 0 l)) with ((k + s) + total l)
      by (unfold total; ring).
    apply IH; [exact Hr' | lia | lia |].
    unfold fadd, of_Z. rewrite (fl_Z s) by lia. rewrite Hacc.
    rewrite <- inject_Z_plus. apply fl_Z. lia.
Qed.

Lemma total_bounds (l : list Z) :
  scoresInRange l -> 0 <= total l <= 100 * Z.of_nat (List.length l).
Proof.
  induction 1 as [| s l Hs Hr IH]; cbn [total fold_right List.length].
  - lia.
  - unfold total in IH. lia.
Qed.

Lemma sumScores_exact (l : list Z) :
  scoresInRange l -> Z.of_nat (List.length l) < 2 ^ 32 ->
  (sumScores l == inject_Z (total l))%Q.
Proof.
  intros Hr Hlen. unfold sumScores.
  rewrite (sumScores_from l 0%Q 0 Hr); [reflexivity | lia | lia | reflexivity].
Qed.

(** Comparing the rounded quotient of two integers with an integer
    threshold gives the same answer as comparing the exact quotient. *)
Lemma threshold_exact (t sigma n : Z) :
  0 <= t <= 100 -> 0 < n < 2 ^ 32 ->
  Qle_bool (inject_Z t) (fl (inject_Z sigma / inject_Z n))
  = Qle_bool (inject_Z t) (inject_Z sigma / inject_Z n).
Proof.
  intros Ht Hn.
  pose proof (inject_Z_pos n ltac:(lia)) as Pn.
  assert (Et : (fl (inject_Z t) == inject_Z t)%Q) by (apply fl_Z; lia).
  destruct (Qle_bool (inject_Z t) (inject_Z sigma / inject_Z n)) eqn:E.
  - apply Qle_bool_iff in E. apply Qle_bool_iff.
    rewrite <- Et. apply fl_mono, E.
  - destruct (Qle_bool (inject_Z t) (fl (inject_Z sigma / inject_Z n))) eqn:F;
      [exfalso | reflexivity].
    apply Qle_bool_iff in F.
    assert (L : (inject_Z sigma / inject_Z n < inject_Z t)%Q).
    { apply Qnot_le_lt. intros C. apply Qle_bool_iff in C. congruence. }
    assert (Lz : sigma < t * n).
    { pose proof (Qmult_div_r (inject_Z sigma) (inject_Z n) ltac:(lra)) as Hm.
      rewrite Zlt_Qlt, inject_Z_mult.
      set (q := (inject_Z sigma / inject_Z n)%Q) in *.
      set (N := inject_Z n) in *. set (S := inject_Z sigma) in *.
      set (T := inject_Z t) in *. nra. }
    set (u := (inject_Z (t * 2 ^ 32 - 1) * Qpower 2 (-32))%Q).
    assert (Eu : (fl u == u)%Q) by (apply fl_exact; lia).
    assert (Uval : (u == inject_Z t - Qpower 2 (-32))%Q).
    { unfold u. unfold Z.sub. rewrite inject_Z_plus, inject_Z_mult.
      rewrite (pow2_Z 32) by lia.
      pose proof (pow2_inv 32) as I. simpl Z.opp in I.
      set (P := Qpower 2 32) in *. set (N := Qpower 2 (-32)) in *.
      change (inject_Z (- (1))) with (- (1))%Q.
      setoid_replace ((inject_Z t * P + - (1)) * N)%Q
        with (inject_Z t * (P * N) - N)%Q by ring.
      rewrite I. ring. }
    assert (Hq : (inject_Z sigma / inject_Z n <= u)%Q).
    { rewrite Uval. apply Qle_shift_div_r; [exact Pn |].
      assert (S1 : (inject_Z sigma <= inject_Z t * inject_Z n - 1)%Q).
      { assert (Z1 : (inject_Z sigma <= inject_Z (t * n - 1))%Q)
          by (rewrite <- Zle_Qle; lia).
        unfold Z.sub in Z1. rewrite inject_Z_plus, inject_Z_mult in Z1.
        change (inject_Z (- (1))) with (- (1))%Q in Z1. lra. }
      assert (S2 : (inject_Z n * Qpower 2 (-32) <= 1)%Q).
      { pose proof (pow2_inv 32) as I. simpl Z.opp in I.
        assert (inject_Z n <= Qpower 2 32)%Q.
        { rewrite <- pow2_Z by lia. rewrite <- Zle_Qle. lia. }
        pose proof (pow2_pos (-32)).
        set (P := Qpower 2 32) in *. set (N := Qpower 2 (-32)) in *.
        nra. }
      set (N := Qpower 2 (-32)) in *. nra. }
    apply fl_mono in Hq. pose proof (pow2_pos (-32)). lra.
Qed.

Lemma avgScore_order (scores : list Z) :
  scoresInRange scores -> Z.of_nat (List.length scores) < 2 ^ 32 ->
  difficultyOrder (avgScore scores) = preferenceSpec (meanSpec scores).
Proof.
  intros Hr Hlen. unfold avgScore, meanSpec.
  destruct scores as [| s l]; [reflexivity |].
  set (scores := s :: l) in *.
  assert (Hn : (0 < List.length scores)%nat) by (simpl; lia).
  destruct (Nat.ltb_spec 0 (List.length scores)) as [_ | C]; [| lia].
  assert (E : (fdiv (sumScores scores) (of_nat (List.length scores))
               == fl (inject_Z (total scores)
                      / inject_Z (Z.of_nat (List.length scores))))%Q).
  { unfold fdiv. apply fl_compat.
    rewrite (sumScores_exact scores Hr Hlen).
    unfold of_nat, of_Z. rewrite fl_Z by lia. reflexivity. }
  unfold difficultyOrder, preferenceSpec, geb.
  assert (T : forall t x y, (x == y)%Q -> Qle_bool t x = Qle_bool t y).
  { intros t x y Hxy. destruct (Qle_bool t x) eqn:X; destruct (Qle_bool t y) eqn:Y;
      try reflexivity.
    - apply Qle_bool_iff in X. rewrite Hxy in X. apply Qle_bool_iff in X. congruence.
    - apply Qle_bool_iff in Y. rewrite <- Hxy in Y. apply Qle_bool_iff in Y. congruence. }
  rewrite !(T _ _ _ E).
  change 70%Q with (inject_Z 70). change 50%Q with (inject_Z 50).
  rewrite !threshold_exact by lia. reflexivity.
Qed.

End AverageFacts.

Module SelectorFacts.
Import JSNum JSString Config QuestionStore QuestionSelector.
Import JSNumFacts JSStringFacts FeedbackFacts SelectorSpec SortFacts AverageFacts.

(** ** The store *)

Lemma mem_In (x : string) (l : list string) : mem x l = true <-> In x l.
Proof.
  unfold mem. rewrite existsb_exists. split.
  - intros (y & Hy & E). apply String.eqb_eq in E. subst. exact Hy.
  - intros H. exists x. split; [exact H | apply String.eqb_refl].
Qed.

Lemma keep_not_excluded (f : Filter) (q : QuestionDocument) :
  keep f q = true -> ~ In (id q) (f_excludeIds f).
Proof.
  unfold keep. destruct (mem (id q) (f_excludeIds f)) eqn:E; [discriminate |].
  intros _ H. apply mem_In in H. congruence.
Qed.

Lemma getFilteredQuestions_excludes (w : World) (st : Store) (f : Filter)
    (q : QuestionDocument) :
  In q (fst (getFilteredQuestions w st f)) -> ~ In (id q) (f_excludeIds f).
Proof.
  unfold getFilteredQuestions. destruct (getAllQuestions w st) as [all st'].
  cbn [fst]. intros H. apply filter_In in H. apply keep_not_excluded, H.
Qed.

Lemma onStore_fst {A} (ext : Externals) (f : World -> Store -> A * Store)
    (h : Heap) :
  fst (onStore ext f h) = fst (f (worldAt ext (reads h)) (store h)).
Proof. unfold onStore. destruct (f _ _). reflexivity. Qed.

Lemma onStore_draws {A} (ext : Externals) (f : World -> Store -> A * Store)
    (h : Heap) :
  draws (snd (onStore ext f h)) = draws h.
Proof. unfold onStore. destruct (f _ _). reflexivity. Qed.

(** ** The random pick *)

Lemma pick_In {A} (r : Q) (l : list A) (x : A) : pick r l = Some x -> In x l.
Proof.
  unfold pick. destruct (_ <? 0); [discriminate |]. apply nth_error_In.
Qed.

Lemma pick_total {A} (r : Q) (l : list A) :
  isRandom r -> (1 <= List.length l <= 3)%nat -> exists x, pick r l = Some x.
Proof.
  intros [R0 R1] Hl. unfold pick.
  set (n := List.length l) in *.
  assert (Hn : (0 <= of_nat n)%Q) by apply of_nat_nonneg.
  assert (B : (0 <= fmul r (of_nat n))%Q /\
              (fmul r (of_nat n) < inject_Z (Z.of_nat n))%Q).
  { split.
    - apply fl_nonneg. nra.
    - assert (U : (fmul r (of_nat n) <= fmul maxRandom (of_nat n))%Q).
      { apply fl_mono. nra. }
      assert (V : (fmul maxRandom (of_nat n) < inject_Z (Z.of_nat n))%Q).
      { destruct n as [| [| [| [| n]]]]; try lia; vm_compute; reflexivity. }
      lra. }
  destruct B as [B0 B1].
  assert (F0 : 0 <= Math_floor (fmul r (of_nat n))).
  { unfold Math_floor. change 0 with (Qfloor 0). apply Qfloor_resp_le, B0. }
  assert (F1 : Math_floor (fmul r (of_nat n)) < Z.of_nat n).
  { unfold Math_floor. rewrite Zlt_Qlt.
    eapply Qle_lt_trans; [apply Qfloor_le | exact B1]. }
  destruct (Z.ltb_spec (Math_floor (fmul r (of_nat n))) 0) as [C | _]; [lia |].
  destruct (nth_error l (Z.to_nat (Math_floor (fmul r (of_nat n))))) eqn:E.
  - eexists. reflexivity.
  - apply nth_error_None in E. fold n in E. lia.
Qed.

(** ** The heuristic selection *)

Lemma uncovered_subset (covered : list string) (avail : list QuestionDocument)
    (q : QuestionDocument) :
  In q (uncovered covered avail) -> In q avail.
Proof.
  unfold uncovered. destruct (_ =? _)%nat; [tauto |].
  intros H. apply filter_In in H. tauto.
Qed.

Lemma uncovered_nonempty (covered : list string) (avail : list QuestionDocument) :
  avail <> [] -> uncovered covered avail <> [].
Proof.
  unfold uncovered. intros H.
  destruct (Nat.eqb_spec (List.length (filter (fun q => negb (mem (topic (metadata q)) covered)) avail)) 0)
    as [E | NE]; [exact H |].
  intros C. rewrite C in NE. apply NE. reflexivity.
Qed.

Lemma topCandidates_firstn (sorted : list QuestionDocument) :
  topCandidates sorted = firstn 3 sorted.
Proof.
  unfold topCandidates.
  destruct (Nat.le_ge_cases 3 (List.length sorted)) as [H | H].
  - rewrite Nat.min_l by exact H. reflexivity.
  - rewrite Nat.min_r by exact H. rewrite !firstn_all2; [reflexivity | exact H | lia].
Qed.

Lemma firstn_subset {A} (n : nat) (l : list A) (x : A) :
  In x (firstn n l) -> In x l.
Proof.
  intros H. rewrite <- (firstn_skipn n l). apply in_or_app. left. exact H.
Qed.

Lemma smartFallbackSelect_result (ext : Externals) (ctx : SessionContext)
    (avail avail' : list QuestionDocument) (h h' : Heap) (sel : Selection) :
  smartFallbackSelect ext ctx avail h = (Returned sel, avail', h') ->
  In (question sel)
     (firstn 3 (sortedCandidates (recentScores ctx) (candidatesOf ext ctx avail h)))
  /\ selectionMethod sel = "fallback".
Proof.
  unfold smartFallbackSelect, candidatesOf, bind, ret, Math_random.
  destruct (onStore ext _ h) as [covered h1]. cbn [fst].
  rewrite topCandidates_firstn.
  destruct (pick _ _) as [x |] eqn:P; intros H; [| discriminate].
  injection H as <- _ _. cbn [question selectionMethod].
  split; [apply (pick_In _ _ _ P) | reflexivity].
Qed.

(** Sorting in place only reorders the caller's array. *)
Lemma availableAfterSort_perm (covered : list string) (scores : list Z)
    (avail : list QuestionDocument) :
  Permutation (availableAfterSort covered scores avail) avail.
Proof.
  unfold availableAfterSort. destruct (_ =? _)%nat; [apply sortBy_perm | reflexivity].
Qed.

Lemma smartFallbackSelect_array (ext : Externals) (ctx : SessionContext)
    (avail avail' : list QuestionDocument) (h h' : Heap)
    (r : outcome Selection) :
  smartFallbackSelect ext ctx avail h = (r, avail', h') ->
  Permutation avail' avail.
Proof.
  unfold smartFallbackSelect, bind, ret, Math_random.
  destruct (onStore ext _ h) as [covered h1].
  destruct (pick _ _); intros H; injection H as _ <- _;
    apply availableAfterSort_perm.
Qed.

Lemma smartFallbackSelect_In (ext : Externals) (ctx : SessionContext)
    (avail avail' : list QuestionDocument) (h h' : Heap) (sel : Selection) :
  smartFallbackSelect ext ctx avail h = (Returned sel, avail', h') ->
  In (question sel) avail.
Proof.
  intros H. apply smartFallbackSelect_result in H. destruct H as [H _].
  apply firstn_subset in H.
  apply (Permutation_in _ (sortBy_perm _ _)) in H.
  apply uncovered_subset in H. exact H.
Qed.

Lemma smartFallbackSelect_total (ext : Externals) (ctx : SessionContext)
    (avail : list QuestionDocument) (h : Heap) :
  isRandom (random ext (draws h)) -> avail <> [] ->
  exists sel avail' h',
    smartFallbackSelect ext ctx avail h = (Returned sel, avail', h').
Proof.
  intros Hr Ha.
  unfold smartFallbackSelect, bind, ret, Math_random.
  pose proof (onStore_draws ext
                (fun w st => getSessionTopicsCovered w st (answeredQuestionIds ctx)) h)
    as Hd.
  pose proof (uncovered_nonempty
                (fst (onStore ext
                        (fun w st => getSessionTopicsCovered w st (answeredQuestionIds ctx)) h))
                avail Ha) as Hne.
  destruct (onStore ext _ h) as [covered h1]. cbn [fst snd] in *.
  rewrite Hd.
  set (sorted := sortedCandidates (recentScores ctx) (uncovered covered avail)).
  assert (Hlen : List.length sorted = List.length (uncovered covered avail)).
  { apply Permutation_length, sortBy_perm. }
  destruct (pick_total (random ext (draws h)) (topCandidates sorted) Hr) as [x Hx].
  - unfold topCandidates. rewrite length_firstn.
    destruct (uncovered covered avail); [contradiction | simpl in Hlen; lia].
  - rewrite Hx. eexists. eexists. eexists. reflexivity.
Qed.

Lemma randomSelect_In (ext : Externals) (l : list QuestionDocument)
    (h h' : Heap) (sel : Selection) :
  randomSelect ext l h = (Returned sel, h') -> In (question sel) l.
Proof.
  unfold randomSelect, bind, ret, Math_random.
  destruct (pick _ _) as [x |] eqn:P; intros H; [| discriminate].
  injection H as <- _. apply (pick_In _ _ _ P).
Qed.

Lemma aiSelect_In (ext : Externals) (ctx : SessionContext)
    (avail avail' : list QuestionDocument) (h h' : Heap) (sel : Selection) :
  aiSelect ext ctx avail h = (Returned sel, avail', h') ->
  In (question sel) avail.
Proof.
  unfold aiSelect, bind, ret.
  destruct (onStore ext _ h) as [covered h1].
  destruct (invoke ext) as [response | e]; [| discriminate].
  unfold findSelected.
  destruct (find _ avail) as [q |] eqn:F.
  - intros H. injection H as <- _ _. apply find_some in F. apply F.
  - apply smartFallbackSelect_In.
Qed.

Lemma aiSelect_array (ext : Externals) (ctx : SessionContext)
    (avail avail' : list QuestionDocument) (h h' : Heap)
    (r : outcome Selection) :
  aiSelect ext ctx avail h = (r, avail', h') -> Permutation avail' avail.
Proof.
  unfold aiSelect, bind, ret.
  destruct (onStore ext _ h) as [covered h1].
  destruct (invoke ext) as [response | e].
  - destruct (findSelected response avail).
    + intros H. injection H as _ <- _. reflexivity.
    + apply smartFallbackSelect_array.
  - intros H. injection H as _ <- _. reflexivity.
Qed.


(** ** Where the selected question comes from *)

(** C6: whatever path produced it, the selected question is none of the
    answered ones. *)
Theorem selected_not_answered (env : Env) (ext : Externals)
    (ctx : SessionContext) (h h' : Heap) (sel : Selection) :
  selectNextQuestion env ext ctx h = (Returned (Some sel), h') ->
  ~ In (id (question sel)) (answeredQuestionIds ctx).
Proof.
  unfold selectNextQuestion, bind, ret.
  pose proof (getFilteredQuestions_excludes (worldAt ext (reads h)) (store h)
                (availableFilter ctx)) as Hav.
  rewrite <- (onStore_fst ext
                (fun w st => getFilteredQuestions w st (availableFilter ctx))) in Hav.
  destruct (onStore ext _ h) as [avail h1]. cbn [fst] in Hav.
  destruct (List.length avail =? 0)%nat.
  - pose proof (getFilteredQuestions_excludes (worldAt ext (reads h1)) (store h1)
                  (relaxedFilter ctx)) as Hfb.
    rewrite <- (onStore_fst ext
                  (fun w st => getFilteredQuestions w st (relaxedFilter ctx))) in Hfb.
    destruct (onStore ext _ h1) as [fb h2]. cbn [fst] in Hfb.
    destruct (List.length fb =? 0)%nat; [discriminate |].
    destruct (randomSelect ext fb h2) as [[s | e] h3] eqn:R; [| discriminate].
    intros H. injection H as <- _.
    apply (Hfb _ (randomSelect_In _ _ _ _ _ R)).
  - destruct (initModel env h1) as [[m |] h2].
    + destruct (aiSelect ext ctx avail h2) as [[[s | e] avail'] h3] eqn:A;
        cbn [fst snd].
      * intros H. injection H as <- _.
        apply (Hav _ (aiSelect_In _ _ _ _ _ _ _ A)).
      * destruct (shouldFallback env); [| discriminate].
        destruct (smartFallbackSelect ext ctx avail' h3)
          as [[[s | e'] avail''] h4] eqn:F; cbn [fst]; [| discriminate].
        intros H. injection H as <- _.
        apply Hav.
        apply (Permutation_in _ (aiSelect_array _ _ _ _ _ _ _ A)).
        apply (smartFallbackSelect_In _ _ _ _ _ _ _ F).
    + destruct (smartFallbackSelect ext ctx avail h2)
        as [[[s | e'] avail'] h4] eqn:F; cbn [fst]; [| discriminate].
      intros H. injection H as <- _.
      apply (Hav _ (smartFallbackSelect_In _ _ _ _ _ _ _ F)).
Qed.


Lemma selected_not_answered_witness :
  exists sel h',
    selectNextQuestion SelectorExamples.aiOff
      (SelectorExamples.externals (Thrown "unused") (1 # 2))
      (SelectorExamples.context None ["q-medium"] [90; 85])
      SelectorExamples.emptyHeap
    = (Returned (Some sel), h')
    /\ id (question sel) = "q-hard"
    /\ ~ In (id (question sel)) ["q-medium"].
Proof.
  eexists. eexists. split; [vm_compute; reflexivity |].
  split; [reflexivity |].
  eapply (selected_not_answered SelectorExamples.aiOff
            (SelectorExamples.externals (Thrown "unused") (1 # 2))
            (SelectorExamples.context None ["q-medium"] [90; 85])
            SelectorExamples.emptyHeap).
  vm_compute. reflexivity.
Defined.

(** ** The order of the heuristic selection *)

Lemma hard_before_easy (sorted : list QuestionDocument) (i j : nat)
    (a b : QuestionDocument) :
  StronglySorted (byKey (difficultyKey ["hard"; "medium"; "easy"])) sorted ->
  nth_error sorted i = Some a -> nth_error sorted j = Some b ->
  hasDifficulty "hard" a -> hasDifficulty "easy" b -> (i < j)%nat.
Proof.
  intros Hs Ha Hb Da Db.
  assert (Ka : difficultyKey ["hard"; "medium"; "easy"] a = 0)
    by (unfold difficultyKey; rewrite Da; reflexivity).
  assert (Kb : difficultyKey ["hard"; "medium"; "easy"] b = 2)
    by (unfold difficultyKey; rewrite Db; reflexivity).
  destruct (Nat.lt_trichotomy i j) as [L | [E | G]]; [exact L | exfalso | exfalso].
  - subst j. rewrite Ha in Hb. injection Hb as <-. lia.
  - pose proof (sorted_nth _ sorted j i b a Hs G Hb Ha). lia.
Qed.

(** C7: the heuristic selection sorts the candidates stably by the index
    of their difficulty in the order the mean of the recent scores calls
    for, and returns one of the first three; with the scores 90 and 85
    every hard candidate precedes every easy one. *)
Theorem fallback_selection (ext : Externals) (ctx : SessionContext)
    (avail : list QuestionDocument) (h : Heap) :
  scoresInRange (recentScores ctx) ->
  Z.of_nat (List.length (recentScores ctx)) < 2 ^ 32 ->
  let candidates := candidatesOf ext ctx avail h in
  let key := difficultyKey (preferenceSpec (meanSpec (recentScores ctx))) in
  let sorted := sortedCandidates (recentScores ctx) candidates in
  StronglySorted (byKey key) sorted /\
  (forall k, withKey key k sorted = withKey key k candidates) /\
  Permutation sorted candidates /\
  (forall sel avail' h',
     smartFallbackSelect ext ctx avail h = (Returned sel, avail', h') ->
     In (question sel) (firstn 3 sorted) /\ selectionMethod sel = "fallback") /\
  (isRandom (random ext (draws h)) -> avail <> [] ->
   exists sel avail' h',
     smartFallbackSelect ext ctx avail h = (Returned sel, avail', h')) /\
  (recentScores ctx = [90; 85] ->
   forall i j a b,
     nth_error sorted i = Some a -> nth_error sorted j = Some b ->
     hasDifficulty "hard" a -> hasDifficulty "easy" b -> (i < j)%nat).
Proof.
  intros Hr Hlen candidates key sorted.
  assert (Ek : sorted = sortBy key candidates).
  { unfold sorted, sortedCandidates, key.
    rewrite (avgScore_order _ Hr Hlen). reflexivity. }
  repeat split.
  - rewrite Ek. apply sortBy_sorted.
  - intros k. rewrite Ek. apply sortBy_stable.
  - rewrite Ek. apply sortBy_perm.
  - apply smartFallbackSelect_result in H. apply H.
  - apply smartFallbackSelect_result in H. apply H.
  - apply smartFallbackSelect_total.
  - intros E i j a b. apply hard_before_easy.
    rewrite Ek. unfold key. rewrite E. apply sortBy_sorted.
Qed.

Lemma fallback_selection_witness :
  let ext := SelectorExamples.externals (Thrown "unused") (1 # 2) in
  let ctx := SelectorExamples.context None [] [90; 85] in
  let avail := map toDocument SelectorExamples.table in
  map id (sortedCandidates (recentScores ctx)
            (candidatesOf ext ctx avail SelectorExamples.emptyHeap))
  = ["q-hard"; "q-medium"; "q-easy"] /\
  StronglySorted
    (byKey (difficultyKey (preferenceSpec (meanSpec (recentScores ctx)))))
    (sortedCandidates (recentScores ctx)
       (candidatesOf ext ctx avail SelectorExamples.emptyHeap)).
Proof.
  cbv zeta. split; [vm_compute; reflexivity |].
  assert (Hr : scoresInRange [90; 85]) by (repeat constructor; lia).
  assert (Hlen : Z.of_nat (List.length [90; 85]) < 2 ^ 32) by reflexivity.
  pose proof (fallback_selection
                (SelectorExamples.externals (Thrown "unused") (1 # 2))
                (SelectorExamples.context None [] [90; 85])
                (map toDocument SelectorExamples.table)
                SelectorExamples.emptyHeap Hr Hlen) as (S & _).
  exact S.
Defined.

(** ** Failures of the model *)

(** C5 as stated fails for the selector: with the fallback switched off, a
    reply that names no candidate does not make the call throw; the
    heuristic selection answers. *)
Lemma unparsed_reply_not_propagated :
  let env := EvaluatorExamples.aiOnNoFallback in
  let ext := SelectorExamples.externals (Returned "I cannot decide") (1 # 2) in
  let ctx := SelectorExamples.context None [] [90; 85] in
  shouldFallback env = false /\
  findSelected "I cannot decide" (map toDocument SelectorExamples.table) = None /\
  (forall msg,
     fst (selectNextQuestion env ext ctx SelectorExamples.emptyHeap)
     <> Thrown msg) /\
  exists sel,
    fst (selectNextQuestion env ext ctx SelectorExamples.emptyHeap)
    = Returned (Some sel) /\
    id (question sel) = "q-medium" /\ selectionMethod sel = "fallback".
Proof.
  cbv zeta. split; [reflexivity |]. split; [reflexivity |]. split.
  - intros msg. vm_compute. discriminate.
  - eexists. split; [vm_compute; reflexivity |]. split; reflexivity.
Qed.

Lemma aiEvaluate_failure (invoke : outcome string) (msg : string) :
  AnswerEvaluator.aiEvaluate invoke = Thrown msg <->
  invoke = Thrown msg \/
  exists response,
    invoke = Returned response /\ AnswerEvaluator.parseScore response = None /\
    msg = "Could not extract score from AI response".
Proof.
  unfold AnswerEvaluator.aiEvaluate. destruct invoke as [response | e].
  - destruct (AnswerEvaluator.parseScore response) eqn:P; split.
    + discriminate.
    + intros [H | (r & H & Hn & _)]; [discriminate |].
      injection H as <-. congruence.
    + intros H. injection H as <-. right. exists response. auto.
    + intros [H | (r & H & Hn & ->)]; [discriminate | reflexivity].
  - split.
    + intros H. injection H as <-. left. reflexivity.
    + intros [H | (r & H & _)]; [congruence | discriminate].
Qed.

Lemma select_with_model (env : Env) (ext : Externals) (ctx : SessionContext)
    (h : Heap) (avail : list QuestionDocument) (m : Model) (h2 : Heap) :
  afterLookup env ext ctx h = (avail, Some m, h2) ->
  avail <> [] ->
  selectNextQuestion env ext ctx h
  = let (r, h3) := aiSelect ext ctx avail h2 in
    match fst r with
    | Returned s => (Returned (Some s), h3)
    | Thrown error =>
        if shouldFallback env
        then let (r', h4) := smartFallbackSelect ext ctx (snd r) h3 in
             (asResult (fst r'), h4)
        else (Thrown error, h3)
    end.
Proof.
  intros Hl Ha. unfold afterLookup in Hl.
  unfold selectNextQuestion, bind, ret.
  destruct (onStore ext _ h) as [avail' h1]. cbv beta iota in *.
  destruct (Nat.eqb_spec (List.length avail') 0) as [E | _].
  { destruct (initModel env h1). injection Hl as -> _ _.
    destruct avail; [contradiction | discriminate]. }
  cbv beta iota.
  destruct (initModel env h1) as [m' h2']. cbv beta iota in *.
  injection Hl as -> -> ->.
  destruct (aiSelect ext ctx avail h2) as [[[s | e] avail''] h3]; cbn [fst snd];
    [reflexivity |].
  destruct (shouldFallback env); reflexivity.
Qed.

Lemma aiSelect_call_error (ext : Externals) (ctx : SessionContext)
    (avail : list QuestionDocument) (h : Heap) (msg : string) :
  invoke ext = Thrown msg ->
  aiSelect ext ctx avail h = (Thrown msg, avail, afterTopics ext ctx h).
Proof.
  intros Hi. unfold aiSelect, bind, ret, afterTopics. rewrite Hi.
  destruct (onStore ext _ h). reflexivity.
Qed.

Lemma aiSelect_no_id (ext : Externals) (ctx : SessionContext)
    (avail : list QuestionDocument) (h : Heap) (response : string) :
  invoke ext = Returned response ->
  findSelected response avail = None ->
  aiSelect ext ctx avail h
  = smartFallbackSelect ext ctx avail (afterTopics ext ctx h).
Proof.
  intros Hi Hf. unfold aiSelect, bind, ret, afterTopics. rewrite Hi, Hf.
  destruct (onStore ext _ h). reflexivity.
Qed.

(** C5, amended: a failed model call, and in the evaluator also a reply
    without a score, yields the heuristic result when the fallback is
    enabled and is thrown to the caller when it is disabled; in the
    selector a reply that names no candidate yields the heuristic selection
    whatever the flag says. *)
Theorem model_failure_policy (env : Env) :
  (forall st answer question invoke msg,
     AnswerEvaluator.initModel env st <> None ->
     (invoke = Thrown msg \/
      exists response,
        invoke = Returned response /\
        AnswerEvaluator.parseScore response = None /\
        msg = "Could not extract score from AI response") ->
     fst (AnswerEvaluator.evaluateAnswer env st answer question invoke)
     = if shouldFallback env
       then Returned
              (AnswerEvaluator.withMethod
                 (FeedbackService.evaluateAnswer answer
                    (AnswerEvaluator.ruleQuestion question))
                 "fallback")
       else Thrown msg) /\
  (forall ext ctx h avail m h2 msg,
     afterLookup env ext ctx h = (avail, Some m, h2) ->
     avail <> [] ->
     invoke ext = Thrown msg ->
     selectNextQuestion env ext ctx h
     = if shouldFallback env
       then let (r, h4) :=
              smartFallbackSelect ext ctx avail (afterTopics ext ctx h2) in
            (asResult (fst r), h4)
       else (Thrown msg, afterTopics ext ctx h2)) /\
  (forall ext ctx h avail m h2 response sel avail' h4,
     afterLookup env ext ctx h = (avail, Some m, h2) ->
     avail <> [] ->
     invoke ext = Returned response ->
     findSelected response avail = None ->
     smartFallbackSelect ext ctx avail (afterTopics ext ctx h2)
     = (Returned sel, avail', h4) ->
     selectNextQuestion env ext ctx h = (Returned (Some sel), h4)).
Proof.
  split; [| split].
  - intros st answer question invoke msg Hm Hf.
    apply aiEvaluate_failure in Hf.
    unfold AnswerEvaluator.evaluateAnswer.
    destruct (AnswerEvaluator.initModel env st); [| contradiction].
    rewrite Hf. destruct (shouldFallback env); reflexivity.
  - intros ext ctx h avail m h2 msg Hl Ha Hi.
    rewrite (select_with_model _ _ _ _ _ _ _ Hl Ha).
    rewrite (aiSelect_call_error _ _ _ _ _ Hi). reflexivity.
  - intros ext ctx h avail m h2 response sel avail' h4 Hl Ha Hi Hf Hs.
    rewrite (select_with_model _ _ _ _ _ _ _ Hl Ha).
    rewrite (aiSelect_no_id _ _ _ _ _ Hi Hf), Hs. reflexivity.
Qed.

Lemma model_failure_policy_witness :
  fst (AnswerEvaluator.evaluateAnswer EvaluatorExamples.aiOnNoFallback None
         Examples.hoistedAnswer EvaluatorExamples.varQuestion
         (Returned "no idea"))
  = Thrown "Could not extract score from AI response" /\
  exists sel h4,
    selectNextQuestion EvaluatorExamples.aiOnNoFallback
      (SelectorExamples.externals (Returned "I cannot decide") (1 # 2))
      (SelectorExamples.context None [] [90; 85])
      SelectorExamples.emptyHeap
    = (Returned (Some sel), h4).
Proof.
  pose proof (model_failure_policy EvaluatorExamples.aiOnNoFallback)
    as (Heval & _ & Hsel).
  split.
  - apply (Heval None Examples.hoistedAnswer EvaluatorExamples.varQuestion
             (Returned "no idea") "Could not extract score from AI response").
    + discriminate.
    + right. exists "no idea". repeat split; reflexivity.
  - eexists. eexists.
    eapply (Hsel (SelectorExamples.externals (Returned "I cannot decide") (1 # 2))
              (SelectorExamples.context None [] [90; 85])
              SelectorExamples.emptyHeap).
    + vm_compute. reflexivity.
    + discriminate.
    + reflexivity.
    + vm_compute. reflexivity.
    + vm_compute. reflexivity.
Defined.

End SelectorFacts.

(* ===================================================================== *)
(** * Keywords under extension of the answer *)
(* ===================================================================== *)

Module KeywordFacts.
Import JSString JSStringFacts FeedbackService JSNum JSNumFacts FeedbackFacts.













End KeywordFacts.

(* ===================================================================== *)
(** * Agreement with the Standard Library's binary64 *)
(* ===================================================================== *)

Module Binary64Facts.
Import JSNum JSString FeedbackService JSNumFacts JSStringFacts FeedbackFacts Binary64Check.

(** The rounding agrees with the Standard Library's specification of
    IEEE-754 binary64 arithmetic on the operations of the worked
    examples. *)
Lemma fl_agrees_with_binary64 :
  SF2Q (b64div (b64 3) (b64 10)) = lit (3 # 10) /\
  SF2Q (b64div (b64 2) (b64 10)) = lit (2 # 10) /\
  SF2Q (b64div (b64 6) (b64 10)) = lit (6 # 10) /\
  SF2Q (b64mul (b64div (b64 1) (b64 3)) (b64 100)) = keywordScoreOf 1 3 /\
  SF2Q (b64mul (b64div (b64 7) (b64 100)) (b64 100)) = keywordScoreOf 7 100 /\
  SF2Q (b64mul (b64div (b64 23) (b64 40)) (b64 100)) = keywordScoreOf 23 40 /\
  SF2Q (b64add (b64add (b64mul (b64mul (b64div (b64 1) (b64 3)) (b64 100))
                               (b64div (b64 5) (b64 10)))
                       (b64mul (b64 40) (b64div (b64 3) (b64 10))))
               (b64mul (b64 50) (b64div (b64 2) (b64 10))))
  = fadd (fadd (fmul (keywordScoreOf 1 3) (lit (5 # 10)))
               (fmul (of_Z 40) (lit (3 # 10))))
         (fmul (of_Z 50) (lit (2 # 10))) /\
  SF2Q (b64add (b64mul (b64 57) (b64div (b64 6) (b64 10)))
               (b64mul (b64 3) (b64 4)))
  = fadd (fmul (of_Z 57) (lit (6 # 10))) (fmul (of_nat 3) 4).
Proof. vm_compute. repeat split; reflexivity. Qed.

(** On every input of the grid the rounding model computes what the
    Standard Library's IEEE-754 binary64 operations compute. *)
Lemma evaluator_agrees_with_binary64 :
  forallb agreesKeyword (ratios 40) = true /\
  forallb agreesOverall (list_prod (ratios 8) subScores) = true.
Proof. split; vm_compute; reflexivity. Qed.

(** The quotient is a binary64 quotient: 23 matches of 40 give
    57.49999999999999, returned as 57. *)
Lemma keywordScore_23_of_40 :
  (keywordScoreOf 23 40 < 575 # 10)%Q /\ Math_round (keywordScoreOf 23 40) = 57.
Proof. vm_compute. split; reflexivity. Qed.

End Binary64Facts.

(* ===================================================================== *)
(** * The question store *)
(* ===================================================================== *)

Module QuestionStoreFacts.
Import JSString QuestionStore QuestionStoreSpec JSStringFacts SelectorFacts.

(** ** The cache *)

(** X1: a cache loaded at a non-zero time is served unchanged, without a
    look at the table, while it is younger than five minutes; from five
    minutes on, and after [clearCache], the table is loaded again. *)
Theorem cache_lifetime (w w' : World) :
  now w <> 0 ->
  let st := snd (reload w) in
  (now w' - now w < 300000 ->
   getAllQuestions w' st = (map toDocument (questions w), st)) /\
  (300000 <= now w' - now w ->
   getAllQuestions w' st
   = (map toDocument (questions w'),
      {| questionsCache := Some (map toDocument (questions w'));
         lastCacheTime := Some (now w') |})) /\
  (forall st0,
     getAllQuestions w' (clearCache st0)
     = (map toDocument (questions w'),
        {| questionsCache := Some (map toDocument (questions w'));
           lastCacheTime := Some (now w') |})).
Proof.
  intros Hz. cbv zeta. unfold reload, getAllQuestions, cacheTimeout.
  cbn [snd questionsCache lastCacheTime clearCache].
  destruct (Z.eqb_spec (now w) 0) as [E | _]; [contradiction |].
  cbn [negb andb]. change (5 * 60 * 1000) with 300000.
  split; [| split].
  - intros H. destruct (Z.ltb_spec (now w' - now w) 300000); [reflexivity | lia].
  - intros H. destruct (Z.ltb_spec (now w' - now w) 300000); [lia | reflexivity].
  - intros st0. reflexivity.
Qed.

Lemma cache_lifetime_witness :
  fst (getAllQuestions (StoreExamples.later 299999) StoreExamples.loaded)
  = map toDocument SelectorExamples.table /\
  fst (getAllQuestions (StoreExamples.later 300000) StoreExamples.loaded)
  = map toDocument [SelectorExamples.row "q-new" "APIs" "easy"].
Proof.
  assert (Hz : now SelectorExamples.world <> 0) by discriminate.
  pose proof (cache_lifetime SelectorExamples.world (StoreExamples.later 299999) Hz)
    as (H1 & _ & _).
  pose proof (cache_lifetime SelectorExamples.world (StoreExamples.later 300000) Hz)
    as (_ & H2 & _).
  split.
  - unfold StoreExamples.loaded. rewrite H1; [reflexivity | vm_compute; reflexivity].
  - unfold StoreExamples.loaded. rewrite H2; [reflexivity | vm_compute; discriminate].
Defined.



(** ** Filtering *)

Lemma truthy_iff (s : option string) :
  truthy s = true <-> exists v, s = Some v /\ v <> "".
Proof.
  destruct s as [[| c v] |]; simpl; split; try discriminate.
  - intros (v & E & Hv). injection E as <-. contradiction.
  - intros _. eexists. split; [reflexivity | discriminate].
  - reflexivity.
  - intros (v & E & _). discriminate.
Qed.

Lemma filter_value_spec (f : option string) (x : string) :
  (truthy f && negb (String.eqb x (or_empty f))) = false <->
  (forall v, f = Some v -> v <> "" -> x = v).
Proof.
  destruct f as [[| c v] |]; simpl.
  - split; [intros _ v E Hv; injection E as <-; contradiction | reflexivity].
  - rewrite negb_false_iff, String.eqb_eq. split.
    + intros -> v' E _. injection E as <-. reflexivity.
    + intros H. apply (H _ eq_refl). discriminate.
  - split; [intros _ v E; discriminate | reflexivity].
Qed.

Lemma keep_passes (f : Filter) (q : QuestionDocument) :
  keep f q = true <-> passes f q.
Proof.
  unfold keep, passes.
  destruct (mem (id q) (f_excludeIds f)) eqn:Em.
  { split; [discriminate |]. intros (H & _). apply mem_In in Em. contradiction. }
  assert (Hex : ~ In (id q) (f_excludeIds f)).
  { intros H. apply mem_In in H. congruence. }
  destruct (truthy (f_role f)
            && negb (String.eqb (role (metadata q)) (or_empty (f_role f)))
            && negb (String.eqb (role (metadata q)) "any")) eqn:Er.
  { split; [discriminate |]. intros (_ & H & _). exfalso.
    apply andb_true_iff in Er. destruct Er as [Er Ea].
    apply andb_true_iff in Er. destruct Er as [Et Er].
    apply truthy_iff in Et. destruct Et as (v & Ev & Hv).
    rewrite Ev in Er. cbn [or_empty] in Er.
    apply negb_true_iff, String.eqb_neq in Er, Ea.
    destruct (H v Ev Hv); contradiction. }
  assert (Hrole : forall r, f_role f = Some r -> r <> "" ->
                            role (metadata q) = r \/ role (metadata q) = "any").
  { intros r Ev Hv. rewrite Ev in Er. cbn [or_empty] in Er.
    assert (Et : truthy (Some r) = true) by (apply truthy_iff; eauto).
    rewrite Et in Er. cbn [andb] in Er.
    apply andb_false_iff in Er. destruct Er as [Er | Er];
      apply negb_false_iff, String.eqb_eq in Er; auto. }
  destruct (truthy (f_difficulty f)
            && negb (String.eqb (difficulty (metadata q))
                                (or_empty (f_difficulty f)))) eqn:Ed.
  { split; [discriminate |]. intros (_ & _ & H & _). exfalso.
    apply not_false_iff_true in Ed. apply Ed, (proj2 (filter_value_spec _ _)), H. }
  pose proof (proj1 (filter_value_spec _ _) Ed) as Hd.
  destruct (truthy (f_category f)
            && negb (String.eqb (category (metadata q))
                                (or_empty (f_category f)))) eqn:Ec.
  { split; [discriminate |]. intros (_ & _ & _ & H). exfalso.
    apply not_false_iff_true in Ec. apply Ec, (proj2 (filter_value_spec _ _)), H. }
  pose proof (proj1 (filter_value_spec _ _) Ec) as Hc.
  split; [intros _ | reflexivity]. repeat split; assumption.
Qed.

(** X3: [getFilteredQuestions] returns the questions of the store, in
    their order, that are not excluded and meet every filter given; an
    empty-string filter value asks nothing, and a question of role "any"
    meets every role filter. *)
Theorem filtered_questions_characterised (w : World) (st : Store) (f : Filter) :
  let all := fst (getAllQuestions w st) in
  let result := fst (getFilteredQuestions w st f) in
  (forall q, In q result <-> In q all /\ passes f q) /\
  (exists keepIt, result = filter keepIt all) /\
  snd (getFilteredQuestions w st f) = snd (getAllQuestions w st).
Proof.
  cbv zeta. unfold getFilteredQuestions.
  destruct (getAllQuestions w st) as [all st']. cbn [fst snd].
  split; [| split].
  - intros q. rewrite filter_In, keep_passes. reflexivity.
  - exists (keep f). reflexivity.
  - reflexivity.
Qed.

(** ** Lookup by id *)

Lemma find_first_id (l : list QuestionDocument) (i : string) :
  match firstWithId i l with
  | Some q => exists l1 l2, l = (l1 ++ q :: l2)%list /\ id q = i /\
                            forall q', In q' l1 -> id q' <> i
  | None => forall q, In q l -> id q <> i
  end.
Proof.
  unfold firstWithId. induction l as [| x l IH]; cbn [find].
  - intros q [].
  - destruct (String.eqb_spec (id x) i) as [E | NE].
    + exists [], l. split; [reflexivity |]. split; [exact E | intros q' []].
    + destruct (find _ l) as [q |].
      * destruct IH as (l1 & l2 & -> & Hq & Hl1).
        exists (x :: l1), l2. split; [reflexivity |]. split; [exact Hq |].
        intros q' [<- | H]; [exact NE | apply Hl1, H].
      * intros q [<- | H]; [exact NE | apply IH, H].
Qed.

(** [getQuestionById] returns the first question of the store that
    carries the id, and nothing exactly when no question carries it. *)
Theorem getQuestionById_first (w : World) (st : Store) (i : string) :
  let all := fst (getAllQuestions w st) in
  match fst (getQuestionById w st i) with
  | Some q => exists l1 l2, all = (l1 ++ q :: l2)%list /\ id q = i /\
                            forall q', In q' l1 -> id q' <> i
  | None => forall q, In q all -> id q <> i
  end.
Proof.
  cbv zeta. unfold getQuestionById.
  destruct (getAllQuestions w st) as [all st']. cbn [fst].
  apply (find_first_id all i).
Qed.

Lemma find_unique (l : list QuestionDocument) (q : QuestionDocument) :
  NoDup (map id l) -> In q l -> firstWithId (id q) l = Some q.
Proof.
  unfold firstWithId. induction l as [| x l IH]; intros Hnd Hin; [destruct Hin |].
  cbn [find map] in *. inversion Hnd as [| ? ? Hx Hnd']; subst.
  destruct (String.eqb_spec (id x) (id q)) as [E | NE].
  - destruct Hin as [-> | Hin]; [reflexivity | exfalso].
    apply Hx. rewrite E. apply in_map, Hin.
  - destruct Hin as [-> | Hin]; [contradiction | apply IH; assumption].
Qed.

(** X4: when the ids of the table are distinct, every row is found again
    under its id once the table is loaded. *)
Theorem getQuestionById_round_trip (w : World) (st0 : Store) (row : Row) :
  NoDup (map r_id (questions w)) ->
  In row (questions w) ->
  fst (getQuestionById w (clearCache st0) (r_id row)) = Some (toDocument row).
Proof.
  intros Hnd Hin. unfold getQuestionById, getAllQuestions, reload.
  cbn [clearCache questionsCache lastCacheTime fst].
  apply (find_unique (map toDocument (questions w)) (toDocument row)).
  - rewrite map_map. exact Hnd.
  - apply in_map, Hin.
Qed.

Lemma getQuestionById_round_trip_witness :
  fst (getQuestionById SelectorExamples.world
         (clearCache StoreExamples.loaded) "q-hard")
  = Some (toDocument (SelectorExamples.row "q-hard" "JavaScript Fundamentals" "hard")).
Proof.
  apply (getQuestionById_round_trip SelectorExamples.world StoreExamples.loaded
           (SelectorExamples.row "q-hard" "JavaScript Fundamentals" "hard")).
  - repeat constructor; cbn; intuition discriminate.
  - cbn. tauto.
Defined.

End QuestionStoreFacts.

Module TopicFacts.
Import JSString QuestionStore QuestionStoreSpec JSStringFacts SelectorFacts QuestionStoreFacts.

(** ** Topics covered *)

Lemma set_add_In (t x : string) (s : list string) :
  In x (set_add t s) <-> x = t \/ In x s.
Proof.
  unfold set_add. destruct (mem t s) eqn:E.
  - apply mem_In in E. split; [auto |]. intros [-> | H]; assumption.
  - rewrite in_app_iff. cbn. intuition.
Qed.

Lemma NoDup_snoc {A} (t : A) (s : list A) :
  NoDup s -> ~ In t s -> NoDup (s ++ [t]).
Proof.
  induction 1 as [| x s Hx Hs IH]; intros Hn; cbn.
  - constructor; [intros [] | constructor].
  - constructor.
    + intros C. apply in_app_or in C. destruct C as [C | [C | []]].
      * contradiction.
      * subst. apply Hn. left. reflexivity.
    + apply IH. intros C. apply Hn. right. exact C.
Qed.

Lemma set_add_NoDup (t : string) (s : list string) :
  NoDup s -> NoDup (set_add t s).
Proof.
  intros H. unfold set_add. destruct (mem t s) eqn:E; [exact H |].
  apply NoDup_snoc; [exact H |]. intros C. apply mem_In in C. congruence.
Qed.

Lemma covered_fold (all : list QuestionDocument) (ids : list string)
    (acc : list string) :
  NoDup acc ->
  NoDup (fold_left (coveredStep all) ids acc) /\
  forall t, In t (fold_left (coveredStep all) ids acc) <->
            In t acc \/
            exists i q, In i ids /\ firstWithId i all = Some q /\
                        topic (metadata q) = t.
Proof.
  revert acc. induction ids as [| i ids IH]; intros acc Hnd; cbn [fold_left].
  - split; [exact Hnd |]. intros t. split; [auto |].
    intros [H | (i & q & [] & _)]. exact H.
  - assert (Hnd' : NoDup (coveredStep all acc i)).
    { unfold coveredStep. destruct (find _ all); [apply set_add_NoDup |]; exact Hnd. }
    destruct (IH _ Hnd') as [N M]. split; [exact N |].
    intros t. rewrite M. unfold coveredStep, firstWithId.
    destruct (find (fun q => String.eqb (id q) i) all) as [q |] eqn:F.
    + rewrite set_add_In. split.
      * intros [[-> | H] | (j & q' & Hj & Fj & Ht)].
        -- right. exists i, q. cbn. auto.
        -- left. exact H.
        -- right. exists j, q'. cbn. auto.
      * intros [H | (j & q' & [<- | Hj] & Fj & Ht)].
        -- left. right. exact H.
        -- left. left. rewrite F in Fj. injection Fj as <-. symmetry. exact Ht.
        -- right. exists j, q'. auto.
    + split.
      * intros [H | (j & q' & Hj & Fj & Ht)]; [left; exact H |].
        right. exists j, q'. cbn. auto.
      * intros [H | (j & q' & [<- | Hj] & Fj & Ht)]; [left; exact H | congruence |].
        right. exists j, q'. auto.
Qed.

(** X5: the topics covered are listed without repetition, and a topic is
    listed exactly when it is the topic of the first stored question found
    under one of the answered ids; ids the store does not know add
    nothing. *)
Theorem topics_covered_characterised (w : World) (st : Store) (ids : list string) :
  let all := fst (getAllQuestions w st) in
  let topics := fst (getSessionTopicsCovered w st ids) in
  NoDup topics /\
  (forall t, In t topics <->
             exists i q, In i ids /\ firstWithId i all = Some q /\
                         topic (metadata q) = t) /\
  ((forall i, In i ids -> firstWithId i all = None) -> topics = []).
Proof.
  cbv zeta. unfold getSessionTopicsCovered.
  destruct (getAllQuestions w st) as [all st']. cbn [fst].
  destruct (covered_fold all ids [] (NoDup_nil _)) as [N M].
  fold (coveredStep all). split; [exact N |]. split.
  - intros t. rewrite M. cbn. intuition.
  - intros H.
    destruct (fold_left (coveredStep all) ids []) as [| t l] eqn:E; [reflexivity |].
    exfalso. assert (Ht : In t (t :: l)) by (left; reflexivity).
    apply M in Ht. destruct Ht as [[] | (i & q & Hi & Fi & _)].
    rewrite (H i Hi) in Fi. discriminate.
Qed.

(** ** Grouping by topic *)

Lemma ofTopic_snoc (t : string) (p : list QuestionDocument) (q : QuestionDocument) :
  ofTopic t (p ++ [q])
  = (ofTopic t p ++ if String.eqb (topic (metadata q)) t then [q] else [])%list.
Proof. unfold ofTopic. rewrite filter_app. reflexivity. Qed.

Lemma ofTopic_In (t : string) (p : list QuestionDocument) (q : QuestionDocument) :
  In q (ofTopic t p) <-> In q p /\ topic (metadata q) = t.
Proof. unfold ofTopic. rewrite filter_In, String.eqb_eq. reflexivity. Qed.

Lemma ownArray_snoc (t : string) (p : list QuestionDocument) (q : QuestionDocument) :
  ownArray t (p ++ [q])
  = if String.eqb t (topic (metadata q))
    then Some (match ownArray t p with
               | Some l => (l ++ [q])%list
               | None => [q]
               end)
    else ownArray t p.
Proof.
  unfold ownArray. rewrite ofTopic_snoc.
  destruct (String.eqb_spec t (topic (metadata q))) as [E | NE].
  - subst t. rewrite String.eqb_refl.
    destruct (ofTopic (topic (metadata q)) p) as [| x l]; reflexivity.
  - assert (F : String.eqb (topic (metadata q)) t = false)
      by (apply String.eqb_neq; congruence).
    rewrite F, app_nil_r. reflexivity.
Qed.

(** The loop keeps the object equal to the grouping of the questions
    done, and throws at the first question whose topic is an inherited
    property name. *)
Lemma group_all_spec (rest : list QuestionDocument) :
  forall (done : list QuestionDocument) (grouped : Grouped),
    (forall t, grouped t = ownArray t done) ->
    (forall q, In q done -> ~ In (topic (metadata q)) JSObject.inheritedNames) ->
    match group_all rest grouped with
    | Returned result =>
        (forall q, In q (done ++ rest)%list ->
                   ~ In (topic (metadata q)) JSObject.inheritedNames) /\
        (forall t, result t = ownArray t (done ++ rest)%list)
    | Thrown message =>
        message = "grouped[topic].push is not a function" /\
        exists q, In q rest /\ In (topic (metadata q)) JSObject.inheritedNames
    end.
Proof.
  induction rest as [| q rest IH]; intros done grouped Hg Hd.
  - cbn [group_all]. rewrite app_nil_r. split; assumption.
  - cbn [group_all]. unfold group_add.
    assert (Step : forall grouped',
              (forall t, grouped' t = ownArray t (done ++ [q])%list) ->
              ~ In (topic (metadata q)) JSObject.inheritedNames ->
              match group_all rest grouped' with
              | Returned result =>
                  (forall q0, In q0 (done ++ q :: rest)%list ->
                              ~ In (topic (metadata q0)) JSObject.inheritedNames) /\
                  (forall t, result t = ownArray t (done ++ q :: rest)%list)
              | Thrown message =>
                  message = "grouped[topic].push is not a function" /\
                  exists q0, In q0 (q :: rest) /\
                             In (topic (metadata q0)) JSObject.inheritedNames
              end).
    { intros grouped' Hg' Hq.
      specialize (IH (done ++ [q])%list grouped' Hg').
      rewrite <- app_assoc in IH. cbn [app] in IH.
      assert (Hd' : forall q0, In q0 (done ++ [q])%list ->
                               ~ In (topic (metadata q0)) JSObject.inheritedNames).
      { intros q0 H0. apply in_app_or in H0.
        destruct H0 as [H0 | [<- | []]]; [apply Hd, H0 | exact Hq]. }
      specialize (IH Hd').
      destruct (group_all rest grouped') as [result | message]; [exact IH |].
      destruct IH as [Em (q0 & H0 & I0)]. split; [exact Em |].
      exists q0. split; [right; exact H0 | exact I0]. }
    rewrite Hg. destruct (ownArray (topic (metadata q)) done) as [l |] eqn:Eo.
    + apply Step.
      * intros t. rewrite ownArray_snoc. unfold setProperty.
        destruct (String.eqb t (topic (metadata q))) eqn:Et.
        -- apply String.eqb_eq in Et. subst t. rewrite Eo. reflexivity.
        -- apply Hg.
      * unfold ownArray in Eo.
        destruct (ofTopic (topic (metadata q)) done) as [| x l'] eqn:F;
          [discriminate |].
        assert (Hx : In x (ofTopic (topic (metadata q)) done))
          by (rewrite F; left; reflexivity).
        apply ofTopic_In in Hx. destruct Hx as [Hx Ex].
        rewrite <- Ex. apply Hd, Hx.
    + destruct (mem (topic (metadata q)) JSObject.inheritedNames) eqn:Em.
      * split; [reflexivity |]. exists q. split; [left; reflexivity |].
        apply mem_In, Em.
      * apply Step.
        -- intros t. rewrite ownArray_snoc. unfold setProperty.
           destruct (String.eqb t (topic (metadata q))) eqn:Et.
           ++ apply String.eqb_eq in Et. subst t. rewrite Eo. reflexivity.
           ++ apply Hg.
        -- intros C. apply mem_In in C. congruence.
Qed.

(** X6: [getQuestionsByTopic] throws a [TypeError] exactly when a question
    that meets the role filter has a topic that is an inherited property
    name ([constructor], [toString], ...).  Otherwise the object returned
    owns, under each topic of those questions, exactly the questions of
    that topic in their order, and owns nothing else. *)
Theorem questions_grouped_by_topic (w : World) (st : Store) (role : option string) :
  let questions :=
    fst (getFilteredQuestions w st
           {| f_role := role; f_difficulty := None; f_category := None;
              f_excludeIds := [] |}) in
  match fst (getQuestionsByTopic w st role) with
  | Returned grouped =>
      (forall q, In q questions ->
                 ~ In (topic (metadata q)) JSObject.inheritedNames) /\
      (forall t, grouped t = ownArray t questions)
  | Thrown message =>
      message = "grouped[topic].push is not a function" /\
      exists q, In q questions /\
                In (topic (metadata q)) JSObject.inheritedNames
  end.
Proof.
  cbv zeta. unfold getQuestionsByTopic.
  destruct (getFilteredQuestions w st _) as [questions st']. cbn [fst].
  apply (group_all_spec questions [] emptyObject).
  - intros t. reflexivity.
  - intros q [].
Qed.

End TopicFacts.

(* ===================================================================== *)
(** * The evaluator on every path *)
(* ===================================================================== *)

Module EvaluatorPathFacts.
Import JSNum JSString Config QuestionStore AnswerEvaluator QuestionShapes.
Import JSNumFacts JSStringFacts FeedbackFacts EvaluatorFacts EvaluatorSpec.

(** ** Splitting and joining at commas *)

Lemma split_char_no_comma (s : string) :
  Forall (fun p => no_comma p = true) (split_char "," s).
Proof.
  induction s as [| c s IH]; cbn [split_char].
  - constructor; [reflexivity | constructor].
  - destruct (Ascii.eqb c ",") eqn:E.
    + constructor; [reflexivity | exact IH].
    + destruct (split_char "," s) as [| h t]; [inversion IH; constructor;
        [unfold no_comma; cbn; rewrite E; reflexivity | constructor] |].
      inversion IH as [| ? ? Hh Ht]; subst. constructor; [| exact Ht].
      unfold no_comma in *. cbn [every]. rewrite E, Hh. reflexivity.
Qed.

Lemma split_char_whole (x : string) :
  no_comma x = true -> split_char "," x = [x].
Proof.
  unfold no_comma. induction x as [| c x IH]; cbn [every split_char];
    [reflexivity |].
  intros H. apply andb_prop in H as [Hc Hx].
  apply negb_true_iff in Hc. rewrite Hc, (IH Hx). reflexivity.
Qed.

Lemma split_char_app (x rest : string) :
  no_comma x = true ->
  split_char "," (x ++ String "," rest) = x :: split_char "," rest.
Proof.
  unfold no_comma. induction x as [| c x IH]; cbn [every split_char append].
  - intros _. reflexivity.
  - intros H. apply andb_prop in H as [Hc Hx].
    apply negb_true_iff in Hc. rewrite Hc, (IH Hx). reflexivity.
Qed.

Lemma split_join (l : list string) :
  l <> [] -> Forall (fun p => no_comma p = true) l ->
  split_char "," (join "," l) = l.
Proof.
  induction l as [| x l IH]; [contradiction |].
  intros _ H. inversion H as [| ? ? Hx Hl]; subst.
  destruct l as [| y l].
  - apply split_char_whole, Hx.
  - change (join "," (x :: y :: l)) with (x ++ String "," (join "," (y :: l))).
    rewrite split_char_app by exact Hx.
    rewrite IH; [reflexivity | discriminate | exact Hl].
Qed.

Lemma toLowerCase_join (l : list string) :
  toLowerCase (join "," l) = join "," (map toLowerCase l).
Proof.
  induction l as [| x l IH]; [reflexivity |].
  destruct l as [| y l]; [reflexivity |].
  change (join "," (x :: y :: l)) with (x ++ String "," (join "," (y :: l))).
  change (join "," (map toLowerCase (x :: y :: l)))
    with (toLowerCase x ++ String "," (join "," (map toLowerCase (y :: l)))).
  rewrite toLowerCase_append. cbn [toLowerCase]. rewrite IH. reflexivity.
Qed.

Lemma no_comma_toLowerCase (s : string) :
  no_comma (toLowerCase s) = no_comma s.
Proof.
  unfold no_comma. induction s as [| c s IH]; [reflexivity |].
  cbn [toLowerCase every]. rewrite lower_char_comma, IH. reflexivity.
Qed.

Lemma no_comma_trimStart (s : string) :
  no_comma s = true -> no_comma (trimStart s) = true.
Proof.
  unfold no_comma. induction s as [| c s IH]; [reflexivity |].
  cbn [every trimStart]. intros H. destruct (is_space c); [| exact H].
  apply andb_prop in H as [_ H]. exact (IH H).
Qed.

Lemma no_comma_trimEnd (s : string) :
  no_comma s = true -> no_comma (trimEnd s) = true.
Proof.
  unfold no_comma. induction s as [| c s IH]; [reflexivity |].
  cbn [every trimEnd]. intros H. apply andb_prop in H as [Hc H].
  destruct (is_space c && is_empty (trimEnd s)); [reflexivity |].
  cbn [every]. rewrite Hc, (IH H). reflexivity.
Qed.

Lemma no_comma_trim (s : string) : no_comma s = true -> no_comma (trim s) = true.
Proof. intros H. apply no_comma_trimEnd, no_comma_trimStart, H. Qed.

(** ** Lower case and trimming commute *)

Lemma is_space_lower_char (c : ascii) : is_space (lower_char c) = is_space c.
Proof. destruct c as [[] [] [] [] [] [] [] []]; reflexivity. Qed.

Lemma is_empty_toLowerCase (s : string) : is_empty (toLowerCase s) = is_empty s.
Proof. destruct s; reflexivity. Qed.

Lemma toLowerCase_trimStart (s : string) :
  toLowerCase (trimStart s) = trimStart (toLowerCase s).
Proof.
  induction s as [| c s IH]; [reflexivity |].
  cbn [trimStart toLowerCase]. rewrite is_space_lower_char.
  destruct (is_space c); [exact IH | reflexivity].
Qed.

Lemma toLowerCase_trimEnd (s : string) :
  toLowerCase (trimEnd s) = trimEnd (toLowerCase s).
Proof.
  induction s as [| c s IH]; [reflexivity |].
  cbn [trimEnd toLowerCase]. rewrite is_space_lower_char.
  rewrite <- IH, is_empty_toLowerCase.
  destruct (is_space c && is_empty (trimEnd s)); reflexivity.
Qed.

Lemma toLowerCase_trim (s : string) :
  toLowerCase (trim s) = trim (toLowerCase s).
Proof. unfold trim. rewrite toLowerCase_trimEnd, toLowerCase_trimStart. reflexivity. Qed.

Lemma trim_idem (s : string) : trim (trim s) = trim s.
Proof.
  destruct (trim_trimmed s) as [Hs He]. unfold trim at 1.
  rewrite Hs. exact He.
Qed.

(** ** Keywords read through a store document *)

Lemma keywords_via_document (s : string) :
  map trim (split_char ","
              (toLowerCase (join "," (map trim (split_char "," s)))))
  = map trim (split_char "," (toLowerCase s)).
Proof.
  rewrite toLowerCase_join, split_join.
  - rewrite split_char_toLowerCase, !map_map. apply map_ext.
    intros p. rewrite toLowerCase_trim. apply trim_idem.
  - pose proof (split_char_nonempty "," s) as NE.
    destruct (split_char "," s); [contradiction | discriminate].
  - rewrite map_map. apply Forall_map.
    eapply Forall_impl; [| apply split_char_no_comma].
    intros p Hp. cbn beta. rewrite no_comma_toLowerCase. apply no_comma_trim, Hp.
Qed.

Lemma or_empty_or_else (s : string) : or_empty (or_else (Some s) None) = s.
Proof. unfold or_else, truthy. destruct s; reflexivity. Qed.

Lemma expectedKeywords_shapes (row : Row) :
  FeedbackService.expectedKeywords (ruleQuestion (docQuestion (toDocument row)))
  = FeedbackService.expectedKeywords (tableQuestion row)
  /\ FeedbackService.expectedKeywords (ruleQuestion (rowQuestion row))
     = FeedbackService.expectedKeywords (tableQuestion row).
Proof.
  unfold FeedbackService.expectedKeywords, ruleQuestion, docQuestion,
    rowQuestion, tableQuestion, toDocument.
  cbn [FeedbackService.expected_keywords AnswerEvaluator.metadata
       AnswerEvaluator.expected_keywords QuestionStore.metadata
       QuestionStore.expectedKeywords option_map or_empty].
  split.
  - destruct (r_expected_keywords row) as [s |].
    + rewrite or_empty_or_else. apply keywords_via_document.
    + reflexivity.
  - destruct (r_expected_keywords row) as [s |]; [| reflexivity].
    unfold or_else, truthy. destruct s; reflexivity.
Qed.

Lemma evaluateAnswer_keywords (answer : option string)
    (q1 q2 : FeedbackService.Question) :
  FeedbackService.expectedKeywords q1 = FeedbackService.expectedKeywords q2 ->
  FeedbackService.evaluateAnswer answer q1 = FeedbackService.evaluateAnswer answer q2.
Proof. intros H. unfold FeedbackService.evaluateAnswer. rewrite H. reflexivity. Qed.

(** X7: a question gives the same evaluation whether the evaluator reads
    it as a document of the store, whose keyword list was split, trimmed
    and is joined again, or as the row of the table it was loaded from;
    and the rule part is what the rule-based service makes of the row. *)
Theorem document_and_row_evaluate_alike
    (env : Env) (st : State) (answer : option string) (row : Row)
    (invoke : outcome string) :
  evaluateAnswer env st answer (docQuestion (toDocument row)) invoke
  = evaluateAnswer env st answer (rowQuestion row) invoke
  /\ FeedbackService.evaluateAnswer answer (ruleQuestion (docQuestion (toDocument row)))
     = FeedbackService.evaluateAnswer answer (tableQuestion row).
Proof.
  destruct (expectedKeywords_shapes row) as [Hd Hr].
  assert (E : FeedbackService.evaluateAnswer answer
                (ruleQuestion (docQuestion (toDocument row)))
              = FeedbackService.evaluateAnswer answer
                  (ruleQuestion (rowQuestion row))).
  { apply evaluateAnswer_keywords. congruence. }
  split.
  - unfold evaluateAnswer. rewrite E. reflexivity.
  - apply evaluateAnswer_keywords, Hd.
Qed.

(** ** The score read from the model's reply *)

Lemma match_digits_none (s : string) :
  match_digits s = None <-> no_digit s = true.
Proof.
  unfold no_digit. induction s as [| c s IH]; cbn [match_digits every].
  - tauto.
  - destruct (is_digit c); cbn [negb andb].
    + split; discriminate.
    + exact IH.
Qed.

Lemma match_digits_skip (pre s : string) :
  no_digit pre = true -> match_digits (pre ++ s) = match_digits s.
Proof.
  unfold no_digit. induction pre as [| c pre IH]; cbn [every append match_digits].
  - reflexivity.
  - intros H. apply andb_prop in H as [Hc H]. apply negb_true_iff in Hc.
    rewrite Hc. exact (IH H).
Qed.

Lemma take_digits_app (d rest : string) :
  all_digits d = true -> starts_with_digit rest = false ->
  take_digits (d ++ rest) = d.
Proof.
  unfold all_digits. intros Hd Hr. induction d as [| c d IH].
  - destruct rest as [| c rest]; [reflexivity |].
    cbn in Hr |- *. rewrite Hr. reflexivity.
  - cbn [every] in Hd. apply andb_prop in Hd as [Hc Hd].
    cbn [append take_digits]. rewrite Hc, (IH Hd). reflexivity.
Qed.

Lemma match_digits_run (d rest : string) :
  all_digits d = true -> d <> "" -> starts_with_digit rest = false ->
  match_digits (d ++ rest) = Some d.
Proof.
  intros Hd NE Hr. destruct d as [| c d]; [contradiction |].
  pose proof (take_digits_app _ _ Hd Hr) as T.
  unfold all_digits in Hd. cbn [every] in Hd. apply andb_prop in Hd as [Hc _].
  cbn [append match_digits]. rewrite Hc. f_equal. exact T.
Qed.

Lemma is_digit_value (c : ascii) :
  is_digit c = true -> 0 <= Z.of_nat (nat_of_ascii c) - 48 <= 9.
Proof.
  unfold is_digit. intros H. apply andb_prop in H as [H1 H2].
  apply Nat.leb_le in H1, H2. lia.
Qed.

Lemma parse_digits_from_nonneg (d : string) (acc : Z) :
  all_digits d = true -> 0 <= acc -> acc <= parse_digits_from acc d.
Proof.
  unfold all_digits. revert acc. induction d as [| c d IH]; intros acc Hd Ha.
  - cbn. lia.
  - cbn [every] in Hd. apply andb_prop in Hd as [Hc Hd].
    cbn [parse_digits_from]. pose proof (is_digit_value c Hc).
    specialize (IH (10 * acc + (Z.of_nat (nat_of_ascii c) - 48)) Hd). lia.
Qed.

(** X8: the score is read from the first run of decimal digits of the
    reply, whatever precedes and follows it, and capped at 100; a sign or
    a decimal part is never read, and the lower clamp never acts.  No
    score is read exactly when the reply has no digit. *)
Theorem parseScore_first_digits (pre d rest : string) :
  no_digit pre = true -> all_digits d = true -> d <> "" ->
  starts_with_digit rest = false ->
  parseScore (pre ++ d ++ rest) = Some (Z.min 100 (parseInt d))
  /\ 0 <= parseInt d
  /\ (forall s, parseScore s = None <-> no_digit s = true).
Proof.
  intros Hp Hd NE Hr.
  assert (N : 0 <= parseInt d).
  { unfold parseInt. apply parse_digits_from_nonneg; [exact Hd | lia]. }
  split; [| split].
  - unfold parseScore. rewrite match_digits_skip by exact Hp.
    rewrite match_digits_run by assumption. f_equal. lia.
  - exact N.
  - intros s. unfold parseScore. rewrite <- match_digits_none.
    destruct (match_digits s); split; congruence.
Qed.

Lemma parseScore_first_digits_witness :
  parseScore "Score: -85.5/100" = Some 85
  /\ parseScore "I would rate this 250 points" = Some 100
  /\ parseScore "excellent" = None.
Proof.
  destruct (parseScore_first_digits "Score: -" "85" ".5/100")
    as (H1 & _ & H3); [reflexivity | reflexivity | discriminate | reflexivity |].
  destruct (parseScore_first_digits "I would rate this " "250" " points")
    as (H2 & _ & _); [reflexivity | reflexivity | discriminate | reflexivity |].
  split; [exact H1 | split; [exact H2 |]].
  apply (proj2 (H3 "excellent")). reflexivity.
Defined.

(** ** Every path of the evaluator *)

Lemma blendSpec_between (M H : Z) :
  Z.min M H <= blendSpec M H <= Z.max M H.
Proof.
  unfold blendSpec.
  assert (E : ((1 # 2) * inject_Z M + (1 # 2) * inject_Z H + (1 # 2)
               == inject_Z (M + H + 1) * (1 # 2))%Q).
  { rewrite !inject_Z_plus. change (inject_Z 1) with 1%Q. ring. }
  rewrite E.
  pose proof (Qfloor_le (inject_Z (M + H + 1) * (1 # 2))) as Hle.
  pose proof (Qlt_floor (inject_Z (M + H + 1) * (1 # 2))) as Hlt.
  set (f := Qfloor (inject_Z (M + H + 1) * (1 # 2))) in *.
  assert (A : 2 * f <= M + H + 1).
  { rewrite Zle_Qle. rewrite inject_Z_mult. change (inject_Z 2) with 2%Q. lra. }
  assert (B : M + H + 1 < 2 * (f + 1)).
  { rewrite Zlt_Qlt. rewrite inject_Z_mult. change (inject_Z 2) with 2%Q. lra. }
  lia.
Qed.

(** X9: whatever the configuration, the state and the model's reply, a
    returned evaluation has a score from 0 to 100, the rule evaluation's
    remarks and keyword lists, and one of three methods; without a blend
    its score is the rule score, with a blend it lies between the model's
    score and the rule score.  The call throws only when a model exists,
    the fallback is switched off and the model failed. *)
Theorem evaluation_outcomes
    (env : Env) (st : State) (answer : option string) (question : Question)
    (invoke : outcome string) :
  let rule := FeedbackService.evaluateAnswer answer (ruleQuestion question) in
  match fst (evaluateAnswer env st answer question invoke) with
  | Returned r =>
      0 <= score r <= 100 /\
      feedback r = FeedbackService.feedback rule /\
      strengths r = FeedbackService.strengths rule /\
      weaknesses r = FeedbackService.weaknesses rule /\
      suggestions r = FeedbackService.suggestions rule /\
      matchedKeywords r = FeedbackService.matchedKeywords rule /\
      missedKeywords r = FeedbackService.missedKeywords rule /\
      ((evaluationMethod r = "rules" /\ initModel env st = None /\
        score r = FeedbackService.score rule)
       \/ (evaluationMethod r = "fallback" /\ initModel env st <> None /\
           shouldFallback env = true /\ score r = FeedbackService.score rule /\
           exists e, aiEvaluate invoke = Thrown e)
       \/ (evaluationMethod r = "ai-blended" /\ initModel env st <> None /\
           exists response M,
             invoke = Returned response /\ parseScore response = Some M /\
             Z.min M (FeedbackService.score rule) <= score r
               <= Z.max M (FeedbackService.score rule)))
  | Thrown e =>
      initModel env st <> None /\ shouldFallback env = false /\
      aiEvaluate invoke = Thrown e
  end.
Proof.
  intros rule. unfold evaluateAnswer. fold rule.
  pose proof (score_bounds answer (ruleQuestion question)) as Hrule.
  fold rule in Hrule.
  destruct (initModel env st) as [m |] eqn:Em.
  - destruct (aiEvaluate invoke) as [ai | e] eqn:Eai.
    + cbn [fst]. unfold aiEvaluate in Eai.
      destruct invoke as [response | e]; [| discriminate].
      destruct (parseScore response) as [M |] eqn:EM; [| discriminate].
      injection Eai as <-.
      unfold blendEvaluations.
      cbn [score feedback strengths weaknesses suggestions matchedKeywords
           missedKeywords evaluationMethod ai_score].
      pose proof (parseScore_range _ _ EM) as HM.
      rewrite blend_exact by lia.
      pose proof (blendSpec_between M (FeedbackService.score rule)) as Hb.
      repeat split; try lia.
      * unfold rule, FeedbackService.evaluateAnswer.
        cbn [FeedbackService.feedback].
        rewrite generateFeedbackText_nonempty. reflexivity.
      * right. right. split; [reflexivity |]. split; [discriminate |].
        exists response, M. repeat split; try assumption; lia.
    + destruct (shouldFallback env) eqn:Ef; cbn [fst].
      * unfold withMethod.
        cbn [score feedback strengths weaknesses suggestions matchedKeywords
             missedKeywords evaluationMethod].
        repeat split; try lia.
        right. left. repeat split; try discriminate. exists e. reflexivity.
      * repeat split. discriminate.
  - cbn [fst]. unfold withMethod.
    cbn [score feedback strengths weaknesses suggestions matchedKeywords
         missedKeywords evaluationMethod].
    repeat split; try lia. left. repeat split.
Qed.

(** X10: the model is made once and kept: after a call made while the
    model was switched on, a later call blends with the model's score
    although the model is switched off by then; with no model yet, the
    later call would have used the rules alone. *)
Theorem model_outlives_switch
    (env1 env2 : Env) (answer1 answer2 : option string)
    (question1 question2 : Question) (invoke1 : outcome string)
    (response : string) (M : Z) :
  isAIEnabled env1 = true -> isAIEnabled env2 = false ->
  parseScore response = Some M ->
  let st1 := snd (evaluateAnswer env1 None answer1 question1 invoke1) in
  (exists r, fst (evaluateAnswer env2 st1 answer2 question2 (Returned response))
             = Returned r /\ evaluationMethod r = "ai-blended")
  /\ (exists r, fst (evaluateAnswer env2 None answer2 question2 (Returned response))
                = Returned r /\ evaluationMethod r = "rules")
  /\ snd (evaluateAnswer env2 st1 answer2 question2 (Returned response)) = st1.
Proof.
  intros H1 H2 HM st1.
  assert (E1 : st1 = createModel env1 (1 # 10) 60).
  { unfold st1, evaluateAnswer, initModel. rewrite H1.
    unfold createModel. rewrite H1. cbn [negb].
    destruct (aiEvaluate invoke1); [reflexivity |].
    destruct (shouldFallback env1); reflexivity. }
  unfold createModel in E1. rewrite H1 in E1. cbn [negb] in E1.
  rewrite E1. unfold evaluateAnswer, initModel, aiEvaluate.
  rewrite H2, HM. cbn [fst snd].
  split; [| split].
  - eexists. split; reflexivity.
  - eexists. split; reflexivity.
  - reflexivity.
Qed.

Lemma model_outlives_switch_witness :
  exists r,
    fst (evaluateAnswer
           {| AI_ENABLED := Some "false"; AI_FALLBACK_TO_RULES := None |}
           (snd (evaluateAnswer EvaluatorExamples.aiOn None
                   Examples.hoistedAnswer EvaluatorExamples.varQuestion
                   (Thrown "connect ECONNREFUSED")))
           Examples.hoistedAnswer EvaluatorExamples.varQuestion
           (Returned "80"))
    = Returned r /\ evaluationMethod r = "ai-blended".
Proof.
  pose proof (model_outlives_switch EvaluatorExamples.aiOn
                {| AI_ENABLED := Some "false"; AI_FALLBACK_TO_RULES := None |}
                Examples.hoistedAnswer Examples.hoistedAnswer
                EvaluatorExamples.varQuestion EvaluatorExamples.varQuestion
                (Thrown "connect ECONNREFUSED") "80" 80
                eq_refl eq_refl eq_refl) as (H & _).
  exact H.
Defined.

End EvaluatorPathFacts.

(* ===================================================================== *)
(** * Remarks, ceilings and session tallies *)
(* ===================================================================== *)

Module RemarkFacts.
Import JSNum JSString FeedbackService FeedbackSpec.
Import JSNumFacts JSStringFacts FeedbackFacts SessionFacts SessionSpec.

(** ** Words *)

Lemma length_append_one (cur : string) (c : ascii) :
  (0 <? String.length (cur ++ String c ""))%nat = true.
Proof. rewrite length_append. apply Nat.ltb_lt. cbn [String.length]. lia. Qed.

Lemma split_ws_from_runs (s cur : string) (in_sep : bool) :
  (in_sep = true -> cur = "") ->
  List.length (filter (fun w => (0 <? String.length w)%nat)
                      (split_ws_from s cur in_sep))
  = ((if (0 <? String.length cur)%nat then 1 else 0)
     + count_runs_from is_word_char s (0 <? String.length cur))%nat.
Proof.
  revert cur in_sep. induction s as [| c s IH]; intros cur in_sep Hinv.
  - cbn [split_ws_from filter count_runs_from].
    destruct (0 <? String.length cur)%nat; reflexivity.
  - cbn [split_ws_from count_runs_from]. unfold is_word_char at 1.
    destruct (is_space c) eqn:Ec; cbn [negb].
    + destruct in_sep.
      * rewrite (Hinv eq_refl). rewrite IH by reflexivity. reflexivity.
      * cbn [filter].
        destruct (0 <? String.length cur)%nat; cbn [List.length];
          rewrite IH by reflexivity; reflexivity.
    + rewrite IH by discriminate. rewrite length_append_one.
      destruct (0 <? String.length cur)%nat; lia.
Qed.

(** X11: the word count is the number of maximal runs of characters that
    are not white space. *)
Theorem wordCount_counts_runs (text : string) :
  wordCountOf text = count_runs is_word_char text.
Proof.
  unfold wordCountOf, split_ws, count_runs.
  rewrite split_ws_from_runs by reflexivity. reflexivity.
Qed.

(** ** Remarks *)



(** ** Ceilings of the score *)

Lemma lit_half_nonneg : (0 <= lit (5 # 10))%Q.
Proof. vm_compute. discriminate. Qed.

Lemma overallScoreOf_mono (kw kw' : Q) (len str : Z) :
  (kw <= kw')%Q -> overallScoreOf kw len str <= overallScoreOf kw' len str.
Proof.
  intros H. unfold overallScoreOf. apply Math_round_mono.
  unfold fadd. apply fl_mono. apply Qplus_le_compat; [| apply Qle_refl].
  apply fl_mono. apply Qplus_le_compat; [| apply Qle_refl].
  unfold fmul. apply fl_mono.
  apply Qmult_le_compat_r; [exact H | apply lit_half_nonneg].
Qed.

Lemma keywordScoreOf_none (n : nat) : (keywordScoreOf 0 n == 0)%Q.
Proof.
  unfold keywordScoreOf. destruct (0 <? n)%nat; [| reflexivity].
  unfold fmul, fdiv.
  assert (E0 : (of_nat 0 == 0)%Q) by reflexivity.
  assert (E : (of_nat 0 / of_nat n == 0)%Q).
  { rewrite E0. unfold Qdiv. ring. }
  rewrite E.
  assert (F0 : (fl 0 == 0)%Q) by reflexivity.
  rewrite F0.
  assert (Z0 : (0 * 100 == 0)%Q) by ring.
  rewrite Z0. exact F0.
Qed.

Lemma keywordScoreOf_all (n : nat) :
  (0 < n)%nat -> (keywordScoreOf n n == 100)%Q.
Proof.
  intros Hn. unfold keywordScoreOf.
  destruct (Nat.ltb_spec 0 n) as [_ | ?]; [| lia].
  unfold fmul, fdiv. pose proof (of_nat_pos n Hn) as P.
  assert (E : (of_nat n / of_nat n == 1)%Q).
  { field. lra. }
  rewrite E.
  assert (F1 : (fl 1 == 1)%Q) by reflexivity.
  rewrite F1.
  assert (M : (1 * 100 == 100)%Q) by ring.
  rewrite M. reflexivity.
Qed.

Lemma missed_none_matched_all (text : string) (kws : list string) :
  missed text kws = [] -> List.length (matched text kws) = List.length kws.
Proof.
  intros H. pose proof (filter_partition (fun k => includes text k) kws) as P.
  apply Permutation_length in P. unfold missed in H. rewrite H in P.
  rewrite length_app in P. cbn in P. unfold matched. lia.
Qed.

Lemma expectedKeywords_length (question : Question) :
  (0 < List.length (expectedKeywords question))%nat.
Proof.
  unfold expectedKeywords. rewrite length_map.
  pose proof (split_char_nonempty ","
                (toLowerCase (or_empty (expected_keywords question)))) as NE.
  destruct (split_char _ _); [contradiction | cbn; lia].
Qed.

(** X13: what each part of the score can cost.  With no keyword matched
    the score is at most 50, with fewer than five words at most 70, with
    fewer than two sentences at most 90; and an answer that misses no
    keyword, has thirty to five hundred words and two sentences or more
    scores 100. *)
Theorem score_ceilings (answer : option string) (question : Question) :
  let r := evaluateAnswer answer question in
  (matchedKeywords r = [] -> score r <= 50) /\
  ((wordCount r < 5)%nat -> score r <= 70) /\
  (hasStructureOf (answerText answer) = false -> score r <= 90) /\
  (missedKeywords r = [] -> (30 <= wordCount r <= 500)%nat ->
   hasStructureOf (answerText answer) = true -> score r = 100).
Proof.
  cbv zeta. unfold evaluateAnswer.
  cbn [score matchedKeywords missedKeywords wordCount].
  set (text := answerText answer).
  set (kws := expectedKeywords question).
  pose proof (keywordScoreOf_bounds (List.length (matched text kws))
                (List.length kws) (filter_length_le _ _)) as [_ Hk].
  split; [| split; [| split]].
  - intros H. rewrite H. cbn [List.length].
    pose proof (keywordScoreOf_none (List.length kws)) as E.
    assert (Le : (keywordScoreOf 0 (List.length kws) <= 0)%Q) by lra.
    etransitivity; [apply overallScoreOf_mono, Le |].
    pose proof (lengthScoreOf_values (wordCountOf text)) as Hl.
    pose proof (structureScoreOf_values text) as Hs.
    cbn [In] in Hl, Hs.
    destruct Hl as [<- | [<- | [<- | [<- | [<- | []]]]]];
      destruct Hs as [<- | [<- | []]]; vm_compute; discriminate.
  - intros H.
    assert (E : lengthScoreOf (wordCountOf text) = 0).
    { unfold lengthScoreOf.
      destruct (Nat.leb_spec 30 (wordCountOf text)); [lia |].
      destruct (Nat.leb_spec 15 (wordCountOf text)); [lia |].
      destruct (Nat.ltb_spec 500 (wordCountOf text)); [lia |].
      destruct (Nat.leb_spec 5 (wordCountOf text)); [lia |].
      reflexivity. }
    rewrite E. etransitivity; [apply overallScoreOf_mono, Hk |].
    pose proof (structureScoreOf_values text) as Hs. cbn [In] in Hs.
    destruct Hs as [<- | [<- | []]]; vm_compute; discriminate.
  - intros H. unfold structureScoreOf. rewrite H.
    etransitivity; [apply overallScoreOf_mono, Hk |].
    pose proof (lengthScoreOf_values (wordCountOf text)) as Hl. cbn [In] in Hl.
    destruct Hl as [<- | [<- | [<- | [<- | [<- | []]]]]];
      vm_compute; discriminate.
  - intros Hm Hw Hs.
    rewrite (missed_none_matched_all _ _ Hm).
    pose proof (keywordScoreOf_all (List.length kws)
                  (expectedKeywords_length question)) as E.
    fold kws in E.
    assert (El : lengthScoreOf (wordCountOf text) = 100).
    { unfold lengthScoreOf.
      destruct (Nat.leb_spec 30 (wordCountOf text)); [| lia].
      destruct (Nat.leb_spec (wordCountOf text) 500); [| lia].
      reflexivity. }
    unfold structureScoreOf. rewrite El, Hs.
    apply Z.le_antisymm.
    + assert (Le : (keywordScoreOf (List.length kws) (List.length kws) <= 100)%Q)
        by lra.
      etransitivity; [apply overallScoreOf_mono, Le |]. vm_compute. discriminate.
    + assert (Ge : (100 <= keywordScoreOf (List.length kws) (List.length kws))%Q)
        by lra.
      etransitivity; [| apply overallScoreOf_mono, Ge]. vm_compute. discriminate.
Qed.

Lemma score_ceilings_witness :
  score (evaluateAnswer FeedbackExamples.fullAnswer
           FeedbackExamples.closureQuestion) = 100
  /\ score (evaluateAnswer (Some "I do not know") Examples.hoistedQuestion) <= 50.
Proof.
  split.
  - apply (score_ceilings FeedbackExamples.fullAnswer
             FeedbackExamples.closureQuestion).
    + reflexivity.
    + vm_compute. split; lia.
    + reflexivity.
  - apply (score_ceilings (Some "I do not know") Examples.hoistedQuestion).
    reflexivity.
Defined.

End RemarkFacts.

Module TallyFacts.
Import JSNum JSString FeedbackService FeedbackSpec.
Import JSNumFacts JSStringFacts FeedbackFacts SessionFacts SessionSpec.

(** ** The tally kept per topic *)

Lemma sum_scores_snoc (l : list Answer) (a : Answer) :
  sum_scores (l ++ [a]) = fadd (sum_scores l) (score_or_0 a).
Proof. unfold sum_scores. rewrite fold_left_app. reflexivity. Qed.

Lemma answersOfTopic_snoc (t : string) (l : list Answer) (a : Answer) :
  answersOfTopic t (l ++ [a])
  = (answersOfTopic t l
     ++ if truthy (a_topic a) && String.eqb (or_empty (a_topic a)) t
        then [a] else [])%list.
Proof. unfold answersOfTopic. rewrite filter_app. reflexivity. Qed.

Lemma tally_add_keys (k : string) (s : Q) (m : list (string * Tally)) :
  map fst (tally_add k s m)
  = if existsb (String.eqb k) (map fst m) then map fst m
    else (map fst m ++ [k])%list.
Proof.
  induction m as [| [k' [total count]] m IH]; [reflexivity |].
  cbn [tally_add map fst existsb].
  destruct (String.eqb_spec k' k) as [E | NE].
  - rewrite E, String.eqb_refl. reflexivity.
  - assert (F : String.eqb k k' = false) by (apply String.eqb_neq; congruence).
    rewrite F. cbn [map fst orb]. rewrite IH.
    destruct (existsb _ (map fst m)); reflexivity.
Qed.

Lemma tally_add_In (k : string) (s : Q) (m : list (string * Tally))
    (t : string) (x : Tally) :
  NoDup (map fst m) ->
  (In (t, x) (tally_add k s m) <->
   (t <> k /\ In (t, x) m) \/
   (t = k /\
    ((exists total count, In (k, (total, count)) m /\
                          x = (fadd total s, S count)) \/
     (~ In k (map fst m) /\ x = (fadd 0 s, 1%nat))))).
Proof.
  induction m as [| [k' [total count]] m IH]; intros Hnd.
  - cbn. split.
    + intros [E | []]. injection E as <- <-. right. split; [reflexivity |].
      right. split; [tauto | reflexivity].
    + intros [[_ []] | [-> [(t0 & c0 & [] & _) | [_ ->]]]]. left. reflexivity.
  - inversion Hnd as [| ? ? Hk Hnd']; subst. cbn [tally_add].
    destruct (String.eqb_spec k' k) as [E | NE].
    + subst k'. cbn [In map fst]. split.
      * intros [Eq | Hin].
        -- injection Eq as <- <-. right. split; [reflexivity |].
           left. exists total, count. split; [left; reflexivity | reflexivity].
        -- left. split; [| right; exact Hin].
           intros ->. apply Hk. apply (in_map fst) in Hin. exact Hin.
      * intros [[Hne [Eq | Hin]] | [-> [(t1 & c1 & [Eq | Hin] & ->) | [Hn _]]]].
        -- injection Eq as <- _. contradiction.
        -- right. exact Hin.
        -- injection Eq as <- <-. left. reflexivity.
        -- exfalso. apply Hk. apply (in_map fst) in Hin. exact Hin.
        -- exfalso. apply Hn. left. reflexivity.
    + cbn [In map fst]. rewrite (IH Hnd'). split.
      * intros [Eq | [[Hne Hin] | [-> [(t1 & c1 & Hin & ->) | [Hn ->]]]]].
        -- injection Eq as <- <-. left. split; [exact NE | left; reflexivity].
        -- left. split; [exact Hne | right; exact Hin].
        -- right. split; [reflexivity |]. left. exists t1, c1.
           split; [right; exact Hin | reflexivity].
        -- right. split; [reflexivity |]. right. split; [| reflexivity].
           intros [C | C]; [contradiction | contradiction].
      * intros [[Hne [Eq | Hin]] | [-> [(t1 & c1 & [Eq | Hin] & ->) | [Hn ->]]]].
        -- left. exact Eq.
        -- right. left. split; assumption.
        -- injection Eq as C _. contradiction.
        -- right. right. split; [reflexivity |]. left. exists t1, c1.
           split; [exact Hin | reflexivity].
        -- right. right. split; [reflexivity |]. right. split; [| reflexivity].
           intros C. apply Hn. right. exact C.
Qed.

Lemma answersOfTopic_In (t : string) (l : list Answer) (a : Answer) :
  In a (answersOfTopic t l)
  <-> In a l /\ truthy (a_topic a) = true /\ or_empty (a_topic a) = t.
Proof.
  unfold answersOfTopic. rewrite filter_In, andb_true_iff.
  split; intros (H1 & H2 & H3); repeat split; try assumption;
    [apply String.eqb_eq, H3 | apply String.eqb_eq, H3].
Qed.

Lemma tally_invariant (answers : list Answer) :
  let m := fold_left tally_answer answers [] in
  NoDup (map fst m) /\
  (forall t x, In (t, x) m ->
     answersOfTopic t answers <> [] /\
     x = (sum_scores (answersOfTopic t answers),
          List.length (answersOfTopic t answers))) /\
  (forall a, In a answers -> truthy (a_topic a) = true ->
             In (or_empty (a_topic a)) (map fst m)).
Proof.
  cbv zeta. induction answers as [| a p IH] using rev_ind.
  - cbn. split; [constructor |]. split; [intros t x [] | intros a []].
  - rewrite fold_left_app. cbn [fold_left].
    set (m := fold_left tally_answer p []) in *.
    destruct IH as (Hnd & Hm & Hk).
    unfold tally_answer at 1 2 3.
    destruct (truthy (a_topic a)) eqn:Et.
    + set (k := or_empty (a_topic a)).
      assert (Hkeys := tally_add_keys k (score_or_0 a) m).
      split; [| split].
      * rewrite Hkeys. destruct (existsb (String.eqb k) (map fst m)) eqn:E;
          [exact Hnd |].
        assert (Hn : ~ In k (map fst m)).
        { intros C. assert (X : existsb (String.eqb k) (map fst m) = true).
          { apply existsb_exists. exists k. split; [exact C | apply String.eqb_refl]. }
          congruence. }
        apply TopicFacts.NoDup_snoc; assumption.
      * intros t x Hin. apply (tally_add_In k (score_or_0 a) m t x Hnd) in Hin.
        rewrite answersOfTopic_snoc, Et. cbn [andb]. fold k.
        destruct Hin as [[Hne Hin] | [-> [(t1 & c1 & Hin & ->) | [Hn ->]]]].
        -- destruct (Hm t x Hin) as [Hl ->].
           destruct (String.eqb_spec k t) as [E | _]; [congruence |].
           rewrite app_nil_r. auto.
        -- destruct (Hm _ _ Hin) as [Hl E]. injection E as -> ->.
           rewrite String.eqb_refl. split.
           ++ intros C. apply app_eq_nil in C. destruct C as [_ C]. discriminate.
           ++ rewrite sum_scores_snoc, length_app. cbn [List.length].
              f_equal. lia.
        -- rewrite String.eqb_refl.
           assert (E : answersOfTopic k p = []).
           { destruct (answersOfTopic k p) as [| b l'] eqn:F; [reflexivity | exfalso].
             assert (Hb : In b (answersOfTopic k p)) by (rewrite F; left; reflexivity).
             apply answersOfTopic_In in Hb. destruct Hb as (Hb & Tb & Eb).
             apply Hn. rewrite <- Eb. apply Hk; assumption. }
           rewrite E. split; [discriminate | reflexivity].
      * intros b Hin Tb. rewrite Hkeys. apply in_app_or in Hin.
        destruct (existsb (String.eqb k) (map fst m)) eqn:E.
        -- destruct Hin as [Hin | [<- | []]]; [apply Hk; assumption |].
           apply existsb_exists in E. destruct E as (y & Hy & Ey).
           apply String.eqb_eq in Ey. fold k. rewrite Ey. exact Hy.
        -- rewrite in_app_iff. destruct Hin as [Hin | [<- | []]];
             [left; apply Hk; assumption | right; left; reflexivity].
    + split; [exact Hnd |]. split.
      * intros t x Hin. rewrite answersOfTopic_snoc, Et. cbn [andb].
        rewrite app_nil_r. apply Hm, Hin.
      * intros b Hin Tb. apply in_app_or in Hin.
        destruct Hin as [Hin | [<- | []]]; [apply Hk; assumption | congruence].
Qed.


Lemma topicScoresOf_In (answers : list Answer) (t : string) (v : Z) :
  In (t, v) (topicScoresOf answers)
  <-> answersOfTopic t answers <> [] /\ v = meanOf (answersOfTopic t answers).
Proof.
  destruct (tally_invariant answers) as (Hnd & Hm & Hk).
  unfold topicScoresOf. rewrite in_map_iff. split.
  - intros ([t' [total count]] & E & Hin). injection E as -> <-.
    destruct (Hm _ _ Hin) as [NE Ex]. injection Ex as -> ->.
    split; [exact NE | reflexivity].
  - intros [NE ->].
    destruct (answersOfTopic t answers) as [| b l'] eqn:F; [contradiction |].
    assert (Hb : In b (answersOfTopic t answers)) by (rewrite F; left; reflexivity).
    apply answersOfTopic_In in Hb. destruct Hb as (Hb & Tb & Eb).
    pose proof (Hk b Hb Tb) as Hkey. rewrite Eb in Hkey.
    apply in_map_iff in Hkey. destruct Hkey as ([t' [total count]] & Et & Hin).
    cbn in Et. subst t'.
    exists (t, (total, count)). split; [| exact Hin].
    destruct (Hm _ _ Hin) as [_ Ex]. injection Ex as -> ->.
    rewrite F. reflexivity.
Qed.

Lemma meanOf_bounds (l : list Answer) :
  l <> [] -> scoresInRange l -> Z.of_nat (List.length l) < 2 ^ 32 ->
  0 <= meanOf l <= 100.
Proof.
  intros NE Hr Hlen. unfold meanOf.
  assert (Hn : (0 < List.length l)%nat) by (destruct l; [contradiction | cbn; lia]).
  assert (B : (0 <= sum_scores l
                <= inject_Z (100 * (0 + Z.of_nat (List.length l))))%Q).
  { apply fold_scores_bounds.
    - exact Hr.
    - lia.
    - lia.
    - split; [lra | apply inject_Z_nonneg; lia]. }
  rewrite Z.add_0_l in B. rewrite inject_Z_mult in B.
  change (inject_Z 100) with 100%Q in B.
  assert (En : (of_nat (List.length l) == inject_Z (Z.of_nat (List.length l)))%Q)
    by (apply of_nat_exact; lia).
  pose proof (inject_Z_pos (Z.of_nat (List.length l)) ltac:(lia)) as Pn.
  assert (D : (0 <= fdiv (sum_scores l) (of_nat (List.length l)) <= 100)%Q).
  { apply fl_between; [reflexivity | reflexivity |]. rewrite En. split.
    - apply Qle_shift_div_l; lra.
    - apply Qle_shift_div_r; lra. }
  destruct D as [L U]. apply Math_round_mono in L, U.
  change 0%Q with (inject_Z 0) in L. change 100%Q with (inject_Z 100) in U.
  rewrite Math_round_Z in L, U. lia.
Qed.



Lemma scoresInRange_sub (l answers : list Answer) :
  (forall a, In a l -> In a answers) -> scoresInRange answers -> scoresInRange l.
Proof. intros Hs Hr a s Ha. apply Hr, Hs, Ha. Qed.

(** X15: when every score that is present lies in [0, 100], so do the
    overall score and every topic score of the session. *)
Theorem session_scores_in_range (answers : list Answer) :
  scoresInRange answers -> Z.of_nat (List.length answers) < 2 ^ 32 ->
  let fb := calculateSessionFeedback answers in
  0 <= Session.overallScore fb <= 100 /\
  0 <= Session.readinessScore fb <= 100 /\
  (forall t v, In (t, v) (Session.topicScores fb) -> 0 <= v <= 100).
Proof.
  intros Hr Hlen. cbv zeta. unfold calculateSessionFeedback.
  destruct (Nat.eqb_spec (List.length answers) 0) as [E | NE].
  - cbn [Session.overallScore Session.readinessScore Session.topicScores].
    split; [lia |]. split; [lia |]. intros t v [].
  - cbn [Session.overallScore Session.readinessScore Session.topicScores].
    pose proof (overallScoreOfSession_bounds answers Hr Hlen) as Ho.
    split; [exact Ho |]. split.
    + rewrite readinessScoreOf_spec by exact Ho. unfold readinessSpec.
      set (x := ((6 # 10) * inject_Z (overallScoreOfSession answers)
                 + 4 * inject_Z (Z.of_nat (Nat.min (List.length answers) 10))
                 + (1 # 2))%Q).
      assert (Hx : (0 <= x)%Q).
      { unfold x.
        pose proof (inject_Z_nonneg (overallScoreOfSession answers) ltac:(lia)).
        pose proof (inject_Z_nonneg
                      (Z.of_nat (Nat.min (List.length answers) 10)) ltac:(lia)).
        lra. }
      assert (F : 0 <= Qfloor x).
      { change 0 with (Qfloor 0). apply Qfloor_resp_le, Hx. }
      lia.
    + intros t v Hin. apply topicScoresOf_In in Hin. destruct Hin as [N ->].
      assert (Hsub : forall a, In a (answersOfTopic t answers) -> In a answers).
      { intros a Ha. apply answersOfTopic_In in Ha. tauto. }
      apply meanOf_bounds.
      * exact N.
      * apply (scoresInRange_sub _ answers Hsub Hr).
      * pose proof (filter_length_le
                      (fun a => truthy (a_topic a)
                                && String.eqb (or_empty (a_topic a)) t) answers).
        unfold answersOfTopic. lia.
Qed.

Lemma session_scores_in_range_witness :
  let fb := calculateSessionFeedback SessionExamples.abAnswers in
  0 <= Session.overallScore fb <= 100 /\
  0 <= Session.readinessScore fb <= 100 /\
  (forall t v, In (t, v) (Session.topicScores fb) -> 0 <= v <= 100).
Proof.
  apply (session_scores_in_range SessionExamples.abAnswers).
  - intros a s [<- | [<- | [<- | []]]] E; injection E as <-; lia.
  - reflexivity.
Defined.

(** ** Skipped answers *)

Lemma tally_answer_zeroed (m : list (string * Tally)) (a : Answer) :
  tally_answer m (zeroed a) = tally_answer m a.
Proof.
  unfold tally_answer, zeroed, score_or_0. cbn [a_topic a_score].
  destruct (a_score a) as [s |]; [reflexivity |].
  assert (E : of_Z 0 = 0%Q) by (vm_compute; reflexivity).
  rewrite E. reflexivity.
Qed.

(** X16: an answer whose score is [null] does not enter the overall score,
    but in its topic's score it counts like an answer scored 0. *)
Theorem null_score_treatment (before after : list Answer) (a : Answer) :
  a_score a = None ->
  overallScoreOfSession (before ++ a :: after)
  = overallScoreOfSession (before ++ after)
  /\ topicScoresOf (before ++ a :: after)
     = topicScoresOf (before ++ zeroed a :: after).
Proof.
  intros Ha. split.
  - assert (E : filter is_valid (before ++ a :: after)
                = filter is_valid (before ++ after)).
    { rewrite !filter_app. cbn [filter]. unfold is_valid at 2.
      rewrite Ha. reflexivity. }
    unfold overallScoreOfSession. rewrite E. reflexivity.
  - unfold topicScoresOf. rewrite !fold_left_app. cbn [fold_left].
    rewrite tally_answer_zeroed. reflexivity.
Qed.

Lemma null_score_treatment_witness :
  Session.overallScore
    (calculateSessionFeedback
       [FeedbackExamples.answered; FeedbackExamples.skipped]) = 80
  /\ Session.topicScores
       (calculateSessionFeedback
          [FeedbackExamples.answered; FeedbackExamples.skipped])
     = [("A", 40)]
  /\ overallScoreOfSession ([FeedbackExamples.answered]
                            ++ FeedbackExamples.skipped :: [])
     = overallScoreOfSession ([FeedbackExamples.answered] ++ []).
Proof.
  split; [reflexivity |]. split; [reflexivity |].
  apply (null_score_treatment [FeedbackExamples.answered] []
           FeedbackExamples.skipped eq_refl).
Defined.

(** ** Readiness *)

(** X17: with scores in range, a session of [n > 0] answers has a
    readiness between [4 * min(n, 10)] and [60 + 4 * min(n, 10)]: fewer
    than five answers are never Interview Ready, and ten answers or more
    are never Keep Learning. *)
Theorem readiness_range (answers : list Answer) :
  scoresInRange answers -> Z.of_nat (List.length answers) < 2 ^ 32 ->
  answers <> [] ->
  let fb := calculateSessionFeedback answers in
  let bonus := 4 * Z.of_nat (Nat.min (List.length answers) 10) in
  bonus <= Session.readinessScore fb <= 60 + bonus /\
  ((List.length answers < 5)%nat ->
   getReadinessLevel (Session.readinessScore fb) <> "Interview Ready") /\
  ((10 <= List.length answers)%nat ->
   getReadinessLevel (Session.readinessScore fb) <> "Keep Learning").
Proof.
  intros Hr Hlen NE. cbv zeta. unfold calculateSessionFeedback.
  destruct (Nat.eqb_spec (List.length answers) 0) as [E | _].
  { apply length_zero_iff_nil in E. contradiction. }
  cbn [Session.readinessScore].
  pose proof (overallScoreOfSession_bounds answers Hr Hlen) as Ho.
  rewrite readinessScoreOf_spec by exact Ho. unfold readinessSpec.
  set (o := overallScoreOfSession answers) in *.
  set (m := Z.of_nat (Nat.min (List.length answers) 10)).
  assert (Hm : 0 <= m <= 10) by (unfold m; lia).
  destruct (floor_bounds ((6 # 10) * inject_Z o + 4 * inject_Z m + (1 # 2))%Q)
    as [F1 F2].
  set (f := Qfloor ((6 # 10) * inject_Z o + 4 * inject_Z m + (1 # 2))%Q) in *.
  assert (Io : (0 <= inject_Z o <= 100)%Q).
  { split; [apply inject_Z_nonneg; lia |].
    change 100%Q with (inject_Z 100). rewrite <- Zle_Qle. lia. }
  assert (U : f <= 60 + 4 * m).
  { apply Z.lt_succ_r. rewrite Zlt_Qlt. unfold Z.succ.
    rewrite !inject_Z_plus, inject_Z_mult.
    change (inject_Z 60) with 60%Q. change (inject_Z 4) with 4%Q.
    change (inject_Z 1) with 1%Q. lra. }
  assert (L : 4 * m <= f).
  { apply Z.lt_succ_r. rewrite Zlt_Qlt. unfold Z.succ.
    rewrite inject_Z_plus, inject_Z_mult.
    change (inject_Z 4) with 4%Q. change (inject_Z 1) with 1%Q. lra. }
  split; [lia |]. split.
  - intros H5. assert (m <= 4) by (unfold m; lia).
    unfold getReadinessLevel.
    destruct (Z.leb_spec 80 (Z.min 100 f)) as [C | _]; [lia |].
    destruct (60 <=? Z.min 100 f); [discriminate |].
    destruct (40 <=? Z.min 100 f); discriminate.
  - intros H10. assert (m = 10) by (unfold m; lia).
    unfold getReadinessLevel.
    destruct (80 <=? Z.min 100 f); [discriminate |].
    destruct (60 <=? Z.min 100 f); [discriminate |].
    destruct (Z.leb_spec 40 (Z.min 100 f)) as [_ | C]; [discriminate | lia].
Qed.

Lemma readiness_range_witness :
  8 <= Session.readinessScore
         (calculateSessionFeedback
            [FeedbackExamples.answered; FeedbackExamples.skipped]) <= 68.
Proof.
  apply (readiness_range [FeedbackExamples.answered; FeedbackExamples.skipped]).
  - intros a s [<- | [<- | []]] E; [injection E as <-; lia | discriminate].
  - reflexivity.
  - discriminate.
Defined.

End TallyFacts.

(* ===================================================================== *)
(** * Selections and batches *)
(* ===================================================================== *)

Module SelectionFacts.
Import JSNum JSString Config QuestionStore QuestionSelector.
Import QuestionStoreSpec SelectionSpec SelectorSpec.
Import JSNumFacts JSStringFacts FeedbackFacts SortFacts AverageFacts.
Import SelectorFacts QuestionStoreFacts.

(** ** Where a selection comes from *)

Lemma randomSelect_result (ext : Externals) (l : list QuestionDocument)
    (h h' : Heap) (sel : Selection) :
  randomSelect ext l h = (Returned sel, h') ->
  In (question sel) l /\ selectionMethod sel = "random".
Proof.
  unfold randomSelect, bind, ret, Math_random.
  destruct (pick _ _) as [x |] eqn:P; intros H; [| discriminate].
  injection H as <- _. split; [apply (pick_In _ _ _ P) | reflexivity].
Qed.

Lemma smartFallbackSelect_method (ext : Externals) (ctx : SessionContext)
    (avail avail' : list QuestionDocument) (h h' : Heap) (sel : Selection) :
  smartFallbackSelect ext ctx avail h = (Returned sel, avail', h') ->
  selectionMethod sel = "fallback".
Proof. intros H. apply smartFallbackSelect_result in H. apply H. Qed.

Lemma aiSelect_method (ext : Externals) (ctx : SessionContext)
    (avail avail' : list QuestionDocument) (h h' : Heap) (sel : Selection) :
  aiSelect ext ctx avail h = (Returned sel, avail', h') ->
  selectionMethod sel = "ai" \/ selectionMethod sel = "fallback".
Proof.
  unfold aiSelect, bind, ret.
  destruct (onStore ext _ h) as [covered h1].
  destruct (invoke ext) as [response | e]; [| discriminate].
  destruct (findSelected response avail) as [q |].
  - intros H. injection H as <- _ _. left. reflexivity.
  - intros H. right. apply (smartFallbackSelect_method _ _ _ _ _ _ _ H).
Qed.

Lemma length_zero (A : Type) (l : list A) :
  (List.length l =? 0)%nat = true <-> l = [].
Proof. destruct l; cbn; split; congruence. Qed.

Lemma selectNextQuestion_source (env : Env) (ext : Externals)
    (ctx : SessionContext) (h h' : Heap) (sel : Selection) :
  selectNextQuestion env ext ctx h = (Returned (Some sel), h') ->
  (fst (firstLookup ext ctx h) = [] /\ selectionMethod sel = "random" /\
   In (question sel) (fst (secondLookup ext ctx h)))
  \/ (fst (firstLookup ext ctx h) <> [] /\
      In (question sel) (fst (firstLookup ext ctx h)) /\
      (selectionMethod sel = "ai" \/ selectionMethod sel = "fallback")).
Proof.
  unfold selectNextQuestion, bind, ret, secondLookup, firstLookup.
  unfold onStore at 1.
  destruct (getFilteredQuestions (worldAt ext (reads h)) (store h)
              (availableFilter ctx)) as [avail st1].
  cbn [fst snd].
  destruct (List.length avail =? 0)%nat eqn:E.
  - apply length_zero in E. subst avail.
    unfold onStore at 1. cbn [reads store].
    destruct (getFilteredQuestions (worldAt ext (S (reads h))) st1
                (relaxedFilter ctx)) as [fb st2].
    cbn [fst].
    destruct (List.length fb =? 0)%nat; [discriminate |].
    match goal with
    | |- context [randomSelect ext fb ?h2] =>
        destruct (randomSelect ext fb h2) as [[s | e] h3] eqn:R
    end; [| discriminate].
    intros H. injection H as <- _.
    apply randomSelect_result in R. left. tauto.
  - assert (NE : avail <> []).
    { intros C. apply length_zero in C. congruence. }
    match goal with
    | |- context [initModel env ?h1] =>
        destruct (initModel env h1) as [[m |] h2]
    end.
    + destruct (aiSelect ext ctx avail h2) as [[[s | e] avail'] h3] eqn:A;
        cbn [fst snd].
      * intros H. injection H as <- _. right.
        split; [exact NE |]. split.
        -- apply (aiSelect_In _ _ _ _ _ _ _ A).
        -- apply (aiSelect_method _ _ _ _ _ _ _ A).
      * destruct (shouldFallback env); [| discriminate].
        destruct (smartFallbackSelect ext ctx avail' h3)
          as [[[s | e'] avail''] h4] eqn:F; cbn [fst]; [| discriminate].
        intros H. injection H as <- _. right.
        split; [exact NE |]. split.
        -- apply (Permutation_in _ (aiSelect_array _ _ _ _ _ _ _ A)).
           apply (smartFallbackSelect_In _ _ _ _ _ _ _ F).
        -- right. apply (smartFallbackSelect_method _ _ _ _ _ _ _ F).
    + destruct (smartFallbackSelect ext ctx avail h2)
        as [[[s | e'] avail''] h4] eqn:F; cbn [fst]; [| discriminate].
      intros H. injection H as <- _. right.
      split; [exact NE |]. split.
      * apply (smartFallbackSelect_In _ _ _ _ _ _ _ F).
      * right. apply (smartFallbackSelect_method _ _ _ _ _ _ _ F).
Qed.

Lemma filtered_passes (w : World) (st : Store) (f : Filter)
    (q : QuestionDocument) :
  In q (fst (getFilteredQuestions w st f)) -> passes f q.
Proof.
  unfold getFilteredQuestions. destruct (getAllQuestions w st) as [all st'].
  cbn [fst]. intros H. apply filter_In in H. apply keep_passes, H.
Qed.

Lemma passes_relaxed (ctx : SessionContext) (q : QuestionDocument) :
  passes (availableFilter ctx) q -> passes (relaxedFilter ctx) q.
Proof.
  unfold passes, availableFilter, relaxedFilter.
  cbn [f_excludeIds f_role f_difficulty f_category].
  intros (H1 & H2 & _ & _). split; [exact H1 |]. split; [exact H2 |].
  split; intros ? E; discriminate E.
Qed.

Lemma passes_meetsRole (ctx : SessionContext) (q : QuestionDocument) :
  passes (relaxedFilter ctx) q ->
  meetsRole ctx q /\ ~ In (id q) (answeredQuestionIds ctx).
Proof.
  unfold passes, relaxedFilter, meetsRole.
  cbn [f_excludeIds f_role f_difficulty f_category].
  intros (H1 & H2 & _). split; assumption.
Qed.

(** X18: a selected question is of the session's role (or of the role
    any) and not yet answered.  The method is random exactly when no
    question of the session's difficulty is left, and only then may the
    question be of another difficulty; otherwise the method is ai or
    fallback and the question is one of those left at that difficulty. *)
Theorem selection_meets_filters (env : Env) (ext : Externals)
    (ctx : SessionContext) (h h' : Heap) (sel : Selection) :
  selectNextQuestion env ext ctx h = (Returned (Some sel), h') ->
  let available := fst (firstLookup ext ctx h) in
  passes (relaxedFilter ctx) (question sel) /\
  ((selectionMethod sel = "random" /\ available = [])
   \/ ((selectionMethod sel = "ai" \/ selectionMethod sel = "fallback") /\
       In (question sel) available /\
       passes (availableFilter ctx) (question sel))).
Proof.
  intros H. cbv zeta.
  destruct (selectNextQuestion_source _ _ _ _ _ _ H)
    as [(E & Hm & Hin) | (NE & Hin & Hm)].
  - split; [apply (filtered_passes _ _ _ _ Hin) |]. left. tauto.
  - pose proof (filtered_passes _ _ _ _ Hin) as P.
    split; [apply passes_relaxed, P |]. right. tauto.
Qed.

Lemma selection_meets_filters_witness :
  exists sel h',
    selectNextQuestion SelectorExamples.aiOff
      (SelectorExamples.externals (Thrown "unused") (1 # 2))
      (SelectorExamples.context (Some "expert") ["q-medium"] [90; 85])
      SelectorExamples.emptyHeap
    = (Returned (Some sel), h')
    /\ selectionMethod sel = "random"
    /\ passes (relaxedFilter
                 (SelectorExamples.context (Some "expert") ["q-medium"] [90; 85]))
              (question sel).
Proof.
  eexists. eexists. split; [vm_compute; reflexivity |].
  split; [reflexivity |].
  eapply (selection_meets_filters SelectorExamples.aiOff
            (SelectorExamples.externals (Thrown "unused") (1 # 2))
            (SelectorExamples.context (Some "expert") ["q-medium"] [90; 85])
            SelectorExamples.emptyHeap).
  vm_compute. reflexivity.
Defined.

(** X19: the selector answers [null] exactly when the store has no
    unanswered question of the session's role, neither at the session's
    difficulty nor at any other. *)
Theorem null_selection (env : Env) (ext : Externals) (ctx : SessionContext)
    (h : Heap) :
  fst (selectNextQuestion env ext ctx h) = Returned None
  <-> fst (firstLookup ext ctx h) = [] /\ fst (secondLookup ext ctx h) = [].
Proof.
  unfold selectNextQuestion, bind, ret, secondLookup, firstLookup.
  unfold onStore at 1.
  destruct (getFilteredQuestions (worldAt ext (reads h)) (store h)
              (availableFilter ctx)) as [avail st1].
  cbn [fst snd].
  destruct (List.length avail =? 0)%nat eqn:E.
  - apply length_zero in E. subst avail.
    unfold onStore at 1. cbn [reads store].
    destruct (getFilteredQuestions (worldAt ext (S (reads h))) st1
                (relaxedFilter ctx)) as [fb st2].
    cbn [fst].
    destruct (List.length fb =? 0)%nat eqn:E2.
    + apply length_zero in E2. cbn [fst]. tauto.
    + assert (NE : fb <> []) by (intros C; apply length_zero in C; congruence).
      match goal with
      | |- context [randomSelect ext fb ?h2] =>
          destruct (randomSelect ext fb h2) as [[s | e] h3]
      end; cbn [fst asResult]; split; try discriminate; intros [_ C];
        contradiction.
  - assert (NE : avail <> []).
    { intros C. apply length_zero in C. congruence. }
    split; [| intros [C _]; contradiction].
    match goal with
    | |- context [initModel env ?h1] =>
        destruct (initModel env h1) as [[m |] h2]
    end.
    + destruct (aiSelect ext ctx avail h2) as [[[s | e] avail'] h3];
        cbn [fst snd]; [discriminate |].
      destruct (shouldFallback env); [| discriminate].
      destruct (smartFallbackSelect ext ctx avail' h3)
        as [[[s | e'] avail''] h4]; cbn [fst asResult]; discriminate.
    + destruct (smartFallbackSelect ext ctx avail h2)
        as [[[s | e'] avail''] h4]; cbn [fst asResult]; discriminate.
Qed.

(** ** Topic diversity *)

(** X20: when some available question is of a topic the session has not
    covered, the heuristic selection returns a question of an uncovered
    topic and leaves the caller's array as it was; when every topic is
    covered it sorts the caller's array itself. *)
Theorem topic_diversity (ext : Externals) (ctx : SessionContext)
    (avail avail' : list QuestionDocument) (h h' : Heap) (sel : Selection) :
  smartFallbackSelect ext ctx avail h = (Returned sel, avail', h') ->
  let covered := coveredTopics ext ctx h in
  ((exists q, In q avail /\ ~ In (topic (metadata q)) covered) ->
   ~ In (topic (metadata (question sel))) covered /\ avail' = avail) /\
  ((forall q, In q avail -> In (topic (metadata q)) covered) ->
   avail' = sortedCandidates (recentScores ctx) avail).
Proof.
  intros H. cbv zeta. unfold coveredTopics.
  pose proof (smartFallbackSelect_result _ _ _ _ _ _ _ H) as [Hin _].
  unfold candidatesOf in Hin. rewrite onStore_fst in Hin.
  assert (Ha : avail'
               = availableAfterSort
                   (fst (getSessionTopicsCovered (worldAt ext (reads h))
                           (store h) (answeredQuestionIds ctx)))
                   (recentScores ctx) avail).
  { revert H. unfold smartFallbackSelect, bind, ret, Math_random.
    unfold onStore at 1.
    destruct (getSessionTopicsCovered _ _ _) as [covered st']. cbn [fst].
    destruct (pick _ _); intros H; injection H as _ <- _; reflexivity. }
  set (covered := fst (getSessionTopicsCovered (worldAt ext (reads h))
                         (store h) (answeredQuestionIds ctx))) in *.
  set (fresh := filter (fun q => negb (mem (topic (metadata q)) covered)) avail).
  split.
  - intros (q & Hq & Hn).
    assert (Hf : In q fresh).
    { apply filter_In. split; [exact Hq |]. apply negb_true_iff.
      destruct (mem (topic (metadata q)) covered) eqn:E; [| reflexivity].
      apply mem_In in E. contradiction. }
    assert (NE : (List.length fresh =? 0)%nat = false).
    { destruct fresh; [destruct Hf | reflexivity]. }
    split.
    + apply firstn_subset in Hin.
      apply (Permutation_in _ (sortBy_perm _ _)) in Hin.
      unfold uncovered in Hin. fold fresh in Hin. rewrite NE in Hin.
      apply filter_In in Hin. destruct Hin as [_ Hc].
      apply negb_true_iff in Hc. intros C. apply mem_In in C. congruence.
    + rewrite Ha. unfold availableAfterSort. fold fresh. rewrite NE. reflexivity.
  - intros Hall.
    assert (E : fresh = []).
    { destruct fresh as [| q l] eqn:F; [reflexivity | exfalso].
      assert (Hq : In q fresh) by (rewrite F; left; reflexivity).
      apply filter_In in Hq. destruct Hq as [Hq Hc].
      apply negb_true_iff in Hc. pose proof (Hall q Hq) as C.
      apply mem_In in C. congruence. }
    rewrite Ha. unfold availableAfterSort. fold fresh. rewrite E. reflexivity.
Qed.

Lemma topic_diversity_witness :
  exists sel avail' h',
    smartFallbackSelect
      (SelectorExamples.externals (Thrown "unused") (1 # 2))
      (SelectorExamples.context None ["q-medium"] [90; 85])
      (map toDocument SelectorExamples.table) SelectorExamples.emptyHeap
    = (Returned sel, avail', h')
    /\ topic (metadata (question sel)) = "JavaScript Fundamentals"
    /\ ~ In (topic (metadata (question sel)))
            (coveredTopics
               (SelectorExamples.externals (Thrown "unused") (1 # 2))
               (SelectorExamples.context None ["q-medium"] [90; 85])
               SelectorExamples.emptyHeap).
Proof.
  eexists. eexists. eexists. split; [vm_compute; reflexivity |].
  split; [reflexivity |].
  eapply (topic_diversity
            (SelectorExamples.externals (Thrown "unused") (1 # 2))
            (SelectorExamples.context None ["q-medium"] [90; 85])
            (map toDocument SelectorExamples.table) _
            SelectorExamples.emptyHeap).
  - vm_compute. reflexivity.
  - exists (toDocument (SelectorExamples.row "q-hard" "JavaScript Fundamentals" "hard")).
    split; [vm_compute; tauto |].
    vm_compute. intros [C | []]. discriminate C.
Defined.

(** ** Batches *)

Lemma selectLoop_invariant (env : Env) (ext : Externals)
    (invokes : nat -> outcome string) (ctx : SessionContext)
    (remaining : nat) :
  forall (i : nat) (questions : list QuestionDocument) (usedIds : list string)
         (h h' : Heap) (qs : list QuestionDocument),
    selectLoop env ext invokes ctx remaining i questions usedIds h
    = (Returned qs, h') ->
    NoDup (map id questions) ->
    (forall q, In q questions -> In (id q) usedIds) ->
    NoDup (map id qs) /\
    (forall q, In q qs -> In q questions
                          \/ (~ In (id q) usedIds /\ meetsRole ctx q)) /\
    (List.length qs <= List.length questions + remaining)%nat /\
    (exists added, qs = (questions ++ added)%list).
Proof.
  induction remaining as [| remaining IH];
    intros i questions usedIds h h' qs H Hnd Hused.
  - cbn in H. injection H as <- _.
    split; [exact Hnd |]. split; [tauto |]. split; [lia |].
    exists []. rewrite app_nil_r. reflexivity.
  - cbn [selectLoop] in H. unfold bind in H.
    destruct (selectNextQuestion env (callExternals ext invokes i)
                (withAnswered ctx usedIds) h) as [[[sel |] | e] h1] eqn:S1.
    + pose proof (selectNextQuestion_source _ _ _ _ _ _ S1) as Src.
      assert (P : passes (relaxedFilter (withAnswered ctx usedIds)) (question sel)).
      { destruct Src as [(_ & _ & Hin) | (_ & Hin & _)].
        - apply (filtered_passes _ _ _ _ Hin).
        - apply passes_relaxed, (filtered_passes _ _ _ _ Hin). }
      apply passes_meetsRole in P. destruct P as [Hrole Hfresh].
      cbn [withAnswered answeredQuestionIds] in Hfresh.
      assert (Hrole' : meetsRole ctx (question sel)) by exact Hrole.
      specialize (IH (S i) (questions ++ [question sel])%list
                    (usedIds ++ [id (question sel)])%list h1 h' qs H).
      destruct IH as (N & Hq & Hl & (added & Ha)).
      * rewrite map_app. cbn [map]. apply TopicFacts.NoDup_snoc; [exact Hnd |].
        intros C. apply in_map_iff in C. destruct C as (q & Eq & Hq).
        apply Hfresh. rewrite <- Eq. apply Hused, Hq.
      * intros q Hq. apply in_app_or in Hq. apply in_or_app.
        destruct Hq as [Hq | [<- | []]]; [left; apply Hused, Hq |].
        right. left. reflexivity.
      * split; [exact N |]. split; [| split].
        -- intros q Hin. destruct (Hq q Hin) as [Hold | [Hn Hr]].
           ++ apply in_app_or in Hold. destruct Hold as [Hold | [<- | []]].
              ** left. exact Hold.
              ** right. split; assumption.
           ++ right. split; [| exact Hr].
              intros C. apply Hn. apply in_or_app. left. exact C.
        -- rewrite length_app in Hl. cbn [List.length] in Hl. lia.
        -- exists ([question sel] ++ added)%list. rewrite Ha, <- app_assoc.
           reflexivity.
    + cbn in H. injection H as <- _.
      split; [exact Hnd |]. split; [tauto |]. split; [lia |].
      exists []. rewrite app_nil_r. reflexivity.
    + cbn in H. discriminate H.
Qed.

(** X21: the questions a batch returns have pairwise distinct ids, none of
    them answered before, are of the session's role or of the role any,
    and are at most [count]. *)
Theorem batch_selection (env : Env) (ext : Externals)
    (invokes : nat -> outcome string) (ctx : SessionContext) (count : nat)
    (h h' : Heap) (qs : list QuestionDocument) :
  selectQuestionsForSession env ext invokes ctx count h = (Returned qs, h') ->
  NoDup (map id qs) /\
  (forall q, In q qs ->
     ~ In (id q) (answeredQuestionIds ctx) /\ meetsRole ctx q) /\
  (List.length qs <= count)%nat.
Proof.
  unfold selectQuestionsForSession. intros H.
  destruct (selectLoop_invariant _ _ _ _ _ _ _ _ _ _ _ H) as (N & Hq & Hl & _).
  - constructor.
  - intros q [].
  - split; [exact N |]. split; [| exact Hl].
    intros q Hin. destruct (Hq q Hin) as [[] | Hr]. exact Hr.
Qed.

Lemma batch_selection_witness :
  exists qs h',
    selectQuestionsForSession SelectorExamples.aiOff
      (SelectorExamples.externals (Thrown "unused") (1 # 2))
      BatchExamples.noReply
      (SelectorExamples.context None [] [])
      5 SelectorExamples.emptyHeap
    = (Returned qs, h')
    /\ map id qs = ["q-easy"; "q-hard"; "q-medium"]
    /\ NoDup (map id qs).
Proof.
  eexists. eexists. split; [vm_compute; reflexivity |].
  split; [reflexivity |].
  eapply (batch_selection SelectorExamples.aiOff
            (SelectorExamples.externals (Thrown "unused") (1 # 2))
            BatchExamples.noReply
            (SelectorExamples.context None [] [])
            5 SelectorExamples.emptyHeap).
  vm_compute. reflexivity.
Defined.

End SelectionFacts.

(* ===================================================================== *)
(** * The interview routes *)
(* ===================================================================== *)

Module RouteFacts.
Import JSNum JSString Config QuestionStore QuestionSelector QuestionShapes.
Import InterviewRoutes RouteSpec SelectorSpec EvaluatorSpec.
Import JSNumFacts JSStringFacts FeedbackFacts EvaluatorFacts AverageFacts.
Import SelectorFacts EvaluatorPathFacts SelectionFacts.

(** ** The evaluation step *)

Lemma rule_of_row (answer : option string) (row : Row) :
  FeedbackService.evaluateAnswer answer
    (AnswerEvaluator.ruleQuestion (rowQuestion row))
  = FeedbackService.evaluateAnswer answer (tableQuestion row).
Proof.
  apply evaluateAnswer_keywords. apply (proj2 (expectedKeywords_shapes row)).
Qed.

Lemma initModel_enabled (env : Env) (st : AnswerEvaluator.State) :
  isAIEnabled env = true -> AnswerEvaluator.initModel env st <> None.
Proof.
  intros H. unfold AnswerEvaluator.initModel, createModel.
  destruct st; [discriminate |]. rewrite H. discriminate.
Qed.

Ltac route_fields :=
  unfold evaluatorResponse, ruleResponse, AnswerEvaluator.withMethod,
    AnswerEvaluator.blendEvaluations;
  cbn [fst evaluationMethod score feedback strengths weaknesses suggestions
       keywordScore matchedKeywords missedKeywords
       AnswerEvaluator.evaluationMethod AnswerEvaluator.score
       AnswerEvaluator.feedback AnswerEvaluator.strengths
       AnswerEvaluator.weaknesses AnswerEvaluator.suggestions
       AnswerEvaluator.keywordScore AnswerEvaluator.matchedKeywords
       AnswerEvaluator.missedKeywords AnswerEvaluator.ai_score is_empty].

(** X22: the answer route never fails in its evaluation step, and the
    fallback flag plays no part in it: the remarks and keyword lists are
    those of the rule-based service on the row (at most five missed
    keywords are shown); with the model switched off the method is rules;
    with it switched on the method is ai-blended with the exact blend when
    a score was read from the reply, and fallback with the rule score
    otherwise. *)
Theorem route_evaluation (env : Env) (st : AnswerEvaluator.State)
    (answerText : string) (question : Row) (invoke : outcome string) :
  let resp := fst (evaluateSubmitted env st answerText question invoke) in
  let rule :=
    FeedbackService.evaluateAnswer (Some answerText) (tableQuestion question) in
  feedback resp = FeedbackService.feedback rule /\
  strengths resp = FeedbackService.strengths rule /\
  weaknesses resp = FeedbackService.weaknesses rule /\
  suggestions resp = FeedbackService.suggestions rule /\
  keywordScore resp = FeedbackService.keywordScore rule /\
  matchedKeywords resp = FeedbackService.matchedKeywords rule /\
  missedKeywords resp = firstn 5 (FeedbackService.missedKeywords rule) /\
  0 <= score resp <= 100 /\
  match isAIEnabled env, replyScore invoke with
  | false, _ =>
      evaluationMethod resp = "rules" /\ score resp = FeedbackService.score rule
  | true, Some M =>
      evaluationMethod resp = "ai-blended" /\
      score resp = blendSpec M (FeedbackService.score rule)
  | true, None =>
      evaluationMethod resp = "fallback" /\
      score resp = FeedbackService.score rule
  end.
Proof.
  cbv zeta. unfold evaluateSubmitted.
  pose proof (score_bounds (Some answerText) (tableQuestion question)) as Hrule.
  set (rule := FeedbackService.evaluateAnswer (Some answerText)
                 (tableQuestion question)) in *.
  destruct (isAIEnabled env) eqn:Eai.
  - unfold AnswerEvaluator.evaluateAnswer. rewrite rule_of_row. fold rule.
    pose proof (initModel_enabled env st Eai) as Hm.
    destruct (AnswerEvaluator.initModel env st) as [m |]; [| contradiction].
    unfold AnswerEvaluator.aiEvaluate, replyScore.
    destruct invoke as [response | e].
    + destruct (AnswerEvaluator.parseScore response) as [M |] eqn:EM.
      * route_fields.
        pose proof (parseScore_range _ _ EM) as HM.
        rewrite blend_exact by lia.
        pose proof (blendSpec_between M (FeedbackService.score rule)) as Hb.
        assert (Ef : is_empty (FeedbackService.feedback rule) = false).
        { unfold rule, FeedbackService.evaluateAnswer.
          cbn [FeedbackService.feedback]. apply generateFeedbackText_nonempty. }
        rewrite Ef. repeat split; first [reflexivity | lia].
      * destruct (shouldFallback env); route_fields;
          repeat split; first [reflexivity | lia].
    + destruct (shouldFallback env); route_fields;
        repeat split; first [reflexivity | lia].
  - route_fields. repeat split; first [reflexivity | lia].
Qed.

(** ** The weighted selection *)

Lemma Qle_bool_compat (t x y : Q) : (x == y)%Q -> Qle_bool t x = Qle_bool t y.
Proof.
  intros Hxy.
  destruct (Qle_bool t x) eqn:X; destruct (Qle_bool t y) eqn:Y; try reflexivity.
  - apply Qle_bool_iff in X. rewrite Hxy in X. apply Qle_bool_iff in X. congruence.
  - apply Qle_bool_iff in Y. rewrite <- Hxy in Y. apply Qle_bool_iff in Y. congruence.
Qed.

Lemma avgScore_threshold (t : Z) (scores : list Z) :
  0 <= t <= 100 ->
  scoresInRange scores -> Z.of_nat (List.length scores) < 2 ^ 32 ->
  Qle_bool (inject_Z t) (avgScore scores)
  = Qle_bool (inject_Z t) (meanSpec scores).
Proof.
  intros Ht Hr Hlen. unfold avgScore, meanSpec.
  destruct scores as [| s l]; [reflexivity |].
  set (scores := s :: l) in *.
  assert (Hn : (0 < List.length scores)%nat) by (simpl; lia).
  destruct (Nat.ltb_spec 0 (List.length scores)) as [_ | C]; [| lia].
  assert (E : (fdiv (sumScores scores) (of_nat (List.length scores))
               == fl (inject_Z (total scores)
                      / inject_Z (Z.of_nat (List.length scores))))%Q).
  { unfold fdiv. apply fl_compat.
    rewrite (sumScores_exact scores Hr Hlen).
    unfold of_nat, of_Z. rewrite fl_Z by lia. reflexivity. }
  rewrite (Qle_bool_compat _ _ _ E). apply threshold_exact; lia.
Qed.

Lemma targetDifficulty_spec (difficulty : string) (scores : list Z) :
  scoresInRange scores -> Z.of_nat (List.length scores) < 2 ^ 32 ->
  targetDifficulty difficulty (avgScore scores)
  = targetSpec difficulty (meanSpec scores).
Proof.
  intros Hr Hlen. unfold targetDifficulty, targetSpec, geb, ltb.
  change 80%Q with (inject_Z 80). change 50%Q with (inject_Z 50).
  rewrite !avgScore_threshold by (assumption || lia).
  destruct (Qle_bool (inject_Z 80) (meanSpec scores)); [reflexivity |].
  destruct (Qle_bool (inject_Z 50) (meanSpec scores)); reflexivity.
Qed.

Lemma filter_all {A} (f : A -> bool) (l : list A) :
  (forall x, In x l -> f x = true) -> filter f l = l.
Proof.
  induction l as [| x l IH]; intros H; [reflexivity |].
  cbn [filter]. rewrite (H x (or_introl eq_refl)), IH; [reflexivity |].
  intros y Hy. apply H. right. exact Hy.
Qed.

Lemma filter_none {A} (f : A -> bool) (l : list A) :
  (forall x, In x l -> f x = false) -> filter f l = [].
Proof.
  induction l as [| x l IH]; intros H; [reflexivity |].
  cbn [filter]. rewrite (H x (or_introl eq_refl)). apply IH.
  intros y Hy. apply H. right. exact Hy.
Qed.

Lemma weightedPool_cases (difficulty : string) (scores : list Z)
    (available : list Row) :
  let target := targetDifficulty difficulty (avgScore scores) in
  let wanted := filter (fun q => String.eqb (r_difficulty q) target) available in
  (wanted <> [] /\ weightedPool difficulty scores available = wanted)
  \/ (wanted = [] /\ weightedPool difficulty scores available = available).
Proof.
  cbv zeta. unfold weightedPool.
  destruct (filter _ available) as [| q l]; [right | left].
  - split; reflexivity.
  - split; [discriminate | reflexivity].
Qed.

(** X23: the weighted selection of the next-question route draws from the
    available questions of the target difficulty when there is one, and
    from all available questions otherwise.  The target is decided on the
    exact mean of the scores: at 80 or more it is medium for an easy
    session and hard for any other, below 50 it is medium for a hard
    session and easy for any other, and in between it is the session's
    difficulty.  In a session of difficulty medium or adaptive whose
    available questions are all medium, the pool is all of them whatever
    the scores. *)
Theorem weighted_selection (difficulty : string) (scores : list Z)
    (available : list Row) :
  scoresInRange scores -> Z.of_nat (List.length scores) < 2 ^ 32 ->
  let target := targetSpec difficulty (meanSpec scores) in
  let pool := weightedPool difficulty scores available in
  (forall q, In q pool -> In q available) /\
  (available <> [] -> pool <> []) /\
  ((exists q, In q available /\ r_difficulty q = target) ->
   forall q, In q pool <-> In q available /\ r_difficulty q = target) /\
  ((forall q, In q available -> r_difficulty q <> target) ->
   pool = available) /\
  (difficulty = "medium" \/ difficulty = "adaptive" ->
   (forall q, In q available -> r_difficulty q = "medium") ->
   pool = available).
Proof.
  intros Hr Hlen. cbv zeta.
  rewrite <- (targetDifficulty_spec difficulty scores Hr Hlen).
  set (target := targetDifficulty difficulty (avgScore scores)).
  pose proof (weightedPool_cases difficulty scores available) as Hc.
  cbv zeta in Hc. fold target in Hc.
  set (wanted := filter (fun q => String.eqb (r_difficulty q) target) available)
    in *.
  assert (Hw : forall q, In q wanted <-> In q available /\ r_difficulty q = target).
  { intros q. unfold wanted. rewrite filter_In, String.eqb_eq. reflexivity. }
  split; [| split; [| split; [| split]]].
  - intros q Hq. destruct Hc as [[_ E] | [_ E]]; rewrite E in Hq;
      [apply Hw in Hq; tauto | exact Hq].
  - intros NE. destruct Hc as [[N E] | [_ E]]; rewrite E; assumption.
  - intros (q0 & Hq0 & Ht) q.
    destruct Hc as [[_ E] | [N _]].
    + rewrite E. apply Hw.
    + exfalso. assert (C : In q0 wanted) by (apply Hw; tauto).
      rewrite N in C. destruct C.
  - intros Hnone. destruct Hc as [[N _] | [_ E]]; [| exact E].
    exfalso. destruct wanted as [| q l] eqn:F; [contradiction |].
    assert (C : In q (q :: l)) by (left; reflexivity).
    apply Hw in C. destruct C as [Hq Ht]. apply (Hnone q Hq Ht).
  - intros Hd Hmed.
    destruct Hc as [[N E] | [_ E]]; [| exact E].
    rewrite E. unfold wanted.
    destruct (String.eqb_spec "medium" target) as [Et | Et].
    + apply filter_all. intros q Hq. rewrite (Hmed q Hq). apply String.eqb_eq, Et.
    + exfalso. apply N. unfold wanted. apply filter_none.
      intros q Hq. rewrite (Hmed q Hq). apply String.eqb_neq, Et.
Qed.

Lemma weighted_selection_witness :
  weightedPool "medium" [95; 90]
    (map (fun i => SelectorExamples.row i "React" "medium") ["q-1"; "q-2"])
  = map (fun i => SelectorExamples.row i "React" "medium") ["q-1"; "q-2"]
  /\ targetSpec "medium" (meanSpec [95; 90]) = "hard".
Proof.
  split; [| reflexivity].
  apply (weighted_selection "medium" [95; 90]
           (map (fun i => SelectorExamples.row i "React" "medium") ["q-1"; "q-2"])).
  - repeat constructor; lia.
  - reflexivity.
  - left. reflexivity.
  - intros q [<- | [<- | []]]; reflexivity.
Defined.

(** ** The selection step *)

Lemma pick_total_20 {A} (r : Q) (l : list A) :
  isRandom r -> (1 <= List.length l <= 20)%nat -> exists x, pick r l = Some x.
Proof.
  intros [R0 R1] Hl. unfold pick.
  set (n := List.length l) in *.
  assert (Hn : (0 <= of_nat n)%Q) by apply of_nat_nonneg.
  assert (B : (0 <= fmul r (of_nat n))%Q /\
              (fmul r (of_nat n) < inject_Z (Z.of_nat n))%Q).
  { split.
    - apply fl_nonneg. nra.
    - assert (U : (fmul r (of_nat n) <= fmul maxRandom (of_nat n))%Q).
      { apply fl_mono. nra. }
      assert (V : (fmul maxRandom (of_nat n) < inject_Z (Z.of_nat n))%Q).
      { clear - Hl.
        do 21 (destruct n as [| n]; [first [lia | vm_compute; reflexivity] |]).
        lia. }
      lra. }
  destruct B as [B0 B1].
  assert (F0 : 0 <= Math_floor (fmul r (of_nat n))).
  { unfold Math_floor. change 0 with (Qfloor 0). apply Qfloor_resp_le, B0. }
  assert (F1 : Math_floor (fmul r (of_nat n)) < Z.of_nat n).
  { unfold Math_floor. rewrite Zlt_Qlt.
    eapply Qle_lt_trans; [apply Qfloor_le | exact B1]. }
  destruct (Z.ltb_spec (Math_floor (fmul r (of_nat n))) 0) as [C | _]; [lia |].
  destruct (nth_error l (Z.to_nat (Math_floor (fmul r (of_nat n))))) eqn:E.
  - eexists. reflexivity.
  - apply nth_error_None in E. fold n in E. lia.
Qed.

Lemma matching_cases (available : list Row) (q : QuestionDocument) :
  (exists r, matching available q = FromTable r /\ In r available /\
             r_id r = id q)
  \/ (matching available q = FromStore q /\ ~ In (id q) (map r_id available)).
Proof.
  unfold matching.
  destruct (find (fun r => String.eqb (r_id r) (id q)) available) as [r |] eqn:F.
  - left. exists r. apply find_some in F. destruct F as [Hin E].
    apply String.eqb_eq in E. auto.
  - right. split; [reflexivity |]. intros C. apply in_map_iff in C.
    destruct C as (r & E & Hin).
    pose proof (find_none _ _ F r Hin) as N. cbn beta in N.
    apply String.eqb_neq in N. contradiction.
Qed.

(** X24: the selection step of the next-question route, for one to twenty
    available rows and draws in [0, 1).  When the model is switched on and
    the selector returns a question, the step reports the method ai,
    whatever the selector's own method, and answers with the available row
    of the selector's id or, when no available row has that id, with the
    store's document, of which the response shows the id alone.  In every
    other case (the model switched off, the selector answering [null], the
    selector throwing) it reports random and answers with a row of the
    weighted pool.  It never fails. *)
Theorem next_question_step (env : Env) (ext : Externals) (session : Session)
    (answered : list string) (scores : list Z) (available : list Row)
    (h : Heap) :
  (forall k, isRandom (random ext k)) ->
  (1 <= List.length available <= 20)%nat ->
  let selector :=
    selectNextQuestion env ext (sessionContext session answered scores) h in
  (isAIEnabled env = true ->
   forall sel, fst selector = Returned (Some sel) ->
     nextQuestion env ext session answered scores available h
     = (Returned (matching available (question sel), "ai"), snd selector) /\
     ((exists q, matching available (question sel) = FromTable q /\
                 In q available /\ r_id q = id (question sel))
      \/ (matching available (question sel) = FromStore (question sel) /\
          ~ In (id (question sel)) (map r_id available) /\
          view (matching available (question sel))
          = {| v_id := id (question sel); v_category := None;
               v_topic := None; v_difficulty := None;
               v_text := None; v_timeLimit := None |}))) /\
  (isAIEnabled env = false \/ fst selector = Returned None
   \/ (exists e, fst selector = Thrown e) ->
   exists q h',
     nextQuestion env ext session answered scores available h
     = (Returned (FromTable q, "random"), h') /\
     In q (weightedPool (s_difficulty session) scores available) /\
     In q available).
Proof.
  intros Hrand Hlen. cbv zeta.
  assert (Weighted : forall h0,
    exists q h',
      (r <- Math_random ext ;;
       match pick r (weightedPool (s_difficulty session) scores available) with
       | Some q => ret (Returned (FromTable q, "random"))
       | None =>
           ret (Thrown "Cannot read properties of undefined (reading 'id')")
       end) h0 = (Returned (FromTable q, "random"), h')
      /\ In q (weightedPool (s_difficulty session) scores available)
      /\ In q available).
  { intros h0. unfold bind, ret, Math_random.
    pose proof (weightedPool_cases (s_difficulty session) scores available) as Hc.
    cbv zeta in Hc.
    set (pool := weightedPool (s_difficulty session) scores available) in *.
    assert (Hsub : forall q, In q pool -> In q available).
    { intros q Hq. destruct Hc as [[_ E] | [_ E]]; rewrite E in Hq;
        [apply filter_In in Hq; tauto | exact Hq]. }
    assert (Hpl : (1 <= List.length pool <= 20)%nat).
    { destruct Hc as [[N E] | [_ E]]; rewrite E.
      - split.
        + destruct (filter _ available); [contradiction | cbn; lia].
        + pose proof (filter_length_le
                        (fun q => String.eqb (r_difficulty q)
                                    (targetDifficulty (s_difficulty session)
                                       (avgScore scores))) available). lia.
      - exact Hlen. }
    destruct (pick_total_20 (random ext (draws h0)) pool (Hrand _) Hpl) as [q Hq].
    rewrite Hq. exists q. eexists. split; [reflexivity |].
    pose proof (pick_In _ _ _ Hq) as Hin. split; [exact Hin | apply Hsub, Hin]. }
  remember (nextQuestion env ext session answered scores available h)
    as result eqn:ER.
  unfold nextQuestion in ER. unfold bind at 1 in ER.
  destruct (isAIEnabled env) eqn:Eai.
  - unfold bind at 1 in ER.
    destruct (selectNextQuestion env ext
                (sessionContext session answered scores) h)
      as [[[sel |] | e] h1] eqn:S1; cbn [fst snd].
    + unfold ret at 1 2 in ER. split.
      * intros _ sel' E. injection E as <-. split; [exact ER |].
        destruct (matching_cases available (question sel))
          as [(r & E & Hin & Hid) | (E & Hn)]; rewrite E.
        -- left. exists r. auto.
        -- right. split; [reflexivity |]. split; [exact Hn | reflexivity].
      * intros [C | [C | (e & C)]]; discriminate C.
    + unfold ret at 1 in ER. split.
      * intros _ sel' E. discriminate E.
      * intros _. rewrite ER. exact (Weighted h1).
    + unfold ret at 1 in ER. split.
      * intros _ sel' E. discriminate E.
      * intros _. rewrite ER. exact (Weighted h1).
  - unfold ret at 1 in ER. split.
    + intros C. discriminate C.
    + intros _. rewrite ER. exact (Weighted h).
Qed.

Lemma next_question_step_witness :
  exists h',
    nextQuestion EvaluatorExamples.aiOn RouteExamples.anyExternals
      RouteExamples.mediumSession [] [] RouteExamples.queried
      SelectorExamples.emptyHeap
    = (Returned (FromStore (toDocument RouteExamples.anyRow), "ai"), h').
Proof.
  pose proof (next_question_step EvaluatorExamples.aiOn RouteExamples.anyExternals
                RouteExamples.mediumSession [] []
                RouteExamples.queried SelectorExamples.emptyHeap) as S.
  cbv zeta in S. destruct S as [S _].
  - intros k. vm_compute. split; discriminate.
  - cbn. lia.
  - destruct (S eq_refl
                {| question := toDocument RouteExamples.anyRow;
                   reasoning := "AI selected";
                   suggestedDifficulty := None;
                   selectionMethod := "ai" |}) as [E _].
    + vm_compute. reflexivity.
    + eexists. rewrite E. reflexivity.
Defined.

End RouteFacts.

(* ===================================================================== *)
(** * Edge cases *)
(* ===================================================================== *)

Module BlankFacts.
Import JSNum JSString FeedbackService.
Import JSNumFacts JSStringFacts FeedbackFacts RemarkFacts.

(** ** Blank answers *)

Lemma includes_blank (k : string) : includes "" k = is_empty k.
Proof. destruct k; reflexivity. Qed.

(** X25: an answer that is absent or all white space has no word and
    matches the empty keywords only; its score is at most 60, and it is 60,
    with the keyword score 100 and a feedback that opens with Good answer,
    when the question has no keywords. *)
Theorem blank_answer (answer : option string) (question : Question) :
  answerText answer = "" ->
  let r := evaluateAnswer answer question in
  wordCount r = 0%nat /\
  matchedKeywords r = filter is_empty (expectedKeywords question) /\
  10 <= score r <= 60 /\
  (or_empty (expected_keywords question) = "" ->
   score r = 60 /\ keywordScore r = 100 /\
   feedback r
   = "Good answer with room for improvement. Strengths: Good coverage of key concepts. Areas to improve: Answer could be more detailed, Consider structuring your answer with multiple points.").
Proof.
  intros Hb. cbv zeta.
  pose proof (score_bounds answer question) as [Hlo _].
  unfold evaluateAnswer in *.
  cbn [wordCount matchedKeywords score keywordScore feedback] in *.
  rewrite Hb in *.
  assert (Em : matched "" (expectedKeywords question)
               = filter is_empty (expectedKeywords question)).
  { unfold matched. apply filter_ext. intros k. apply includes_blank. }
  split; [reflexivity |]. split; [exact Em |]. split.
  - split; [exact Hlo |].
    change (lengthScoreOf (wordCountOf "")) with 0.
    change (structureScoreOf "") with 50.
    pose proof (keywordScoreOf_bounds
                  (List.length (matched "" (expectedKeywords question)))
                  (List.length (expectedKeywords question))
                  (filter_length_le _ _)) as [_ Hk].
    etransitivity; [apply overallScoreOf_mono, Hk |].
    vm_compute. discriminate.
  - intros Hq.
    assert (Ek : expectedKeywords question = [""]).
    { unfold expectedKeywords. rewrite Hq. reflexivity. }
    rewrite Ek. split; [| split]; vm_compute; reflexivity.
Qed.

Lemma blank_answer_witness :
  score (evaluateAnswer (Some "   ") (Examples.noKeywords true)) = 60.
Proof.
  apply (blank_answer (Some "   ") (Examples.noKeywords true)); reflexivity.
Defined.

End BlankFacts.

Module OrderFacts.
Import JSNum JSString Config QuestionStore QuestionSelector.
Import SelectorSpec EdgeSpec.
Import JSNumFacts JSStringFacts SortFacts.

(** ** Difficulties the preference order does not name *)

Lemma indexOf_absent (l : list string) (x : string) :
  ~ In x l -> indexOf l x = -1.
Proof.
  induction l as [| y l IH]; intros H; [reflexivity |].
  cbn [indexOf]. destruct (String.eqb_spec y x) as [E | NE].
  - exfalso. apply H. left. exact E.
  - rewrite IH by (intros C; apply H; right; exact C). reflexivity.
Qed.

Lemma indexOf_present (l : list string) (x : string) :
  In x l -> 0 <= indexOf l x.
Proof.
  induction l as [| y l IH]; intros H; [destruct H |].
  cbn [indexOf]. destruct (String.eqb_spec y x) as [E | NE]; [lia |].
  destruct H as [H | H]; [contradiction |].
  specialize (IH H). destruct (Z.ltb_spec (indexOf l x) 0); lia.
Qed.

Lemma difficultyOrder_known (avg : Q) (x : string) :
  In x (difficultyOrder avg) <-> In x knownDifficulties.
Proof.
  unfold difficultyOrder, knownDifficulties.
  destruct (geb avg 70); [| destruct (geb avg 50)]; cbn [In]; tauto.
Qed.

(** X26: whatever the scores, a candidate whose difficulty is none of
    easy, medium and hard (a capitalised or misspelt one, say) is sorted
    before every candidate of a known difficulty: its index in the
    preference order is -1. *)
Theorem unknown_difficulty_first (scores : list Z)
    (candidates : list QuestionDocument) (i j : nat) (a b : QuestionDocument) :
  let sorted := sortedCandidates scores candidates in
  nth_error sorted i = Some a -> nth_error sorted j = Some b ->
  ~ In (QuestionStore.difficulty (metadata a)) knownDifficulties ->
  In (QuestionStore.difficulty (metadata b)) knownDifficulties ->
  (i < j)%nat.
Proof.
  cbv zeta. unfold sortedCandidates.
  set (order := difficultyOrder (avgScore scores)).
  intros Ha Hb Na Kb.
  assert (Ka : difficultyKey order a = -1).
  { unfold difficultyKey. apply indexOf_absent.
    intros C. apply Na. apply (difficultyOrder_known (avgScore scores)), C. }
  assert (Kb' : 0 <= difficultyKey order b).
  { unfold difficultyKey. apply indexOf_present.
    apply (difficultyOrder_known (avgScore scores)), Kb. }
  pose proof (sortBy_sorted (difficultyKey order) candidates) as Hs.
  destruct (Nat.lt_trichotomy i j) as [L | [E | G]]; [exact L | exfalso | exfalso].
  - subst j. rewrite Ha in Hb. injection Hb as <-. lia.
  - pose proof (sorted_nth _ _ j i b a Hs G Hb Ha). lia.
Qed.

Lemma unknown_difficulty_first_witness :
  map id (sortedCandidates [20; 30]
            (map toDocument
               (SelectorExamples.table ++ [EdgeExamples.capitalRow])))
  = ["q-cap"; "q-easy"; "q-medium"; "q-hard"]
  /\ (0 < 1)%nat.
Proof.
  split; [vm_compute; reflexivity |].
  apply (unknown_difficulty_first [20; 30]
           (map toDocument (SelectorExamples.table ++ [EdgeExamples.capitalRow]))
           0 1 (toDocument EdgeExamples.capitalRow)
           (toDocument (SelectorExamples.row "q-easy" "React" "easy"))).
  - vm_compute. reflexivity.
  - vm_compute. reflexivity.
  - vm_compute. intros [C | [C | [C | []]]]; discriminate C.
  - vm_compute. tauto.
Defined.

End OrderFacts.

(* ===================================================================== *)
(** * Text beyond ASCII *)
(* ===================================================================== *)

Module UnicodeFacts.
Import JSNum JSString FeedbackService UnicodeText.
Import JSStringFacts.

(** ** On ASCII text the two lower-casings agree *)

Lemma lowerSimple_ascii (c : ascii) :
  (N_of_ascii c <? 128)%N = true ->
  lowerSimple (N_of_ascii c) = N_of_ascii (lower_char c)
  /\ (N_of_ascii c =? 0x3A3)%N = false
  /\ (N_of_ascii (lower_char c) <? 128)%N = true
  /\ covered (N_of_ascii c) = true
  /\ utf8_of (N_of_ascii c) = String c "".
Proof.
  destruct c as [[] [] [] [] [] [] [] []]; intros H;
    try discriminate H; vm_compute; repeat split; reflexivity.
Qed.

Lemma is_ascii_toLowerCase (s : string) :
  is_ascii s = true -> is_ascii (JSString.toLowerCase s) = true.
Proof.
  induction s as [| c s IH]; [reflexivity |].
  cbn [is_ascii JSString.toLowerCase]. intros H.
  apply andb_prop in H as [Hc Hs].
  destruct (lowerSimple_ascii c Hc) as (_ & _ & E & _).
  rewrite E, (IH Hs). reflexivity.
Qed.

Lemma covered_codePoints (s : string) :
  is_ascii s = true -> forallb covered (codePoints s) = true.
Proof.
  induction s as [| c s IH]; [reflexivity |].
  cbn [is_ascii codePoints forallb]. intros H.
  apply andb_prop in H as [Hc Hs].
  destruct (lowerSimple_ascii c Hc) as (_ & _ & _ & E & _).
  rewrite E, (IH Hs). reflexivity.
Qed.

Lemma lowerFrom_codePoints (s : string) (before : list N) :
  is_ascii s = true ->
  lowerFrom before (codePoints s) = codePoints (JSString.toLowerCase s).
Proof.
  revert before. induction s as [| c s IH]; intros before; [reflexivity |].
  cbn [is_ascii codePoints lowerFrom JSString.toLowerCase]. intros H.
  apply andb_prop in H as [Hc Hs].
  destruct (lowerSimple_ascii c Hc) as (E1 & E2 & _).
  rewrite E2, E1, (IH _ Hs). reflexivity.
Qed.

Lemma utf8_codePoints (s : string) :
  is_ascii s = true -> utf8 (codePoints s) = s.
Proof.
  induction s as [| c s IH]; [reflexivity |].
  cbn [is_ascii codePoints utf8]. intros H.
  apply andb_prop in H as [Hc Hs].
  destruct (lowerSimple_ascii c Hc) as (_ & _ & _ & _ & E).
  rewrite E, (IH Hs). reflexivity.
Qed.

Lemma toLowerCase_codePoints (s : string) :
  is_ascii s = true ->
  option_map utf8 (UnicodeText.toLowerCase (codePoints s))
  = Some (JSString.toLowerCase s).
Proof.
  intros H. unfold UnicodeText.toLowerCase.
  rewrite (covered_codePoints s H), (lowerFrom_codePoints s [] H).
  cbn [option_map]. rewrite utf8_codePoints; [reflexivity |].
  apply is_ascii_toLowerCase, H.
Qed.

(** On an ASCII answer and an ASCII keyword string, the keyword score
    computed on code points is the one [FeedbackService.evaluateAnswer]
    computes. *)
Lemma keywordScoreOfText_ascii (answer keywords : string) :
  is_ascii answer = true -> is_ascii keywords = true ->
  keywordScoreOfText (codePoints answer) (codePoints keywords)
  = Some (keywordScore
            (evaluateAnswer (Some answer)
               {| expected_keywords := Some keywords;
                  ideal_answer := None |})).
Proof.
  intros Ha Hk. unfold keywordScoreOfText.
  pose proof (toLowerCase_codePoints answer Ha) as Ea.
  pose proof (toLowerCase_codePoints keywords Hk) as Ek.
  destruct (UnicodeText.toLowerCase (codePoints answer)) as [a |];
    [| discriminate Ea].
  destruct (UnicodeText.toLowerCase (codePoints keywords)) as [k |];
    [| discriminate Ek].
  cbn [option_map] in Ea, Ek. injection Ea as Ea. injection Ek as Ek.
  rewrite Ea, Ek. reflexivity.
Qed.

End UnicodeFacts.
